(** * Voice-driven grid: the command interpreter and the grid reducer

    A shallow embedding of [parseVoiceCommand.ts] (the utterance
    interpreter), [useGridState.ts] (the focus and grid reducer) and the
    command dispatcher of [App.tsx].

    Conventions of the embedding.
    - A JavaScript string is a [string]; its characters are read as the
      code units U+0000..U+00FF, so [toLowerCase], [trim] and the class [\s]
      are those of that range.
    - A JavaScript number is a [number]: an integer or [NaN].  Every number
      of this program comes from [parseInt], from a literal or from adding
      and subtracting one.
    - A regular expression literal of the source is a term of [regex]; it is
      run by [compile], which follows the continuation-passing matcher of the
      ECMAScript specification (backtracking, greedy quantifiers, numbered
      capture groups).  [exec], [test], [match], [replace] and [split] are
      built on it as the specification builds them.
    - A call returns a [completion]: a value, or a thrown error.
    - The state of the React hooks is one record, [AppState]; a state setter
      is a function on it.  Timers are left out. *)

From Stdlib Require Import ZArith NArith Arith List Bool Ascii String Lia.
From Stdlib Require Import DecimalString Decimal.
Import ListNotations.

Set Implicit Arguments.

Open Scope string_scope.

(** ** Characters *)

Module Chars.

Definition code (c : ascii) : N := N_of_ascii c.

Definition between (lo hi : N) (c : ascii) : bool :=
  (N.leb lo (code c) && N.leb (code c) hi)%bool.

(** [\d] *)
Definition isDigit (c : ascii) : bool := between 48 57 c.

(** [\w]: ASCII letters, digits and the underscore. *)
Definition isWordChar (c : ascii) : bool :=
  (between 97 122 c || between 65 90 c || isDigit c || N.eqb (code c) 95)%bool.

(** [\s], and the characters [trim] strips: TAB, LF, VT, FF, CR, SPACE and
    NO-BREAK SPACE are the white space and line terminators below U+0100. *)
Definition isSpace (c : ascii) : bool :=
  (between 9 13 c || N.eqb (code c) 32 || N.eqb (code c) 160)%bool.

(** [toLowerCase] on one code unit: A-Z, and the upper-case letters of the
    Latin-1 block (U+00C0..U+00DE except the multiplication sign). *)
Definition toLower (c : ascii) : ascii :=
  if (between 65 90 c || between 192 214 c || between 216 222 c)%bool
  then ascii_of_N (code c + 32)
  else c.

Definition digitValue (c : ascii) : Z := Z.of_N (code c) - 48.

End Chars.

(** ** Strings *)

Module Str.

Fixpoint map (f : ascii -> ascii) (s : string) : string :=
  match s with
  | EmptyString => EmptyString
  | String c s' => String (f c) (map f s')
  end.

Definition toLowerCase (s : string) : string := map Chars.toLower s.

Fixpoint trimStart (s : string) : string :=
  match s with
  | EmptyString => EmptyString
  | String c s' => if Chars.isSpace c then trimStart s' else s
  end.

Fixpoint rev_acc (s acc : string) : string :=
  match s with
  | EmptyString => acc
  | String c s' => rev_acc s' (String c acc)
  end.

Definition rev (s : string) : string := rev_acc s EmptyString.

Definition trimEnd (s : string) : string := rev (trimStart (rev s)).

Definition trim (s : string) : string := trimEnd (trimStart s).

(** [s.slice(from, to)] for [from <= to]. *)
Definition slice (from to : nat) (s : string) : string :=
  substring from (to - from) s.

(** [s.slice(from)] *)
Definition sliceFrom (from : nat) (s : string) : string :=
  substring from (length s - from) s.

(** [s.includes(key)] *)
Fixpoint includes (key s : string) : bool :=
  if prefix key s then true
  else match s with
       | EmptyString => false
       | String _ s' => includes key s'
       end.

End Str.

(** ** Numbers *)

Inductive number : Type :=
| Int (z : Z)
| NaN.

Module Num.

Definition sub (a b : number) : number :=
  match a, b with
  | Int x, Int y => Int (x - y)
  | _, _ => NaN
  end.

Definition add (a b : number) : number :=
  match a, b with
  | Int x, Int y => Int (x + y)
  | _, _ => NaN
  end.

Definition mul (a b : number) : number :=
  match a, b with
  | Int x, Int y => Int (x * y)
  | _, _ => NaN
  end.

(** [Math.max] and [Math.min] return [NaN] as soon as an argument is. *)
Definition max (a b : number) : number :=
  match a, b with
  | Int x, Int y => Int (Z.max x y)
  | _, _ => NaN
  end.

Definition min (a b : number) : number :=
  match a, b with
  | Int x, Int y => Int (Z.min x y)
  | _, _ => NaN
  end.

(** The relational operators are false on [NaN]. *)
Definition geb (a b : number) : bool :=
  match a, b with
  | Int x, Int y => Z.leb y x
  | _, _ => false
  end.

Definition leb (a b : number) : bool := geb b a.

Definition ltb (a b : number) : bool :=
  match a, b with
  | Int x, Int y => Z.ltb x y
  | _, _ => false
  end.

(** SameValueZero, the equality of [Set]: [NaN] equals itself. *)
Definition sameValueZero (a b : number) : bool :=
  match a, b with
  | Int x, Int y => Z.eqb x y
  | NaN, NaN => true
  | _, _ => false
  end.

(** The leading decimal digits of [s], read left to right on top of [acc];
    [seen] records whether a digit was read. *)
Fixpoint digits (s : string) (seen : bool) (acc : Z) : option Z :=
  match s with
  | String c s' =>
      if Chars.isDigit c then digits s' true (10 * acc + Chars.digitValue c)
      else if seen then Some acc else None
  | EmptyString => if seen then Some acc else None
  end.

(** [parseInt(s, 10)]: leading white space is skipped, one sign is read,
    then the longest run of decimal digits; [NaN] when there is none.  The
    integer is exact; the program only compares it with bounds up to 24 and
    returns it when it has at most two digits, so the rounding of long
    numerals to double precision is not visible. *)
Definition parseInt (s : string) : number :=
  match Str.trimStart s with
  | String "-" s' =>
      match digits s' false 0 with Some z => Int (- z) | None => NaN end
  | String "+" s' =>
      match digits s' false 0 with Some z => Int z | None => NaN end
  | s' =>
      match digits s' false 0 with Some z => Int z | None => NaN end
  end.

(** The decimal numeral of an integer, as a template literal prints it. *)
Definition toString (n : Z) : string :=
  if Z.ltb n 0 then "-" ++ NilZero.string_of_uint (N.to_uint (Z.to_N (- n)))
  else NilZero.string_of_uint (N.to_uint (Z.to_N n)).

Definition show (n : number) : string :=
  match n with
  | Int z => toString z
  | NaN => "NaN"
  end.

(** [i === n] for an array index [i]. *)
Definition isIndex (i : nat) (n : number) : bool :=
  match n with
  | Int z => Z.eqb (Z.of_nat i) z
  | NaN => false
  end.

End Num.

(** ** Regular expressions *)

Module RegExp.

(** One member of a character class [[...]]. *)
Inductive classItem : Type :=
| One (c : ascii)
| Range (lo hi : ascii)
| Digit
| Space.

Definition itemHas (i : classItem) (c : ascii) : bool :=
  match i with
  | One c' => Ascii.eqb c c'
  | Range lo hi => Chars.between (Chars.code lo) (Chars.code hi) c
  | Digit => Chars.isDigit c
  | Space => Chars.isSpace c
  end.

Inductive regex : Type :=
| Empty
| Char (c : ascii)
| Class (items : list classItem)
| Seq (r1 r2 : regex)
| Alt (r1 r2 : regex)
| Rep (min : nat) (max : option nat) (r : regex)
| Group (i : nat) (r : regex)
| WordBoundary
| LineStart
| LineEnd.

(** A literal run of characters. *)
Fixpoint lit (s : string) : regex :=
  match s with
  | EmptyString => Empty
  | String c EmptyString => Char c
  | String c s' => Seq (Char c) (lit s')
  end.

(** [r+], [r?], [r{m,n}] and the classes [\s], [\d]. *)
Definition plus (r : regex) : regex := Rep 1 None r.
Definition opt (r : regex) : regex := Rep 0 (Some 1) r.
Definition times (m n : nat) (r : regex) : regex := Rep m (Some n) r.
Definition ws : regex := Class [Space].
Definition digit : regex := Class [Digit].

(** [r1|r2|...] *)
Fixpoint alts (r : regex) (rs : list regex) : regex :=
  match rs with
  | [] => r
  | r' :: rs' => Alt r (alts r' rs')
  end.

Declare Scope regex_scope.
Delimit Scope regex_scope with re.
Bind Scope regex_scope with regex.
Notation "r1 ;; r2" := (Seq r1 r2) (at level 61, right associativity) : regex_scope.

(** A match state: the end index reached and the capture ranges recorded so
    far, most recent first. *)
Record MatchState : Type := mkState {
  endIndex : nat;
  captures : list (nat * (nat * nat))
}.

Fixpoint lookup (i : nat) (caps : list (nat * (nat * nat))) : option (nat * nat) :=
  match caps with
  | [] => None
  | (j, range) :: caps' => if Nat.eqb i j then Some range else lookup i caps'
  end.

Definition advance (x : MatchState) : MatchState :=
  mkState (S (endIndex x)) (captures x).

Definition record (i : nat) (x y : MatchState) : MatchState :=
  mkState (endIndex y) ((i, (endIndex x, endIndex y)) :: captures y).

Definition Continuation : Type := MatchState -> option MatchState.
Definition Matcher : Type := MatchState -> Continuation -> option MatchState.

Definition orElse (a : option MatchState) (b : unit -> option MatchState) : option MatchState :=
  match a with
  | Some z => Some z
  | None => b tt
  end.

(** RepeatMatcher of the ECMAScript specification, greedy.  An iteration of
    an exhausted minimum that consumes nothing fails.  [fuel] bounds the
    number of iterations; [repeatFuel] below always suffices, since an
    iteration either lowers [min] or moves the end index forward.  The
    captures of the groups inside the repeated pattern are not reset between
    iterations: no pattern of the program has a group inside a quantifier. *)
Fixpoint RepeatMatcher (fuel : nat) (m : Matcher) (min : nat) (max : option nat)
    (x : MatchState) (c : Continuation) : option MatchState :=
  match max with
  | Some 0 => c x
  | _ =>
      match fuel with
      | 0 => None
      | S fuel' =>
          let d : Continuation := fun y =>
            if (Nat.eqb min 0 && Nat.eqb (endIndex y) (endIndex x))%bool then None
            else RepeatMatcher fuel' m (Nat.pred min) (option_map Nat.pred max) y c in
          if Nat.eqb min 0 then orElse (m x d) (fun _ => c x) else m x d
      end
  end.

Section Matching.

Variable input : string.

Definition charAt (i : nat) : option ascii := get i input.

Definition isWordAt (i : nat) : bool :=
  match charAt i with
  | Some c => Chars.isWordChar c
  | None => false
  end.

(** [\b] holds between a word character and a non-word character (or an end
    of the input). *)
Definition atBoundary (e : nat) : bool :=
  xorb (match e with 0 => false | S e' => isWordAt e' end) (isWordAt e).

Definition repeatFuel (min : nat) (x : MatchState) : nat :=
  S (min + (length input - endIndex x)).

Fixpoint compile (r : regex) (x : MatchState) (c : Continuation) {struct r}
    : option MatchState :=
  match r with
  | Empty => c x
  | Char ch =>
      match charAt (endIndex x) with
      | Some ch' => if Ascii.eqb ch' ch then c (advance x) else None
      | None => None
      end
  | Class items =>
      match charAt (endIndex x) with
      | Some ch' => if existsb (fun i => itemHas i ch') items then c (advance x) else None
      | None => None
      end
  | Seq r1 r2 => compile r1 x (fun y => compile r2 y c)
  | Alt r1 r2 => orElse (compile r1 x c) (fun _ => compile r2 x c)
  | Rep min max r' => RepeatMatcher (repeatFuel min x) (compile r') min max x c
  | Group i r' => compile r' x (fun y => c (record i x y))
  | WordBoundary => if atBoundary (endIndex x) then c x else None
  | LineStart => if Nat.eqb (endIndex x) 0 then c x else None
  | LineEnd => if Nat.eqb (endIndex x) (length input) then c x else None
  end.

(** The end states a pattern can reach from a state, whatever the order in
    which the matcher explores them. *)
Inductive Matches : regex -> MatchState -> MatchState -> Prop :=
| MEmpty x : Matches Empty x x
| MChar ch x :
    charAt (endIndex x) = Some ch -> Matches (Char ch) x (advance x)
| MClass items ch x :
    charAt (endIndex x) = Some ch ->
    existsb (fun i => itemHas i ch) items = true ->
    Matches (Class items) x (advance x)
| MSeq r1 r2 x y z :
    Matches r1 x y -> Matches r2 y z -> Matches (Seq r1 r2) x z
| MAltL r1 r2 x y : Matches r1 x y -> Matches (Alt r1 r2) x y
| MAltR r1 r2 x y : Matches r2 x y -> Matches (Alt r1 r2) x y
| MRepNone min r x : Matches (Rep min (Some 0) r) x x
| MRepSkip max r x : Matches (Rep 0 max r) x x
| MRepIter min max r x y z :
    max <> Some 0 ->
    Matches r x y ->
    (min = 0 -> endIndex y <> endIndex x) ->
    Matches (Rep (Nat.pred min) (option_map Nat.pred max) r) y z ->
    Matches (Rep min max r) x z
| MGroup i r x y : Matches r x y -> Matches (Group i r) x (record i x y)
| MWordBoundary x : atBoundary (endIndex x) = true -> Matches WordBoundary x x
| MLineStart x : endIndex x = 0 -> Matches LineStart x x
| MLineEnd x : endIndex x = length input -> Matches LineEnd x x.

(** The result of one successful match: where it starts and the final
    state. *)
Record MatchResult : Type := mkResult {
  index : nat;
  final : MatchState
}.

Definition matchAt (r : regex) (i : nat) : option MatchResult :=
  match compile r (mkState i []) (fun y => Some y) with
  | Some y => Some (mkResult i y)
  | None => None
  end.

(** The first start index of [candidates] at which [r] matches. *)
Fixpoint firstMatch (r : regex) (candidates : list nat) : option MatchResult :=
  match candidates with
  | [] => None
  | i :: rest =>
      match matchAt r i with
      | Some m => Some m
      | None => firstMatch r rest
      end
  end.

(** [r.exec(input)] with [lastIndex]: the start indices [lastIndex],
    [lastIndex + 1], ... up to the length of the input are tried in turn. *)
Definition execFrom (r : regex) (lastIndex : nat) : option MatchResult :=
  firstMatch r (seq lastIndex (S (length input) - lastIndex)).

Definition lastOf (m : MatchResult) : nat := endIndex (final m).

(** [m[0]], the matched text. *)
Definition matched (m : MatchResult) : string :=
  Str.slice (index m) (lastOf m) input.

(** [m[i]] for a capture group: [None] stands for [undefined]. *)
Definition group (i : nat) (m : MatchResult) : option string :=
  match lookup i (captures (final m)) with
  | Some (s, e) => Some (Str.slice s e input)
  | None => None
  end.

(** The successive matches of a global ([/g]) pattern.  After an empty match
    the search resumes one position further. *)
Fixpoint execAllFrom (fuel : nat) (r : regex) (lastIndex : nat) : list MatchResult :=
  match fuel with
  | 0 => []
  | S fuel' =>
      match execFrom r lastIndex with
      | None => []
      | Some m =>
          let next := if Nat.eqb (lastOf m) (index m) then S (lastOf m) else lastOf m in
          m :: execAllFrom fuel' r next
      end
  end.

Definition execAll (r : regex) : list MatchResult :=
  execAllFrom (S (S (length input))) r 0.

(** The pieces of [input.replace(r, by)] for a global [r] and a replacement
    without dollar patterns, from source position [pos] on. *)
Fixpoint replacePieces (ms : list MatchResult) (by_ : string) (pos : nat) : string :=
  match ms with
  | [] => Str.sliceFrom pos input
  | m :: ms' =>
      if Nat.leb pos (index m)
      then Str.slice pos (index m) input ++ by_ ++ replacePieces ms' by_ (lastOf m)
      else replacePieces ms' by_ pos
  end.

(** The steps a split needs from the positions [p] and [q] on: a step either
    moves [q] forward or, after an empty separator, brings [p] up to [q]. *)
Definition splitFuel (p q : nat) : nat :=
  S (2 * (length input - q) + (if Nat.eqb p q then 0 else 1)).

(** The pieces of [input.split(r)] for a pattern without capture groups:
    [p] is the start of the current piece and [q] the position where a
    separator is looked for. *)
Fixpoint splitFrom (fuel : nat) (r : regex) (p q : nat) : list string :=
  match fuel with
  | 0 => [Str.sliceFrom p input]
  | S fuel' =>
      if Nat.ltb q (length input) then
        match matchAt r q with
        | None => splitFrom fuel' r p (S q)
        | Some m =>
            let e := Nat.min (lastOf m) (length input) in
            if Nat.eqb e p then splitFrom fuel' r p (S q)
            else Str.slice p q input :: splitFrom fuel' r e e
        end
      else [Str.sliceFrom p input]
  end.

End Matching.

(** [r.test(s)] *)
Definition test (r : regex) (s : string) : bool :=
  match execFrom s r 0 with
  | Some _ => true
  | None => false
  end.

(** [s.match(r)] for a pattern without the [g] flag. *)
Definition match_ (r : regex) (s : string) : option MatchResult := execFrom s r 0.

(** [s.match(r)] for a global pattern: the matched texts, or [None] ([null])
    when there is no match. *)
Definition matchGlobal (r : regex) (s : string) : option (list string) :=
  match execAll s r with
  | [] => None
  | ms => Some (List.map (matched s) ms)
  end.

(** [s.replace(r, by)] for a global pattern. *)
Definition replaceGlobal (r : regex) (by_ : string) (s : string) : string :=
  replacePieces s (execAll s r) by_ 0.

(** [s.split(r)] *)
Definition split (r : regex) (s : string) : list string :=
  match s with
  | EmptyString =>
      match matchAt s r 0 with
      | Some _ => []
      | None => [s]
      end
  | _ => splitFrom s (splitFuel s 0 0) r 0 0
  end.

End RegExp.

Import RegExp.
Open Scope regex_scope.

(** ** types.ts *)

Definition MAIN_COLS : Z := 12.
Definition MAIN_ROWS : Z := 2.
Definition MAIN_COUNT : Z := MAIN_COLS * MAIN_ROWS.
Definition SUB_PER_CELL : Z := 9.

Definition SubCellState : Type := bool.
Definition GridState : Type := list (list SubCellState).

(** The [action] field of an [applyToSub] command, and the [type] argument
    of [applyVoiceCommand]. *)
Inductive SubAction : Type :=
| actToggle
| actTurnOn
| actTurnOff.

(** The object a parse returns; [null] is [None] of [option VoiceCommand].
    [applyToSub] is built by the parser although the union type of
    [types.ts] does not list it. *)
Inductive VoiceCommand : Type :=
| nextCell
| prevCell
| goToCell (index : number)
| cellNotFound (requested : number)
| selectSub (index : number)
| selectSubCells (indices : list number)
| applyToSub (subIndex : number) (action : SubAction)
| toggle
| turnOn
| turnOff.

Record GridFocus : Type := mkFocus {
  activeCellIndex : number;
  focusedSubIndex : option number;
  selectedSubIndices : list number
}.

(** ** parseVoiceCommand.ts *)

(** What a call produces: a value, or a thrown [TypeError] (reading a
    property of [undefined]). *)
Inductive completion (A : Type) : Type :=
| Return (a : A)
| Throw.

Arguments Throw {A}.

(** A run-time argument: the parser checks its type itself. *)
Inductive value : Type :=
| VString (s : string)
| VNumber (n : number)
| VBoolean (b : bool)
| VNull
| VUndefined
| VObject.

(** [!v] *)
Definition falsy (v : value) : bool :=
  match v with
  | VString s => String.eqb s EmptyString
  | VNumber (Int z) => Z.eqb z 0
  | VNumber NaN => true
  | VBoolean b => negb b
  | VNull => true
  | VUndefined => true
  | VObject => false
  end.

(** [parseInt(m[i], 10)]; an [undefined] group reads as the text
    ["undefined"], which has no digit. *)
Definition parseIntOf (g : option string) : number :=
  match g with
  | Some s => Num.parseInt s
  | None => NaN
  end.

(** [/\s+/g] *)
Definition spacesPattern : regex := plus ws.

Definition normalize (text : string) : string :=
  replaceGlobal spacesPattern " " (Str.trim (Str.toLowerCase text)).

Definition oneToNine : regex := Class [Range "1" "9"].

(** [/\b(?:select\s+)?([1-9])\b/] *)
Definition numPattern : regex :=
  WordBoundary ;; opt (lit "select" ;; plus ws) ;; Group 1 oneToNine ;; WordBoundary.

(** The entries of [posMap], in insertion order. *)
Definition posMap : list (string * number) :=
  [ ("top left", Int 0); ("top center", Int 1); ("top right", Int 2);
    ("middle left", Int 3); ("center", Int 4); ("middle right", Int 5);
    ("bottom left", Int 6); ("bottom center", Int 7); ("bottom right", Int 8);
    ("left", Int 0); ("right", Int 2); ("middle", Int 4) ].

(** [for (const [key, idx] of entries) if (n.includes(key)) return idx;] *)
Fixpoint firstIncluded (entries : list (string * number)) (n : string) : option number :=
  match entries with
  | [] => None
  | (key, idx) :: rest => if Str.includes key n then Some idx else firstIncluded rest n
  end.

Definition parseSubCellPosition (text : string) : option number :=
  let n := normalize text in
  match match_ numPattern n with
  | Some numMatch =>
      Some (Num.sub (Num.min (Int 9) (Num.max (Int 1) (parseIntOf (group n 1 numMatch)))) (Int 1))
  | None => firstIncluded posMap n
  end.

(** [/\b(?:go\s+to\s+)?(?:cell|block)\s+(\d{1,2})\b/] *)
Definition cellPattern : regex :=
  WordBoundary ;; opt (lit "go" ;; plus ws ;; lit "to" ;; plus ws) ;;
  Alt (lit "cell") (lit "block") ;; plus ws ;; Group 1 (times 1 2 digit) ;; WordBoundary.

(** [/\brow\s+(\d)\s+col(?:umn)?\s+(\d+)\b/] *)
Definition rowColPattern : regex :=
  WordBoundary ;; lit "row" ;; plus ws ;; Group 1 digit ;; plus ws ;;
  lit "col" ;; opt (lit "umn") ;; plus ws ;; Group 2 (plus digit) ;; WordBoundary.

Definition parseCellNumber (text : string) : option number :=
  let n := normalize text in
  let fromCell :=
    match match_ cellPattern n with
    | Some cellMatch =>
        let num := parseIntOf (group n 1 cellMatch) in
        if (Num.geb num (Int 1) && Num.leb num (Int MAIN_COUNT))%bool
        then Some (Num.sub num (Int 1))
        else None
    | None => None
    end in
  match fromCell with
  | Some idx => Some idx
  | None =>
      match match_ rowColPattern n with
      | Some rowColMatch =>
          let row := parseIntOf (group n 1 rowColMatch) in
          let col := parseIntOf (group n 2 rowColMatch) in
          if (Num.geb row (Int 1) && Num.leb row (Int 2)
              && Num.geb col (Int 1) && Num.leb col (Int 12))%bool
          then Some (Num.add (Num.mul (Num.sub row (Int 1)) (Int 12)) (Num.sub col (Int 1)))
          else None
      | None => None
      end
  end.

(** [/\b(?:next|go\s+to\s+next)\s+cell\b/] *)
Definition nextCellPattern : regex :=
  WordBoundary ;; Alt (lit "next") (lit "go" ;; plus ws ;; lit "to" ;; plus ws ;; lit "next") ;;
  plus ws ;; lit "cell" ;; WordBoundary.

(** [/\b(?:previous|prev|go\s+to\s+previous)\s+cell\b/] *)
Definition prevCellPattern : regex :=
  WordBoundary ;;
  alts (lit "previous")
    [lit "prev"; lit "go" ;; plus ws ;; lit "to" ;; plus ws ;; lit "previous"] ;;
  plus ws ;; lit "cell" ;; WordBoundary.

(** [/\bselect\s+(?:block|cell)\s+(?:number\s+)?(\d{1,2})\b/] *)
Definition selectCellPattern : regex :=
  WordBoundary ;; lit "select" ;; plus ws ;; Alt (lit "block") (lit "cell") ;; plus ws ;;
  opt (lit "number" ;; plus ws) ;; Group 1 (times 1 2 digit) ;; WordBoundary.

(** [[1-9]|one|two|three|four|five|six|seven|eight|nine] *)
Definition digitOrWord : regex :=
  alts oneToNine
    [lit "one"; lit "two"; lit "three"; lit "four"; lit "five";
     lit "six"; lit "seven"; lit "eight"; lit "nine"].

(** [/\btoggle\s+cell\s+(?:number\s+)?([1-9]|one|...|nine)\b/] *)
Definition toggleSubCellPattern : regex :=
  WordBoundary ;; lit "toggle" ;; plus ws ;; lit "cell" ;; plus ws ;;
  opt (lit "number" ;; plus ws) ;; Group 1 digitOrWord ;; WordBoundary.

(** The own properties of [digitMap]. *)
Definition digitMap : list (string * number) :=
  [ ("one", Int 1); ("two", Int 2); ("three", Int 3); ("four", Int 4); ("five", Int 5);
    ("six", Int 6); ("seven", Int 7); ("eight", Int 8); ("nine", Int 9) ].

(** The property names an object literal inherits from [Object.prototype];
    their values are functions or objects, so they are not nullish and read
    as [NaN] in arithmetic. *)
Definition inheritedKeys : list string :=
  [ "constructor"; "hasOwnProperty"; "isPrototypeOf"; "propertyIsEnumerable";
    "toLocaleString"; "toString"; "valueOf"; "__proto__"; "__defineGetter__";
    "__defineSetter__"; "__lookupGetter__"; "__lookupSetter__" ].

Fixpoint ownProperty (entries : list (string * number)) (key : string) : option number :=
  match entries with
  | [] => None
  | (k, v) :: rest => if String.eqb k key then Some v else ownProperty rest key
  end.

(** [digitMap[key]] as a number; [None] is [undefined]. *)
Definition getProperty (entries : list (string * number)) (key : string) : option number :=
  match ownProperty entries key with
  | Some v => Some v
  | None => if existsb (String.eqb key) inheritedKeys then Some NaN else None
  end.

(** [/\band\b/g], [/,/g] and [/\b[1-9]\b/g] *)
Definition andPattern : regex := WordBoundary ;; lit "and" ;; WordBoundary.
Definition commaPattern : regex := Char ",".
Definition isolatedDigitPattern : regex := WordBoundary ;; oneToNine ;; WordBoundary.

(** [[...new Set(xs)]]: the first occurrence of each value, in order. *)
Fixpoint dedupeOnto (seen : list number) (xs : list number) : list number :=
  match xs with
  | [] => []
  | x :: xs' =>
      if existsb (Num.sameValueZero x) seen then dedupeOnto seen xs'
      else x :: dedupeOnto (x :: seen) xs'
  end.

Definition dedupe (xs : list number) : list number := dedupeOnto [] xs.

(** [(a, b) => a - b] *)
Definition compareFn (a b : number) : number := Num.sub a b.

(** [xs.sort(compareFn)] as a stable insertion sort: an element goes before
    the first one that compares greater than it. *)
Fixpoint insertSorted (x : number) (sorted : list number) : list number :=
  match sorted with
  | [] => [x]
  | y :: rest =>
      if Num.ltb (Int 0) (compareFn y x) then x :: y :: rest
      else y :: insertSorted x rest
  end.

Definition sort (xs : list number) : list number :=
  fold_left (fun sorted x => insertSorted x sorted) xs [].

Definition parseSubCellList (rest : string) : list number :=
  let normalized := replaceGlobal commaPattern " " (replaceGlobal andPattern " " rest) in
  match matchGlobal isolatedDigitPattern normalized with
  | None => []
  | Some numbers =>
      if Nat.eqb (List.length numbers) 0 then []
      else sort (dedupe (List.map (fun x => Num.sub (Num.parseInt x) (Int 1)) numbers))
  end.

(** [/\bselect\s+(?:sub\s+cells?|subcells?)\s+([\d\s, and]+)/] *)
Definition subCellsPattern : regex :=
  WordBoundary ;; lit "select" ;; plus ws ;;
  Alt (lit "sub" ;; plus ws ;; lit "cell" ;; opt (Char "s"))
      (lit "subcell" ;; opt (Char "s")) ;;
  plus ws ;;
  Group 1 (plus (Class [Digit; Space; One ","; One " "; One "a"; One "n"; One "d"])).

(** [/\b(?:check|uncheck|toggle|mark|clear)\s+box\s+(?:number\s+)?([1-9])\b/] *)
Definition boxNumPattern : regex :=
  WordBoundary ;;
  alts (lit "check") [lit "uncheck"; lit "toggle"; lit "mark"; lit "clear"] ;;
  plus ws ;; lit "box" ;; plus ws ;; opt (lit "number" ;; plus ws) ;;
  Group 1 oneToNine ;; WordBoundary.

(** [/^(?:uncheck|clear)$/] and [/^(?:check|mark)$/] *)
Definition offWordPattern : regex :=
  LineStart ;; Alt (lit "uncheck") (lit "clear") ;; LineEnd.
Definition onWordPattern : regex :=
  LineStart ;; Alt (lit "check") (lit "mark") ;; LineEnd.

(** [/\btoggle\s+all\b/] *)
Definition toggleAllPattern : regex :=
  WordBoundary ;; lit "toggle" ;; plus ws ;; lit "all" ;; WordBoundary.

(** [/\b(?:turn\s+on|mark|enable|set\s+on|check)\b/] *)
Definition turnOnPattern : regex :=
  WordBoundary ;;
  alts (lit "turn" ;; plus ws ;; lit "on")
    [lit "mark"; lit "enable"; lit "set" ;; plus ws ;; lit "on"; lit "check"] ;;
  WordBoundary.

(** [/\b(?:turn\s+off|clear|unmark|disable|set\s+off|uncheck)\b/] *)
Definition turnOffPattern : regex :=
  WordBoundary ;;
  alts (lit "turn" ;; plus ws ;; lit "off")
    [lit "clear"; lit "unmark"; lit "disable"; lit "set" ;; plus ws ;; lit "off";
     lit "uncheck"] ;;
  WordBoundary.

(** [boxNumMatch[0].split(/\s+/)[0]]; the first element of an empty array
    is [undefined], which [test] reads as the text ["undefined"]. *)
Definition firstWord (s : string) : string :=
  match split spacesPattern s with
  | w :: _ => w
  | [] => "undefined"
  end.

(** One [if (...) return ...;] statement of [parseVoiceCommand]: [None] when
    control falls through to the next statement, [Some] of the completion
    when the statement ends the call. *)
Definition statement : Type := option (completion (option VoiceCommand)).

Definition returns (cmd : VoiceCommand) : statement := Some (Return (Some cmd)).

(** The statements in source order; [return null] closes the function. *)
Fixpoint runStatements (stmts : list statement) : completion (option VoiceCommand) :=
  match stmts with
  | [] => Return None
  | Some done :: _ => done
  | None :: rest => runStatements rest
  end.

Definition nextCellStmt (n : string) : statement :=
  if (test nextCellPattern n || String.eqb n "next")%bool then returns nextCell else None.

Definition prevCellStmt (n : string) : statement :=
  if (test prevCellPattern n || String.eqb n "previous" || String.eqb n "prev")%bool
  then returns prevCell else None.

Definition selectCellStmt (n : string) : statement :=
  match match_ selectCellPattern n with
  | Some selectCellMatch =>
      let requested := parseIntOf (group n 1 selectCellMatch) in
      if (Num.geb requested (Int 1) && Num.leb requested (Int MAIN_COUNT))%bool
      then returns (goToCell (Num.sub requested (Int 1)))
      else returns (cellNotFound requested)
  | None => None
  end.

Definition toggleSubCellStmt (n : string) : statement :=
  match match_ toggleSubCellPattern n with
  | Some toggleSubCellMatch =>
      match group n 1 toggleSubCellMatch with
      | None => Some Throw
      | Some captured =>
          let wordOrDigit := Str.toLowerCase captured in
          let num :=
            match getProperty digitMap wordOrDigit with
            | Some v => v
            | None => Num.parseInt wordOrDigit
            end in
          let subIndex := Num.max (Int 0) (Num.min (Int 8) (Num.sub num (Int 1))) in
          returns (applyToSub subIndex actToggle)
      end
  | None => None
  end.

Definition goToCellStmt (transcript : string) : statement :=
  match parseCellNumber transcript with
  | Some cellNum => returns (goToCell cellNum)
  | None => None
  end.

Definition subCellsStmt (n : string) : statement :=
  match match_ subCellsPattern n with
  | Some subCellsMatch =>
      match group n 1 subCellsMatch with
      | None => Some Throw
      | Some rest =>
          let indices := parseSubCellList rest in
          if Nat.ltb 0 (List.length indices) then returns (selectSubCells indices) else None
      end
  | None => None
  end.

Definition selectSubStmt (transcript n : string) : statement :=
  if Str.includes "select" n then
    match parseSubCellPosition transcript with
    | Some subIdx => returns (selectSub subIdx)
    | None => None
    end
  else None.

Definition boxNumStmt (n : string) : statement :=
  match match_ boxNumPattern n with
  | Some boxNumMatch =>
      let actionWord := firstWord (matched n boxNumMatch) in
      let subIndex := Num.sub (parseIntOf (group n 1 boxNumMatch)) (Int 1) in
      let action :=
        if test offWordPattern actionWord then actTurnOff
        else if test onWordPattern actionWord then actTurnOn
        else actToggle in
      returns (applyToSub subIndex action)
  | None => None
  end.

Definition toggleAllStmt (n : string) : statement :=
  if test toggleAllPattern n then returns toggle else None.

Definition turnOnStmt (n : string) : statement :=
  if test turnOnPattern n then returns turnOn else None.

Definition turnOffStmt (n : string) : statement :=
  if test turnOffPattern n then returns turnOff else None.

Definition typeofString (v : value) : bool :=
  match v with
  | VString _ => true
  | _ => false
  end.

Definition parseVoiceCommand (transcript : value) : completion (option VoiceCommand) :=
  if (falsy transcript || negb (typeofString transcript))%bool then Return None
  else
    match transcript with
    | VString text =>
        let n := normalize text in
        runStatements
          [ nextCellStmt n; prevCellStmt n; selectCellStmt n; toggleSubCellStmt n;
            goToCellStmt text; subCellsStmt n; selectSubStmt text n; boxNumStmt n;
            toggleAllStmt n; turnOnStmt n; turnOffStmt n ]
    | _ => Return None
    end.

(** The interpreter on an utterance. *)
Definition interpret (utterance : string) : completion (option VoiceCommand) :=
  parseVoiceCommand (VString utterance).

(** ** useGridState.ts *)

(** The state the hook owns, together with the two feedback messages of
    [App].  The timers that clear the flash and the messages later are not
    part of the state. *)
Record AppState : Type := mkApp {
  grid : GridState;
  focus : GridFocus;
  lastCommandFlash : bool;
  unrecognizedMessage : option string;
  cellNotFoundMessage : option string
}.

Definition createInitialGrid : GridState :=
  repeat (repeat false (Z.to_nat SUB_PER_CELL)) (Z.to_nat MAIN_COUNT).

Definition initialState : AppState :=
  mkApp createInitialGrid (mkFocus (Int 0) None []) false None None.

Definition setFocus (f : GridFocus -> GridFocus) (st : AppState) : AppState :=
  mkApp (grid st) (f (focus st)) (lastCommandFlash st)
        (unrecognizedMessage st) (cellNotFoundMessage st).

Definition setGrid (f : GridState -> GridState) (st : AppState) : AppState :=
  mkApp (f (grid st)) (focus st) (lastCommandFlash st)
        (unrecognizedMessage st) (cellNotFoundMessage st).

Definition setActiveCell (index : number) (st : AppState) : AppState :=
  let clamped := Num.max (Int 0) (Num.min (Num.sub (Int MAIN_COUNT) (Int 1)) index) in
  setFocus (fun f => mkFocus clamped None []) st.

Definition setFocusedSub (subIndex : option number) (st : AppState) : AppState :=
  match subIndex with
  | Some i =>
      if (Num.ltb i (Int 0) || Num.geb i (Int SUB_PER_CELL))%bool then st
      else setFocus (fun f => mkFocus (activeCellIndex f) subIndex (selectedSubIndices f)) st
  | None =>
      setFocus (fun f => mkFocus (activeCellIndex f) subIndex (selectedSubIndices f)) st
  end.

Definition setSelectedSubIndices (indices : list number) (st : AppState) : AppState :=
  let valid := filter (fun i => (Num.geb i (Int 0) && Num.ltb i (Int SUB_PER_CELL))%bool) indices in
  setFocus (fun f => mkFocus (activeCellIndex f) (focusedSubIndex f) valid) st.

(** [xs.map((x, i) => f(x, i))], counting from [i]. *)
Fixpoint mapIndexed {A B : Type} (f : A -> nat -> B) (i : nat) (xs : list A) : list B :=
  match xs with
  | [] => []
  | x :: xs' => f x i :: mapIndexed f (S i) xs'
  end.

(** [value ?? !v] *)
Definition orNegate (value : option bool) (v : bool) : bool :=
  match value with
  | Some b => b
  | None => negb v
  end.

Definition toggleSub (cellIndex subIndex : number) (value : option bool) (st : AppState)
    : AppState :=
  setGrid (fun g =>
    mapIndexed (fun row i =>
      if Num.isIndex i cellIndex
      then mapIndexed (fun v j => if Num.isIndex j subIndex then orNegate value v else v) 0 row
      else row) 0 g) st.

Definition triggerCommandFlash (st : AppState) : AppState :=
  mkApp (grid st) (focus st) true (unrecognizedMessage st) (cellNotFoundMessage st).

(** [type === 'toggle' ? undefined : type === 'turnOn'] *)
Definition nextValue (type : SubAction) : option bool :=
  match type with
  | actToggle => None
  | actTurnOn => Some true
  | actTurnOff => Some false
  end.

Definition applyVoiceCommand (cellIndex : number) (subIndex : option number)
    (type : SubAction) (st : AppState) : AppState :=
  let st' :=
    match subIndex with
    | None =>
        fold_left (fun acc i => toggleSub cellIndex (Int (Z.of_nat i)) (nextValue type) acc)
                  (seq 0 (Z.to_nat SUB_PER_CELL)) st
    | Some i => toggleSub cellIndex i (nextValue type) st
    end in
  triggerCommandFlash st'.

(** ** App.tsx *)

Definition setUnrecognizedMessage (m : option string) (st : AppState) : AppState :=
  mkApp (grid st) (focus st) (lastCommandFlash st) m (cellNotFoundMessage st).

Definition setCellNotFoundMessage (m : option string) (st : AppState) : AppState :=
  mkApp (grid st) (focus st) (lastCommandFlash st) (unrecognizedMessage st) m.

(** The [type] tags the union [VoiceCommand] of [types.ts] declares. *)
Definition declaredTypes : list string :=
  [ "nextCell"; "prevCell"; "goToCell"; "cellNotFound"; "selectSub"; "selectSubCells";
    "toggle"; "turnOn"; "turnOff" ].

(** [cmd.type] *)
Definition typeOf (cmd : VoiceCommand) : string :=
  match cmd with
  | nextCell => "nextCell"
  | prevCell => "prevCell"
  | goToCell _ => "goToCell"
  | cellNotFound _ => "cellNotFound"
  | selectSub _ => "selectSub"
  | selectSubCells _ => "selectSubCells"
  | applyToSub _ _ => "applyToSub"
  | toggle => "toggle"
  | turnOn => "turnOn"
  | turnOff => "turnOff"
  end.

(** A double quote, and a quoted phrase. *)
Definition dquote : string := String (ascii_of_nat 34) EmptyString.
Definition quoted (s : string) : string := dquote ++ s ++ dquote.

Definition notUnderstood : string :=
  "Command not understood. Try " ++ quoted "next cell" ++ ", " ++ quoted "select center"
  ++ ", " ++ quoted "toggle" ++ ".".

Definition handleVoiceCommand (cmd : option VoiceCommand) (transcript : string)
    (st : AppState) : AppState :=
  match cmd with
  | None =>
      if negb (String.eqb (Str.trim transcript) EmptyString)
      then setUnrecognizedMessage (Some notUnderstood) st
      else st
  | Some c =>
      let activeCell := activeCellIndex (focus st) in
      let focusedSub := focusedSubIndex (focus st) in
      match c with
      | nextCell => triggerCommandFlash (setActiveCell (Num.add activeCell (Int 1)) st)
      | prevCell => triggerCommandFlash (setActiveCell (Num.sub activeCell (Int 1)) st)
      | goToCell index => triggerCommandFlash (setActiveCell index st)
      | cellNotFound requested =>
          setCellNotFoundMessage
            (Some ("Cell " ++ Num.show requested ++ " not found. Cells are 1 to "
                   ++ Num.toString MAIN_COUNT ++ ".")) st
      | selectSub index => triggerCommandFlash (setFocusedSub (Some index) st)
      | selectSubCells indices => triggerCommandFlash (setSelectedSubIndices indices st)
      | toggle => applyVoiceCommand activeCell focusedSub actToggle st
      | turnOn => applyVoiceCommand activeCell focusedSub actTurnOn st
      | turnOff => applyVoiceCommand activeCell focusedSub actTurnOff st
      | applyToSub _ _ => st
      end
  end.

(** What the speech hook does to the application state with a finalized
    utterance [final]: nothing when it is empty; otherwise the utterance is
    parsed and the command handed to the dispatcher.  An error thrown by the
    parser leaves the state as it is. *)
Definition onFinal (final : string) (st : AppState) : AppState :=
  if String.eqb final EmptyString then st
  else
    match interpret final with
    | Return cmd => handleVoiceCommand cmd final st
    | Throw => st
    end.

(** ** Grid.tsx, Cell.tsx and SubCell.tsx *)

(** A key press: the key, and whether its target is a button or an input
    element. *)
Record KeyboardEvent : Type := mkKey {
  key : string;
  onControl : bool
}.

(** The [keydown] handler of the grid, on the state it was rendered with. *)
Definition keydownHandler (e : KeyboardEvent) (st : AppState) : AppState :=
  if onControl e then st
  else
    let activeCell := activeCellIndex (focus st) in
    let focusedSub := focusedSubIndex (focus st) in
    if String.eqb (key e) "ArrowRight" then setActiveCell (Num.add activeCell (Int 1)) st
    else if String.eqb (key e) "ArrowLeft" then setActiveCell (Num.sub activeCell (Int 1)) st
    else if String.eqb (key e) "ArrowDown"
    then setActiveCell (Num.add activeCell (Int MAIN_COLS)) st
    else if String.eqb (key e) "ArrowUp"
    then setActiveCell (Num.sub activeCell (Int MAIN_COLS)) st
    else if (String.eqb (key e) "Enter" || String.eqb (key e) " ")%bool then
      match focusedSub with
      | Some subIndex => toggleSub activeCell subIndex None st
      | None => st
      end
    else st.

(** The handlers the grid gives to its cell [i]. *)
Definition onCellClick (i : nat) (st : AppState) : AppState :=
  setActiveCell (Int (Z.of_nat i)) st.

Definition onSubClick (i : nat) (subIndex : number) (st : AppState) : AppState :=
  setFocusedSub (Some subIndex) (setActiveCell (Int (Z.of_nat i)) st).

Definition onSubFocus (subIndex : number) (st : AppState) : AppState :=
  setFocusedSub (Some subIndex) st.

Definition onSubToggle (i : nat) (subIndex : number) (st : AppState) : AppState :=
  toggleSub (Int (Z.of_nat i)) subIndex None st.

(** The handlers a cell gives to its sub-cell [sub]: [onClick] and
    [onToggle]. *)
Definition subCellOnClick (cell sub : nat) (st : AppState) : AppState :=
  onSubFocus (Int (Z.of_nat sub)) (onSubClick cell (Int (Z.of_nat sub)) st).

Definition subCellOnToggle (cell sub : nat) (st : AppState) : AppState :=
  onSubToggle cell (Int (Z.of_nat sub)) st.

(** The button of a sub-cell: a click runs [onClick] then [onToggle] (and
    does not reach the cell around it); taking the focus runs [onClick]. *)
Definition buttonClick (cell sub : nat) (st : AppState) : AppState :=
  subCellOnToggle cell sub (subCellOnClick cell sub st).

Definition buttonFocus (cell sub : nat) (st : AppState) : AppState :=
  subCellOnClick cell sub st.

(** ** useVoiceCommands.ts *)

(** One entry of the recognition results: the transcript of its first
    alternative, when there is one, and whether the entry is final. *)
Record SpeechResult : Type := mkSpeech {
  alternative : option string;
  isFinal : bool
}.

Record VoiceState : Type := mkVoice {
  isListening : bool;
  transcript : string;
  lastRecognized : string;
  error : option string
}.

(** The loop of [onresult]: the final and the interim text of the entries. *)
Fixpoint collect (results : list SpeechResult) (final interim : string) : string * string :=
  match results with
  | [] => (final, interim)
  | item :: rest =>
      let text := match alternative item with Some t => t | None => EmptyString end in
      if isFinal item then collect rest (final ++ text) interim
      else collect rest final (interim ++ text)
  end.

Definition appendInterim (interim : string) (v : VoiceState) : VoiceState :=
  if String.eqb interim EmptyString then v
  else mkVoice (isListening v) (transcript v ++ interim) (lastRecognized v) (error v).

(** [recognition.onresult], on the state of the hook and of the
    application.  An error thrown by the parser leaves the handler before the
    command is handed over and before the interim text is appended. *)
Definition onresult (resultIndex : nat) (results : list SpeechResult)
    (s : VoiceState * AppState) : VoiceState * AppState :=
  let (v, app) := s in
  let (final, interim) := collect (skipn resultIndex results) EmptyString EmptyString in
  if String.eqb final EmptyString then (appendInterim interim v, app)
  else
    let v' := mkVoice (isListening v) (transcript v ++ final ++ " ") final (error v) in
    match parseVoiceCommand (VString final) with
    | Return cmd => (appendInterim interim v', handleVoiceCommand cmd final app)
    | Throw => (v', app)
    end.

(** [recognition.onerror], with the [error] code and the optional
    [message] of the event. *)
Definition onerror (code : string) (message : option string) (v : VoiceState) : VoiceState :=
  if (String.eqb code "no-speech" || String.eqb code "aborted")%bool then v
  else
    mkVoice (isListening v) (transcript v) (lastRecognized v)
            (Some (match message with Some m => m | None => code end)).

Definition onend (v : VoiceState) : VoiceState :=
  mkVoice false (transcript v) (lastRecognized v) (error v).

Definition clearTranscript (v : VoiceState) : VoiceState :=
  mkVoice (isListening v) EmptyString EmptyString None.

(** ** The second parseVoiceCommand.ts *)

(** The repository holds a second, shorter version of the parser; its
    [normalize] and [parseSubCellPosition] are those above. *)
Module Superseded.

(** [/\b(?:go\s+to\s+)?(?:cell\s+)?(\d{1,2})\b/] *)
Definition cellPattern : regex :=
  WordBoundary ;; opt (lit "go" ;; plus ws ;; lit "to" ;; plus ws) ;;
  opt (lit "cell" ;; plus ws) ;; Group 1 (times 1 2 digit) ;; WordBoundary.

Definition parseCellNumber (text : string) : option number :=
  let n := normalize text in
  let fromCell :=
    match match_ cellPattern n with
    | Some cellMatch =>
        let num := parseIntOf (group n 1 cellMatch) in
        if (Num.geb num (Int 1) && Num.leb num (Int MAIN_COUNT))%bool
        then Some (Num.sub num (Int 1))
        else None
    | None => None
    end in
  match fromCell with
  | Some idx => Some idx
  | None =>
      match match_ rowColPattern n with
      | Some rowColMatch =>
          let row := parseIntOf (group n 1 rowColMatch) in
          let col := parseIntOf (group n 2 rowColMatch) in
          if (Num.geb row (Int 1) && Num.leb row (Int 2)
              && Num.geb col (Int 1) && Num.leb col (Int 12))%bool
          then Some (Num.add (Num.mul (Num.sub row (Int 1)) (Int 12)) (Num.sub col (Int 1)))
          else None
      | None => None
      end
  end.

(** [/\bselect\s+cell\s+(?:number\s+)?(\d{1,2})\b/] *)
Definition selectCellPattern : regex :=
  WordBoundary ;; lit "select" ;; plus ws ;; lit "cell" ;; plus ws ;;
  opt (lit "number" ;; plus ws) ;; Group 1 (times 1 2 digit) ;; WordBoundary.

(** [/\bselect\s+sub\s+cells?\s+([\d\s, and]+)/] *)
Definition subCellsPattern : regex :=
  WordBoundary ;; lit "select" ;; plus ws ;; lit "sub" ;; plus ws ;;
  lit "cell" ;; opt (Char "s") ;; plus ws ;;
  Group 1 (plus (Class [Digit; Space; One ","; One " "; One "a"; One "n"; One "d"])).

(** [/\b(?:toggle|switch|flip)\b/] *)
Definition togglePattern : regex :=
  WordBoundary ;; alts (lit "toggle") [lit "switch"; lit "flip"] ;; WordBoundary.

Definition selectCellStmt (n : string) : statement :=
  match match_ selectCellPattern n with
  | Some selectCellMatch =>
      let requested := parseIntOf (group n 1 selectCellMatch) in
      if (Num.geb requested (Int 1) && Num.leb requested (Int MAIN_COUNT))%bool
      then returns (goToCell (Num.sub requested (Int 1)))
      else returns (cellNotFound requested)
  | None => None
  end.

Definition goToCellStmt (transcript : string) : statement :=
  match parseCellNumber transcript with
  | Some cellNum => returns (goToCell cellNum)
  | None => None
  end.

Definition subCellsStmt (n : string) : statement :=
  match match_ subCellsPattern n with
  | Some subCellsMatch =>
      match group n 1 subCellsMatch with
      | None => Some Throw
      | Some captured =>
          let rest := replaceGlobal commaPattern " " (replaceGlobal andPattern " " captured) in
          match matchGlobal isolatedDigitPattern rest with
          | None => None
          | Some numbers =>
              if Nat.ltb 0 (List.length numbers) then
                let indices :=
                  sort (dedupe (List.map (fun x => Num.sub (Num.parseInt x) (Int 1)) numbers)) in
                if Nat.ltb 0 (List.length indices) then returns (selectSubCells indices)
                else None
              else None
          end
      end
  | None => None
  end.

Definition toggleStmt (n : string) : statement :=
  if test togglePattern n then returns toggle else None.

Definition parseVoiceCommand (transcript : value) : completion (option VoiceCommand) :=
  if (falsy transcript || negb (typeofString transcript))%bool then Return None
  else
    match transcript with
    | VString text =>
        let n := normalize text in
        runStatements
          [ nextCellStmt n; prevCellStmt n; selectCellStmt n; goToCellStmt text;
            subCellsStmt n; selectSubStmt text n; toggleStmt n; turnOnStmt n;
            turnOffStmt n ]
    | _ => Return None
    end.

Definition interpret (utterance : string) : completion (option VoiceCommand) :=
  parseVoiceCommand (VString utterance).

(** The patterns this version adds. *)
Definition patterns : list regex :=
  [cellPattern; selectCellPattern; subCellsPattern; togglePattern].

End Superseded.


(** * Vocabulary of the properties *)

Local Open Scope Z_scope.

(** The integers [lo], [lo + 1], ..., [count] of them. *)
Definition spoken (lo : Z) (count : nat) : list Z :=
  List.map (fun k => lo + Z.of_nat k) (seq 0 count).

(** The keyword phrases of a cell number. *)
Definition cellPhrases : list string := ["cell "; "block "; "go to cell "; "go to block "].

(** [clamp(n-1, 0, 8)] *)
Definition clampSub (n : Z) : Z := Z.max 0 (Z.min 8 (n - 1)).

(** The English number words one to nine, each with the number it names. *)
Definition numberWords : list (string * Z) :=
  [ ("one", 1); ("two", 2); ("three", 3); ("four", 4); ("five", 5);
    ("six", 6); ("seven", 7); ("eight", 8); ("nine", 9) ].

(** The commands that move the active cell. *)
Definition movesActiveCell (cmd : VoiceCommand) : bool :=
  match cmd with
  | nextCell | prevCell | goToCell _ => true
  | _ => false
  end.

(** [lo <= n <= hi] for a number that is an integer. *)
Definition inRange (lo hi : Z) (n : number) : bool :=
  match n with
  | Int z => (Z.leb lo z && Z.leb z hi)%bool
  | NaN => false
  end.

Definition isInteger (n : number) : bool :=
  match n with
  | Int _ => true
  | NaN => false
  end.

(** Strictly ascending numbers. *)
Fixpoint ascending (xs : list number) : bool :=
  match xs with
  | x :: rest =>
      match rest with
      | y :: _ => (Num.ltb x y && ascending rest)%bool
      | [] => true
      end
  | [] => true
  end.

(** The payload ranges of the commands: cells are 0..23 and sub-cells 0..8;
    the number of a [cellNotFound] is an integer outside 1..24; the indices
    of a [selectSubCells] are strictly ascending, hence without duplicate,
    and there is at least one. *)
Definition wellFormed (cmd : VoiceCommand) : bool :=
  match cmd with
  | goToCell index => inRange 0 23 index
  | cellNotFound requested => (isInteger requested && negb (inRange 1 24 requested))%bool
  | selectSub index => inRange 0 8 index
  | selectSubCells indices =>
      (forallb (inRange 0 8) indices && ascending indices
       && Nat.ltb 0 (List.length indices))%bool
  | applyToSub subIndex _ => inRange 0 8 subIndex
  | nextCell | prevCell | toggle | turnOn | turnOff => true
  end.

Definition wellFormedResult (result : option VoiceCommand) : bool :=
  match result with
  | Some cmd => wellFormed cmd
  | None => true
  end.

(** A statement that either falls through or returns a well-formed command
    or [null]; it does not throw. *)
Definition statementOk (s : statement) : Prop :=
  match s with
  | None => True
  | Some (Return None) => True
  | Some (Return (Some cmd)) => wellFormed cmd = true
  | Some Throw => False
  end.

(** The characters of [\d] and of [[1-9]]. *)
Definition nonzeroDigits : list ascii :=
  ["1"; "2"; "3"; "4"; "5"; "6"; "7"; "8"; "9"]%char.

Definition decimalDigits : list ascii := "0"%char :: nonzeroDigits.

(** The texts the alternation [[1-9]|one|...|nine] can capture. *)
Definition digitTexts : list string :=
  List.map (fun c => String c EmptyString) nonzeroDigits ++ List.map fst digitMap.

(** Two continuations that agree on the states a match started at [x] can
    end in: not before [x], and not beyond the end of the input. *)
Definition agreeFrom (input : string) (x : MatchState) (c c' : Continuation) : Prop :=
  forall y, (endIndex x <= endIndex y)%nat ->
            (endIndex y <= Nat.max (endIndex x) (length input))%nat ->
            c y = c' y.

(** A matcher that consults its continuation on such end states only. *)
Definition local (input : string) (m : Matcher) : Prop :=
  forall x c c', agreeFrom input x c c' -> m x c = m x c'.

(** The fuel that the search for the successive matches needs from
    [lastIndex] on. *)
Definition execAllFuel (input : string) (lastIndex : nat) : nat :=
  S (S (length input) - lastIndex).

(** A pattern without capture group, and a pattern whose quantifiers
    enclose no capture group. *)
Fixpoint groupFree (r : regex) : bool :=
  match r with
  | Group _ _ => false
  | Seq r1 r2 | Alt r1 r2 => (groupFree r1 && groupFree r2)%bool
  | Rep _ _ r' => groupFree r'
  | _ => true
  end.

Fixpoint flatGroups (r : regex) : bool :=
  match r with
  | Seq r1 r2 | Alt r1 r2 => (flatGroups r1 && flatGroups r2)%bool
  | Rep _ _ r' => groupFree r'
  | Group _ r' => flatGroups r'
  | _ => true
  end.

(** Every pattern of the program. *)
Definition patterns : list regex :=
  [ spacesPattern; numPattern; cellPattern; rowColPattern; nextCellPattern;
    prevCellPattern; selectCellPattern; toggleSubCellPattern; andPattern; commaPattern;
    isolatedDigitPattern; subCellsPattern; boxNumPattern; offWordPattern; onWordPattern;
    toggleAllPattern; turnOnPattern; turnOffPattern ].

(** A string of white space only. *)
Fixpoint allSpace (s : string) : bool :=
  match s with
  | EmptyString => true
  | String c s' => (Chars.isSpace c && allSpace s')%bool
  end.

(** The value of sub-cell [j] of cell [i], when the grid has one. *)
Definition entry (g : GridState) (i j : nat) : option bool :=
  match nth_error g i with
  | Some row => nth_error row j
  | None => None
  end.

(** A grid of 24 cells of 9 sub-cells. *)
Definition shaped (g : GridState) : bool :=
  (Nat.eqb (List.length g) 24
   && forallb (fun row : list SubCellState => Nat.eqb (List.length row) 9) g)%bool.

(** A focus inside the grid: the active cell is one of 0..23, the focused
    sub-cell, if any, and the selected sub-cells are among 0..8. *)
Definition goodFocus (f : GridFocus) : bool :=
  (inRange 0 23 (activeCellIndex f)
   && match focusedSubIndex f with
      | Some i => inRange 0 8 i
      | None => true
      end
   && forallb (inRange 0 8) (selectedSubIndices f))%bool.

Definition goodState (st : AppState) : bool :=
  (shaped (grid st) && goodFocus (focus st))%bool.

(** What a user can do to the application: say an utterance, press a key,
    click a cell, click or focus the button of a sub-cell. *)
Inductive Event : Type :=
| Said (final : string)
| Pressed (e : KeyboardEvent)
| CellClicked (cell : nat)
| ButtonClicked (cell sub : nat)
| ButtonFocused (cell sub : nat).

Definition react (st : AppState) (ev : Event) : AppState :=
  match ev with
  | Said final => onFinal final st
  | Pressed e => keydownHandler e st
  | CellClicked cell => onCellClick cell st
  | ButtonClicked cell sub => buttonClick cell sub st
  | ButtonFocused cell sub => buttonFocus cell sub st
  end.

(** The row and the grid that [toggleSub] builds. *)
Definition toggledRow (subIndex : number) (value : option bool) (row : list SubCellState)
    : list SubCellState :=
  mapIndexed (fun v j => if Num.isIndex j subIndex then orNegate value v else v) 0 row.

Definition toggledGrid (cellIndex subIndex : number) (value : option bool) (g : GridState)
    : GridState :=
  mapIndexed (fun row i => if Num.isIndex i cellIndex then toggledRow subIndex value row else row)
             0 g.

(** The commands that write to the grid, and those that write to the
    focus. *)
Definition writesGrid (cmd : VoiceCommand) : bool :=
  match cmd with
  | toggle | turnOn | turnOff => true
  | _ => false
  end.

Definition writesFocus (cmd : VoiceCommand) : bool :=
  match cmd with
  | nextCell | prevCell | goToCell _ | selectSub _ | selectSubCells _ => true
  | _ => false
  end.

(** The new value of a sub-cell under an action. *)
Definition acted (type : SubAction) (v : bool) : bool := orNegate (nextValue type) v.

(** The words of the box rule with their actions, and the two ways to name
    the box. *)
Definition boxWords : list (string * SubAction) :=
  [ ("check", actTurnOn); ("mark", actTurnOn); ("uncheck", actTurnOff);
    ("clear", actTurnOff); ("toggle", actToggle) ].

Definition boxPhrases : list string := [" box "; " box number "].

(** The ways to say a row and a column. *)
Definition columnWords : list string := [" column "; " col "].

(** Equality of parse results, as a test. *)
Definition actionEqb (a b : SubAction) : bool :=
  match a, b with
  | actToggle, actToggle | actTurnOn, actTurnOn | actTurnOff, actTurnOff => true
  | _, _ => false
  end.

Fixpoint numbersEqb (xs ys : list number) : bool :=
  match xs, ys with
  | [], [] => true
  | x :: xs', y :: ys' => (Num.sameValueZero x y && numbersEqb xs' ys')%bool
  | _, _ => false
  end.

Definition commandEqb (a b : VoiceCommand) : bool :=
  match a, b with
  | nextCell, nextCell | prevCell, prevCell | toggle, toggle
  | turnOn, turnOn | turnOff, turnOff => true
  | goToCell x, goToCell y | cellNotFound x, cellNotFound y
  | selectSub x, selectSub y => Num.sameValueZero x y
  | selectSubCells xs, selectSubCells ys => numbersEqb xs ys
  | applyToSub x k, applyToSub y l => (Num.sameValueZero x y && actionEqb k l)%bool
  | _, _ => false
  end.

Definition resultEqb (a b : completion (option VoiceCommand)) : bool :=
  match a, b with
  | Return (Some x), Return (Some y) => commandEqb x y
  | Return None, Return None => true
  | Throw, Throw => true
  | _, _ => false
  end.

(** A statement that returns only commands that pass the test [P]. *)
Definition statementReturns (P : VoiceCommand -> bool) (s : statement) : Prop :=
  match s with
  | Some (Return (Some cmd)) => P cmd = true
  | _ => True
  end.

(** The type tag of a command is one the union declares. *)
Definition declared (cmd : VoiceCommand) : bool :=
  existsb (String.eqb (typeOf cmd)) declaredTypes.

(** The cell a row and a column name, when there is one. *)
Definition rowColumnCell (r c : Z) : option VoiceCommand :=
  if ((1 <=? r) && (r <=? 2) && (1 <=? c) && (c <=? 12))%bool
  then Some (goToCell (Int ((r - 1) * 12 + (c - 1))))
  else None.

(** A text in which every maximal run of white space is replaced by one
    space; [inRun] tells that the character before was white space. *)
Fixpoint collapse (s : string) (inRun : bool) : string :=
  match s with
  | EmptyString => EmptyString
  | String c s' =>
      if Chars.isSpace c
      then if inRun then collapse s' true else String " " (collapse s' true)
      else String c (collapse s' false)
  end.

(** A text whose only white space is single spaces; [afterSpace] tells that
    the character before was a space. *)
Fixpoint singleSpaced (s : string) (afterSpace : bool) : bool :=
  match s with
  | EmptyString => true
  | String c s' =>
      if Chars.isSpace c
      then (Ascii.eqb c " " && negb afterSpace && singleSpaced s' true)%bool
      else singleSpaced s' false
  end.

(** White space at an index of a text. *)
Definition isSpaceAt (input : string) (j : nat) : bool :=
  match charAt input j with
  | Some c => Chars.isSpace c
  | None => false
  end.

(** * Properties *)

(** ** The matcher *)

Section MatcherFacts.

Variable input : string.

Lemma RepeatMatcher_sound (m : Matcher) (r : regex) :
  (forall x c z, m x c = Some z -> exists y, Matches input r x y /\ c y = Some z) ->
  forall fuel min max x c z,
    RepeatMatcher fuel m min max x c = Some z ->
    exists y, Matches input (Rep min max r) x y /\ c y = Some z.
Proof.
  intros Hm fuel.
  induction fuel as [|fuel IH]; intros min max x c z H.
  - destruct max as [[|k]|]; simpl in H; try discriminate H.
    exists x. split; [apply MRepNone | exact H].
  - assert (Hiter : forall d0,
              d0 = (fun y : MatchState =>
                      if (Nat.eqb min 0 && Nat.eqb (endIndex y) (endIndex x))%bool then None
                      else RepeatMatcher fuel m (Nat.pred min) (option_map Nat.pred max) y c) ->
              max <> Some 0%nat ->
              m x d0 = Some z ->
              exists y, Matches input (Rep min max r) x y /\ c y = Some z).
    { intros d0 -> Hmax Hrun.
      destruct (Hm _ _ _ Hrun) as (y & Hy & Hd).
      destruct (Nat.eqb min 0 && Nat.eqb (endIndex y) (endIndex x))%bool eqn:Hstuck;
        [discriminate Hd|].
      destruct (IH _ _ _ _ _ Hd) as (y' & Hy' & Hc).
      exists y'. split; [|exact Hc].
      eapply MRepIter; eauto.
      intros ->. simpl in Hstuck. apply Nat.eqb_neq. exact Hstuck. }
    destruct max as [[|k]|].
    + simpl in H. exists x. split; [apply MRepNone | exact H].
    + simpl in H. destruct (Nat.eqb min 0) eqn:Hmin.
      * unfold orElse in H.
        match type of H with match ?run with _ => _ end = _ => destruct run eqn:Hrun end.
        -- inversion H; subst. eapply Hiter; [reflexivity|discriminate|].
           exact Hrun.
        -- apply Nat.eqb_eq in Hmin. subst min.
           exists x. split; [apply MRepSkip | exact H].
      * eapply Hiter; [reflexivity|discriminate|]. exact H.
    + simpl in H. destruct (Nat.eqb min 0) eqn:Hmin.
      * unfold orElse in H.
        match type of H with match ?run with _ => _ end = _ => destruct run eqn:Hrun end.
        -- inversion H; subst. eapply Hiter; [reflexivity|discriminate|].
           exact Hrun.
        -- apply Nat.eqb_eq in Hmin. subst min.
           exists x. split; [apply MRepSkip | exact H].
      * eapply Hiter; [reflexivity|discriminate|]. exact H.
Qed.

(** Whenever the matcher succeeds, the continuation was run on an end state
    the pattern can reach. *)
Lemma compile_sound (r : regex) :
  forall x c z,
    compile input r x c = Some z ->
    exists y, Matches input r x y /\ c y = Some z.
Proof.
  induction r as [| ch | items | r1 IH1 r2 IH2 | r1 IH1 r2 IH2 | min max r IH | i r IH | | |];
    intros x c z H; simpl in H.
  - exists x. split; [constructor | exact H].
  - destruct (charAt input (endIndex x)) as [ch'|] eqn:Hch; [|discriminate H].
    destruct (Ascii.eqb ch' ch) eqn:Heq; [|discriminate H].
    apply Ascii.eqb_eq in Heq. subst ch'.
    exists (advance x). split; [constructor; exact Hch | exact H].
  - destruct (charAt input (endIndex x)) as [ch'|] eqn:Hch; [|discriminate H].
    destruct (existsb (fun i => itemHas i ch') items) eqn:Hin; [|discriminate H].
    exists (advance x). split; [econstructor; eassumption | exact H].
  - destruct (IH1 _ _ _ H) as (y & Hy & H2).
    destruct (IH2 _ _ _ H2) as (y' & Hy' & Hc).
    exists y'. split; [econstructor; eassumption | exact Hc].
  - unfold orElse in H.
    destruct (compile input r1 x c) eqn:H1.
    + inversion H; subst. destruct (IH1 _ _ _ H1) as (y & Hy & Hc).
      exists y. split; [apply MAltL; exact Hy | exact Hc].
    + destruct (IH2 _ _ _ H) as (y & Hy & Hc).
      exists y. split; [apply MAltR; exact Hy | exact Hc].
  - exact (RepeatMatcher_sound (compile input r) IH (repeatFuel input min x) min max x c H).
  - destruct (IH _ _ _ H) as (y & Hy & Hc).
    exists (record i x y). split; [constructor; exact Hy | exact Hc].
  - destruct (atBoundary input (endIndex x)) eqn:Hb; [|discriminate H].
    exists x. split; [constructor; exact Hb | exact H].
  - destruct (Nat.eqb (endIndex x) 0) eqn:Hb; [|discriminate H].
    exists x. split; [constructor; apply Nat.eqb_eq; exact Hb | exact H].
  - destruct (Nat.eqb (endIndex x) (length input)) eqn:Hb; [|discriminate H].
    exists x. split; [constructor; apply Nat.eqb_eq; exact Hb | exact H].
Qed.

Lemma matchAt_sound (r : regex) (i : nat) (m : MatchResult) :
  matchAt input r i = Some m ->
  index m = i /\ Matches input r (mkState i []) (final m).
Proof.
  unfold matchAt. intros H.
  destruct (compile input r (mkState i []) (fun y => Some y)) as [y|] eqn:Hrun;
    [|discriminate H].
  inversion H; subst; clear H. simpl.
  destruct (compile_sound _ _ _ Hrun) as (y' & Hy' & Hc).
  inversion Hc; subst. split; [reflexivity | exact Hy'].
Qed.

Lemma firstMatch_sound (r : regex) (candidates : list nat) (m : MatchResult) :
  firstMatch input r candidates = Some m ->
  Matches input r (mkState (index m) []) (final m).
Proof.
  induction candidates as [|i rest IH]; simpl; intros H; [discriminate H|].
  destruct (matchAt input r i) as [m'|] eqn:Hat.
  - inversion H; subst. destruct (matchAt_sound _ _ Hat) as [<- Hm]. exact Hm.
  - apply IH. exact H.
Qed.

Lemma execAllFrom_sound (r : regex) (fuel : nat) :
  forall lastIndex m,
    In m (execAllFrom input fuel r lastIndex) ->
    Matches input r (mkState (index m) []) (final m).
Proof.
  induction fuel as [|fuel IH]; simpl; intros lastIndex m Hin; [contradiction|].
  destruct (execFrom input r lastIndex) as [m'|] eqn:Hexec; [|contradiction].
  destruct Hin as [<- | Hin].
  - eapply firstMatch_sound. exact Hexec.
  - eapply IH. exact Hin.
Qed.

End MatcherFacts.

Lemma match_sound (r : regex) (s : string) (m : MatchResult) :
  match_ r s = Some m -> Matches s r (mkState (index m) []) (final m).
Proof. apply firstMatch_sound. Qed.

Lemma matchGlobal_sound (r : regex) (s : string) (texts : list string) :
  matchGlobal r s = Some texts ->
  Forall (fun text => exists m, Matches s r (mkState (index m) []) (final m)
                                /\ text = matched s m) texts.
Proof.
  unfold matchGlobal. intros H.
  assert (Hall : Forall (fun m => Matches s r (mkState (index m) []) (final m))
                        (execAll s r)).
  { apply Forall_forall. intros m Hin. eapply execAllFrom_sound. exact Hin. }
  assert (Htexts : texts = List.map (matched s) (execAll s r)).
  { destruct (execAll s r) as [|m0 ms]; [discriminate H|]. inversion H; reflexivity. }
  subst texts.
  apply Forall_forall. intros text Hin.
  apply in_map_iff in Hin. destruct Hin as (m & <- & Hin).
  exists m. split; [|reflexivity].
  rewrite Forall_forall in Hall. apply Hall. exact Hin.
Qed.

(** ** The fuel of the matcher is never exhausted *)

Lemma patterns_flat : forallb flatGroups patterns = true.
Proof. reflexivity. Qed.

Lemma get_some_lt (s : string) :
  forall i c, get i s = Some c -> (i < length s)%nat.
Proof.
  induction s as [|c' s IH]; intros i c H.
  - destruct i; discriminate H.
  - destruct i as [|i]; simpl in *; [lia|].
    apply IH in H. lia.
Qed.

Section Fuel.

Variable input : string.

Lemma agreeFrom_later (x y : MatchState) (c c' : Continuation) :
  agreeFrom input x c c' ->
  (endIndex x <= endIndex y)%nat ->
  (endIndex y <= Nat.max (endIndex x) (length input))%nat ->
  agreeFrom input y c c'.
Proof.
  intros H Hlo Hhi z Hz1 Hz2. apply H; lia.
Qed.

Lemma agreeFrom_self (x : MatchState) (c c' : Continuation) :
  agreeFrom input x c c' -> c x = c' x.
Proof. intros H. apply H; lia. Qed.

Lemma agreeFrom_advance (x : MatchState) (c c' : Continuation) (ch : ascii) :
  agreeFrom input x c c' ->
  charAt input (endIndex x) = Some ch ->
  c (advance x) = c' (advance x).
Proof.
  intros H Hch. apply get_some_lt in Hch. apply H; simpl; lia.
Qed.

Lemma RepeatMatcher_local (m : Matcher) :
  local input m ->
  forall fuel min max, local input (fun x c => RepeatMatcher fuel m min max x c).
Proof.
  intros Hm fuel.
  induction fuel as [|fuel IH]; intros min max x c c' Hc.
  - simpl. destruct max as [[|k]|]; try reflexivity. apply agreeFrom_self. exact Hc.
  - assert (Hd : agreeFrom input x
                   (fun y => if (Nat.eqb min 0 && Nat.eqb (endIndex y) (endIndex x))%bool
                             then None
                             else RepeatMatcher fuel m (Nat.pred min)
                                                (option_map Nat.pred max) y c)
                   (fun y => if (Nat.eqb min 0 && Nat.eqb (endIndex y) (endIndex x))%bool
                             then None
                             else RepeatMatcher fuel m (Nat.pred min)
                                                (option_map Nat.pred max) y c')).
    { intros y Hlo Hhi.
      destruct (Nat.eqb min 0 && Nat.eqb (endIndex y) (endIndex x))%bool; [reflexivity|].
      apply IH. eapply agreeFrom_later; eassumption. }
    pose proof (Hm _ _ _ Hd) as Hrun.
    pose proof (agreeFrom_self Hc) as Hx.
    destruct max as [[|k]|]; simpl in *.
    + exact Hx.
    + rewrite Hrun, Hx. reflexivity.
    + rewrite Hrun, Hx. reflexivity.
Qed.

Lemma compile_local (r : regex) : local input (compile input r).
Proof.
  induction r as [| ch | items | r1 IH1 r2 IH2 | r1 IH1 r2 IH2 | min max r IH | i r IH | | |];
    intros x c c' Hc; simpl.
  - apply agreeFrom_self. exact Hc.
  - destruct (charAt input (endIndex x)) as [ch'|] eqn:Hch; [|reflexivity].
    destruct (Ascii.eqb ch' ch); [|reflexivity].
    eapply agreeFrom_advance; eassumption.
  - destruct (charAt input (endIndex x)) as [ch'|] eqn:Hch; [|reflexivity].
    destruct (existsb (fun i => itemHas i ch') items); [|reflexivity].
    eapply agreeFrom_advance; eassumption.
  - apply IH1. intros y Hlo Hhi. apply IH2. eapply agreeFrom_later; eassumption.
  - rewrite (IH1 _ _ _ Hc), (IH2 _ _ _ Hc). reflexivity.
  - exact (RepeatMatcher_local IH (repeatFuel input min x) min max Hc).
  - apply IH. intros y Hlo Hhi. apply Hc; simpl; assumption.
  - rewrite (agreeFrom_self Hc). reflexivity.
  - rewrite (agreeFrom_self Hc). reflexivity.
  - rewrite (agreeFrom_self Hc). reflexivity.
Qed.

Lemma RepeatMatcher_enough (m : Matcher) :
  local input m ->
  forall fuel fuel' min max x c,
    (repeatFuel input min x <= fuel)%nat ->
    (repeatFuel input min x <= fuel')%nat ->
    RepeatMatcher fuel m min max x c = RepeatMatcher fuel' m min max x c.
Proof.
  intros Hm fuel.
  induction fuel as [|fuel IH]; intros fuel' min max x c H H';
    [unfold repeatFuel in H; lia|].
  destruct fuel' as [|fuel']; [unfold repeatFuel in H'; lia|].
  assert (Hd : agreeFrom input x
                 (fun y => if (Nat.eqb min 0 && Nat.eqb (endIndex y) (endIndex x))%bool
                           then None
                           else RepeatMatcher fuel m (Nat.pred min)
                                              (option_map Nat.pred max) y c)
                 (fun y => if (Nat.eqb min 0 && Nat.eqb (endIndex y) (endIndex x))%bool
                           then None
                           else RepeatMatcher fuel' m (Nat.pred min)
                                              (option_map Nat.pred max) y c)).
  { intros y Hlo Hhi.
    destruct (Nat.eqb min 0 && Nat.eqb (endIndex y) (endIndex x))%bool eqn:Hstuck;
      [reflexivity|].
    assert (Hneed : (repeatFuel input (Nat.pred min) y <= min + (length input - endIndex x))%nat).
    { unfold repeatFuel. destruct min as [|min']; simpl in *.
      - apply Nat.eqb_neq in Hstuck. lia.
      - lia. }
    apply IH; unfold repeatFuel in H, H'; lia. }
  pose proof (Hm _ _ _ Hd) as Hrun.
  destruct max as [[|k]|]; simpl in *.
  - reflexivity.
  - rewrite Hrun. reflexivity.
  - rewrite Hrun. reflexivity.
Qed.

(** More fuel than [repeatFuel] never changes what a quantifier matches. *)
Lemma repeat_fuel_suffices (r : regex) (min : nat) (max : option nat)
    (x : MatchState) (c : Continuation) (extra : nat) :
  RepeatMatcher (repeatFuel input min x + extra) (compile input r) min max x c
  = compile input (Rep min max r) x c.
Proof.
  change (compile input (Rep min max r) x c)
    with (RepeatMatcher (repeatFuel input min x) (compile input r) min max x c).
  apply RepeatMatcher_enough; [apply compile_local | lia | lia].
Qed.

Lemma Matches_monotone (r : regex) (x y : MatchState) :
  Matches input r x y ->
  (endIndex x <= endIndex y)%nat
  /\ (endIndex y <= Nat.max (endIndex x) (length input))%nat.
Proof.
  induction 1; simpl;
    repeat match goal with
           | H : charAt _ _ = Some _ |- _ => apply get_some_lt in H
           end; lia.
Qed.

End Fuel.

(** ** Inversion of the patterns' shapes *)

Section Shapes.

Variable input : string.

Lemma Matches_seq_inv r1 r2 x z :
  Matches input (Seq r1 r2) x z ->
  exists y, Matches input r1 x y /\ Matches input r2 y z.
Proof. intros H. inversion H; subst. eauto. Qed.

Lemma Matches_seq_tail r1 r2 x z :
  Matches input (Seq r1 r2) x z -> exists y, Matches input r2 y z.
Proof. intros H. inversion H; subst. eauto. Qed.

Lemma Matches_alt_inv r1 r2 x y :
  Matches input (Alt r1 r2) x y -> Matches input r1 x y \/ Matches input r2 x y.
Proof. intros H. inversion H; subst; auto. Qed.

Lemma Matches_group_inv i r x z :
  Matches input (Group i r) x z ->
  exists y, Matches input r x y /\ z = record i x y.
Proof. intros H. inversion H; subst. eauto. Qed.

Lemma Matches_boundary_inv x z :
  Matches input WordBoundary x z -> z = x.
Proof. intros H. inversion H; subst. reflexivity. Qed.

Lemma Matches_char_inv ch x z :
  Matches input (Char ch) x z ->
  charAt input (endIndex x) = Some ch /\ z = advance x.
Proof. intros H. inversion H; subst. auto. Qed.

Lemma Matches_class_inv items x z :
  Matches input (Class items) x z ->
  exists ch, charAt input (endIndex x) = Some ch
             /\ existsb (fun i => itemHas i ch) items = true
             /\ z = advance x.
Proof. intros H. inversion H; subst. eauto. Qed.

Lemma Matches_rep_inv min max r x z :
  Matches input (Rep min max r) x z ->
  (max = Some 0%nat /\ z = x)
  \/ (min = 0%nat /\ z = x)
  \/ (max <> Some 0%nat
      /\ exists y, Matches input r x y
                   /\ Matches input (Rep (Nat.pred min) (option_map Nat.pred max) r) y z).
Proof. intros H. inversion H; subst; eauto 6. Qed.

(** The text of a group that closes a pattern, before a final [\b] or at the
    very end. *)
Lemma group_then_boundary i body a z start :
  Matches input (Seq (Group i body) WordBoundary) a z ->
  exists b, Matches input body a b
            /\ group input i (mkResult start z)
               = Some (Str.slice (endIndex a) (endIndex b) input).
Proof.
  intros H. apply Matches_seq_inv in H. destruct H as (y & Hg & Hb).
  apply Matches_boundary_inv in Hb. subst z.
  apply Matches_group_inv in Hg. destruct Hg as (b & Hbody & ->).
  exists b. split; [exact Hbody|].
  unfold group. simpl. rewrite Nat.eqb_refl. reflexivity.
Qed.

Lemma group_at_end i body a z start :
  Matches input (Group i body) a z ->
  exists text, group input i (mkResult start z) = Some text.
Proof.
  intros H. apply Matches_group_inv in H. destruct H as (b & _ & ->).
  unfold group. simpl. rewrite Nat.eqb_refl. eauto.
Qed.

End Shapes.

(** Drops the leading parts of a sequence down to its closing group. *)
Ltac to_closing_group H :=
  repeat lazymatch type of H with
         | Matches _ (Seq (Group _ _) _) _ _ => fail
         | Matches _ (Seq _ _) _ _ =>
             apply Matches_seq_tail in H; destruct H as [? H]
         end.

(** ** Strings and numerals *)

Lemma substring_none (s : string) : forall i, substring i 0 s = EmptyString.
Proof.
  induction s as [|c s IH]; intros [|i]; simpl; auto.
Qed.

Lemma substring_step (s : string) :
  forall i n c, get i s = Some c ->
                substring i (S n) s = String c (substring (S i) n s).
Proof.
  induction s as [|c' s IH]; intros i n c H.
  - destruct i; discriminate H.
  - destruct i as [|i]; simpl in H.
    + inversion H; subst. simpl. destruct s; destruct n; reflexivity.
    + simpl. rewrite (IH _ _ _ H). reflexivity.
Qed.

Lemma slice_one (s : string) (i : nat) (c : ascii) :
  get i s = Some c -> Str.slice i (S i) s = String c EmptyString.
Proof.
  intros H. unfold Str.slice.
  replace (S i - i)%nat with 1%nat by lia.
  rewrite (substring_step _ _ 0 H), substring_none. reflexivity.
Qed.

Lemma slice_two (s : string) (i : nat) (c1 c2 : ascii) :
  get i s = Some c1 -> get (S i) s = Some c2 ->
  Str.slice i (S (S i)) s = String c1 (String c2 EmptyString).
Proof.
  intros H1 H2. unfold Str.slice.
  replace (S (S i) - i)%nat with 2%nat by lia.
  rewrite (substring_step _ _ 1 H1), (substring_step _ _ 0 H2), substring_none.
  reflexivity.
Qed.

Ltac each_ascii c H :=
  destruct c as [[] [] [] [] [] [] [] []];
  try (vm_compute in H; discriminate H).

Lemma digit_cases (c : ascii) :
  existsb (fun i => itemHas i c) [Digit] = true -> In c decimalDigits.
Proof.
  intros H. each_ascii c H; vm_compute; tauto.
Qed.

Lemma oneToNine_cases (c : ascii) :
  existsb (fun i => itemHas i c) [Range "1" "9"] = true -> In c nonzeroDigits.
Proof.
  intros H. each_ascii c H; vm_compute; tauto.
Qed.

Lemma parseInt_oneToNine (c : ascii) :
  In c nonzeroDigits ->
  inRange 1 9 (Num.parseInt (String c EmptyString)) = true.
Proof.
  revert c. apply Forall_forall. unfold nonzeroDigits.
  repeat (apply Forall_cons; [vm_compute; reflexivity|]). apply Forall_nil.
Qed.

Lemma parseInt_one_digit (c : ascii) :
  In c decimalDigits ->
  inRange 0 99 (Num.parseInt (String c EmptyString)) = true.
Proof.
  revert c. apply Forall_forall. unfold decimalDigits, nonzeroDigits.
  repeat (apply Forall_cons; [vm_compute; reflexivity|]). apply Forall_nil.
Qed.

Lemma parseInt_two_digits (c1 c2 : ascii) :
  In c1 decimalDigits -> In c2 decimalDigits ->
  inRange 0 99 (Num.parseInt (String c1 (String c2 EmptyString))) = true.
Proof.
  intros H1. revert c2. apply Forall_forall.
  revert c1 H1. apply Forall_forall. unfold decimalDigits, nonzeroDigits.
  repeat (apply Forall_cons;
          [repeat (apply Forall_cons; [vm_compute; reflexivity|]); apply Forall_nil|]).
  apply Forall_nil.
Qed.

Section Captures.

Variable input : string.

(** The text of [([1-9])]. *)
Lemma oneToNine_text (a b : MatchState) :
  Matches input oneToNine a b ->
  exists c, In c nonzeroDigits
            /\ endIndex b = S (endIndex a)
            /\ Str.slice (endIndex a) (endIndex b) input = String c EmptyString.
Proof.
  intros H. apply Matches_class_inv in H. destruct H as (c & Hc & Hin & ->).
  exists c. split; [apply oneToNine_cases; exact Hin|].
  split; [reflexivity|]. apply slice_one. exact Hc.
Qed.

(** The text of [(\d{1,2})] is a numeral between 0 and 99. *)
Lemma one_or_two_digits_text (a b : MatchState) :
  Matches input (times 1 2 digit) a b ->
  inRange 0 99 (Num.parseInt (Str.slice (endIndex a) (endIndex b) input)) = true.
Proof.
  intros H. unfold times, digit in H.
  apply Matches_rep_inv in H.
  destruct H as [[H _] | [[H _] | (_ & y & H1 & H)]]; try discriminate H.
  apply Matches_class_inv in H1. destruct H1 as (c1 & Hc1 & Hd1 & ->).
  apply digit_cases in Hd1.
  simpl in H. apply Matches_rep_inv in H.
  destruct H as [[H _] | [[_ ->] | (_ & y & H2 & H)]]; try discriminate H.
  - simpl. rewrite (slice_one _ _ Hc1). apply parseInt_one_digit. exact Hd1.
  - apply Matches_class_inv in H2. destruct H2 as (c2 & Hc2 & Hd2 & ->).
    apply digit_cases in Hd2.
    simpl in H. apply Matches_rep_inv in H.
    assert (Hb : b = advance (advance a)).
    { destruct H as [[_ ->] | [[_ ->] | (Hmax & _)]]; try reflexivity.
      exfalso. apply Hmax. reflexivity. }
    subst b. simpl in *. rewrite (slice_two _ _ Hc1 Hc2).
    apply parseInt_two_digits; assumption.
Qed.

End Captures.

Section LiteralText.

Variable input : string.

(** A literal matches exactly its own text. *)
Lemma Matches_lit (s : string) :
  forall a b,
    Matches input (lit s) a b ->
    endIndex b = (endIndex a + length s)%nat
    /\ substring (endIndex a) (length s) input = s.
Proof.
  induction s as [|c s IH]; intros a b H.
  - simpl in H. inversion H; subst. simpl.
    split; [lia | apply substring_none].
  - destruct s as [|c' s'].
    + simpl in H. apply Matches_char_inv in H. destruct H as [Hc ->].
      simpl. split; [lia|].
      rewrite (substring_step _ _ 0 Hc), substring_none. reflexivity.
    + change (lit (String c (String c' s'))) with (Seq (Char c) (lit (String c' s'))) in H.
      apply Matches_seq_inv in H. destruct H as (y & Hc & Hrest).
      apply Matches_char_inv in Hc. destruct Hc as [Hc ->].
      destruct (IH _ _ Hrest) as [Hend Htext].
      simpl in Hend. split; [simpl; lia|].
      change (length (String c (String c' s'))) with (S (length (String c' s'))).
      rewrite (substring_step _ _ _ Hc).
      change (endIndex (advance a)) with (S (endIndex a)) in Htext.
      rewrite Htext. reflexivity.
Qed.

Lemma Matches_lit_slice (s : string) (a b : MatchState) :
  Matches input (lit s) a b ->
  Str.slice (endIndex a) (endIndex b) input = s.
Proof.
  intros H. destruct (Matches_lit _ H) as [Hend Htext].
  unfold Str.slice. rewrite Hend.
  replace (endIndex a + length s - endIndex a)%nat with (length s) by lia.
  exact Htext.
Qed.

(** The text of [([1-9]|one|...|nine)]. *)
Lemma digitOrWord_text (a b : MatchState) :
  Matches input digitOrWord a b ->
  In (Str.slice (endIndex a) (endIndex b) input) digitTexts.
Proof.
  intros H. unfold digitOrWord in H. cbn [alts] in H.
  repeat (apply Matches_alt_inv in H; destruct H as [H | H]);
    try (apply Matches_lit_slice in H; rewrite H; vm_compute; tauto).
  apply oneToNine_text in H. destruct H as (c & Hc & _ & ->).
  unfold digitTexts. apply in_or_app. left.
  apply (in_map (fun d => String d EmptyString)). exact Hc.
Qed.

End LiteralText.

(** ** Finite ranges of spoken numbers *)

Lemma spoken_all (P : Z -> Prop) (lo : Z) (count : nat) :
  Forall P (spoken lo count) ->
  forall n, lo <= n < lo + Z.of_nat count -> P n.
Proof.
  intros Hall n Hn.
  rewrite Forall_forall in Hall. apply Hall.
  unfold spoken. apply in_map_iff.
  exists (Z.to_nat (n - lo)). split; [lia|].
  apply in_seq. lia.
Qed.

Ltac each_spoken :=
  cbv [spoken List.map seq];
  repeat (apply Forall_cons; [vm_compute; reflexivity|]);
  apply Forall_nil.

(** ** Rule 3: [select cell <number>] *)

Lemma select_cell_goes_to_cell (n : Z) :
  1 <= n <= 24 ->
  interpret ("select cell " ++ Num.toString n) = Return (Some (goToCell (Int (n - 1)))).
Proof.
  intros Hn. revert n Hn.
  assert (H : forall n, 1 <= n < 1 + Z.of_nat 24 ->
            interpret ("select cell " ++ Num.toString n)
            = Return (Some (goToCell (Int (n - 1))))).
  { apply spoken_all. each_spoken. }
  intros n Hn. apply H. lia.
Qed.

(** C1. For every n in 1..24 the utterance "select cell n" is interpreted as
    GoToCell(n-1), and so never as a SelectSub action; "select cell 5" is
    GoToCell(4). *)
Theorem select_cell_in_range (n : Z) :
  1 <= n <= 24 ->
  interpret ("select cell " ++ Num.toString n) = Return (Some (goToCell (Int (n - 1))))
  /\ (forall index, interpret ("select cell " ++ Num.toString n)
                    <> Return (Some (selectSub index)))
  /\ interpret "select cell 5" = Return (Some (goToCell (Int 4))).
Proof.
  intros Hn. pose proof (select_cell_goes_to_cell Hn) as H.
  split; [exact H|]. split.
  - intros index. rewrite H. discriminate.
  - apply (select_cell_goes_to_cell (n := 5)). lia.
Qed.

Lemma select_cell_in_range_witness :
  1 <= 5 <= 24
  /\ interpret ("select cell " ++ Num.toString 5) = Return (Some (goToCell (Int (5 - 1))))
  /\ (forall index, interpret ("select cell " ++ Num.toString 5)
                    <> Return (Some (selectSub index)))
  /\ interpret "select cell 5" = Return (Some (goToCell (Int 4))).
Proof. split; [lia | apply (@select_cell_in_range 5); lia]. Defined.




(** ** Rule 4: [toggle cell <digit or number word>] *)

Lemma toggle_cell_digit (n : Z) :
  1 <= n <= 9 ->
  interpret ("toggle cell " ++ Num.toString n)
  = Return (Some (applyToSub (Int (clampSub n)) actToggle)).
Proof.
  intros Hn. revert n Hn.
  assert (H : forall n, 1 <= n < 1 + Z.of_nat 9 ->
            interpret ("toggle cell " ++ Num.toString n)
            = Return (Some (applyToSub (Int (clampSub n)) actToggle))).
  { apply spoken_all. each_spoken. }
  intros n Hn. apply H. lia.
Qed.

Lemma toggle_cell_word :
  Forall (fun entry =>
            match snd entry with
            | Int n =>
                interpret ("toggle cell " ++ fst entry)
                = Return (Some (applyToSub (Int (clampSub n)) actToggle))
            | NaN => False
            end) digitMap.
Proof.
  unfold digitMap.
  repeat (apply Forall_cons; [vm_compute; reflexivity|]).
  apply Forall_nil.
Qed.

Lemma toggle_cell_number_word :
  Forall (fun entry =>
            interpret ("toggle cell " ++ fst entry)
            = Return (Some (applyToSub (Int (clampSub (snd entry))) actToggle)))
         numberWords.
Proof.
  unfold numberWords.
  repeat (apply Forall_cons; [vm_compute; reflexivity|]).
  apply Forall_nil.
Qed.

Lemma numberWords_complete (n : Z) :
  1 <= n <= 9 -> exists word, In (word, n) numberWords.
Proof.
  intros Hn.
  assert (H : n = 1 \/ n = 2 \/ n = 3 \/ n = 4 \/ n = 5 \/ n = 6 \/ n = 7 \/ n = 8 \/ n = 9)
    by lia.
  unfold numberWords.
  destruct H as [-> | [-> | [-> | [-> | [-> | [-> | [-> | [-> | ->]]]]]]]];
    eexists; cbn [In]; eauto 12.
Qed.

(** C5. "toggle cell five" and "toggle cell 5" are both interpreted as
    ApplyToSub(4, Toggle); for every n in 1..9, written as a digit or as its
    English number word (one for 1, two for 2, ..., nine for 9),
    "toggle cell <n>" is interpreted as ApplyToSub(clamp(n-1, 0, 8), Toggle),
    not as a move to cell n.  Each n in 1..9 has its number word. *)
Theorem toggle_cell_applies_to_sub (n : Z) (word : string) :
  1 <= n <= 9 ->
  In (word, n) numberWords ->
  interpret "toggle cell five" = Return (Some (applyToSub (Int 4) actToggle))
  /\ interpret "toggle cell 5" = Return (Some (applyToSub (Int 4) actToggle))
  /\ interpret ("toggle cell " ++ Num.toString n)
     = Return (Some (applyToSub (Int (clampSub n)) actToggle))
  /\ interpret ("toggle cell " ++ word)
     = Return (Some (applyToSub (Int (clampSub n)) actToggle))
  /\ 0 <= clampSub n <= 8
  /\ interpret ("toggle cell " ++ Num.toString n) <> Return (Some (goToCell (Int (n - 1))))
  /\ interpret ("toggle cell " ++ word) <> Return (Some (goToCell (Int (n - 1))))
  /\ (forall m, 1 <= m <= 9 -> exists w, In (w, m) numberWords).
Proof.
  intros Hn Hin.
  assert (Hword : interpret ("toggle cell " ++ word)
                  = Return (Some (applyToSub (Int (clampSub n)) actToggle))).
  { pose proof toggle_cell_number_word as Hw. rewrite Forall_forall in Hw.
    exact (Hw _ Hin). }
  split; [vm_compute; reflexivity|].
  split; [vm_compute; reflexivity|].
  split; [apply toggle_cell_digit; exact Hn|].
  split; [exact Hword|].
  split; [unfold clampSub; lia|].
  split; [rewrite (toggle_cell_digit Hn); discriminate|].
  split; [rewrite Hword; discriminate|].
  exact numberWords_complete.
Qed.

Lemma toggle_cell_applies_to_sub_witness :
  1 <= 7 <= 9
  /\ In ("seven", 7) numberWords
  /\ interpret "toggle cell five" = Return (Some (applyToSub (Int 4) actToggle))
  /\ interpret "toggle cell 5" = Return (Some (applyToSub (Int 4) actToggle))
  /\ interpret ("toggle cell " ++ Num.toString 7)
     = Return (Some (applyToSub (Int (clampSub 7)) actToggle))
  /\ interpret ("toggle cell " ++ "seven")
     = Return (Some (applyToSub (Int (clampSub 7)) actToggle))
  /\ 0 <= clampSub 7 <= 8
  /\ interpret ("toggle cell " ++ Num.toString 7) <> Return (Some (goToCell (Int (7 - 1))))
  /\ interpret ("toggle cell " ++ "seven") <> Return (Some (goToCell (Int (7 - 1))))
  /\ (forall m, 1 <= m <= 9 -> exists w, In (w, m) numberWords).
Proof.
  split; [lia|]. split; [unfold numberWords; simpl; tauto|].
  apply (@toggle_cell_applies_to_sub 7 "seven").
  - lia.
  - unfold numberWords. simpl. tauto.
Defined.

(** ** Rule 5: the cell number of [parseCellNumber] *)

(** C3, as stated, fails at 5: the pattern of [parseCellNumber] requires the
    keyword, so a bare number is no cell number and matches no rule. *)
Lemma bare_number_not_understood :
  1 <= 5 <= 24
  /\ parseCellNumber (Num.toString 5) = None
  /\ interpret (Num.toString 5) = Return None
  /\ interpret (Num.toString 5) <> Return (Some (goToCell (Int (5 - 1)))).
Proof.
  split; [lia|]. split; [vm_compute; reflexivity|]. split; [vm_compute; reflexivity|].
  vm_compute. discriminate.
Qed.

Lemma keyword_number_goes_to_cell (n : Z) :
  1 <= n <= 24 ->
  Forall (fun phrase =>
            interpret (phrase ++ Num.toString n) = Return (Some (goToCell (Int (n - 1)))))
         cellPhrases.
Proof.
  intros Hn. revert n Hn.
  assert (H : forall n, 1 <= n < 1 + Z.of_nat 24 ->
            Forall (fun phrase =>
                      interpret (phrase ++ Num.toString n)
                      = Return (Some (goToCell (Int (n - 1)))))
                   cellPhrases).
  { apply spoken_all. cbv [spoken List.map seq cellPhrases].
    repeat (apply Forall_cons;
            [repeat (apply Forall_cons; [vm_compute; reflexivity|]); apply Forall_nil|]).
    apply Forall_nil. }
  intros n Hn. apply H. lia.
Qed.

Lemma bare_number_none (n : Z) :
  1 <= n <= 24 ->
  parseCellNumber (Num.toString n) = None /\ interpret (Num.toString n) = Return None.
Proof.
  intros Hn. revert n Hn.
  assert (H : forall n, 1 <= n < 1 + Z.of_nat 24 ->
            parseCellNumber (Num.toString n) = None
            /\ interpret (Num.toString n) = Return None).
  { apply spoken_all. cbv [spoken List.map seq].
    repeat (apply Forall_cons; [split; vm_compute; reflexivity|]).
    apply Forall_nil. }
  intros n Hn. apply H. lia.
Qed.

(** C3, amended. The cell-number resolver requires the keyword: for every n
    in 1..24 the utterances "cell n", "block n", "go to cell n" and
    "go to block n" are interpreted as GoToCell(n-1), while the bare number
    "n" is no cell number and is interpreted as None. *)
Theorem cell_number_needs_keyword (n : Z) :
  1 <= n <= 24 ->
  interpret ("cell " ++ Num.toString n) = Return (Some (goToCell (Int (n - 1))))
  /\ interpret ("block " ++ Num.toString n) = Return (Some (goToCell (Int (n - 1))))
  /\ interpret ("go to cell " ++ Num.toString n) = Return (Some (goToCell (Int (n - 1))))
  /\ interpret ("go to block " ++ Num.toString n) = Return (Some (goToCell (Int (n - 1))))
  /\ parseCellNumber (Num.toString n) = None
  /\ interpret (Num.toString n) = Return None.
Proof.
  intros Hn.
  pose proof (keyword_number_goes_to_cell Hn) as Hk.
  unfold cellPhrases in Hk.
  inversion_clear Hk as [|? ? H1 Hk1].
  inversion_clear Hk1 as [|? ? H2 Hk2].
  inversion_clear Hk2 as [|? ? H3 Hk3].
  inversion_clear Hk3 as [|? ? H4 _].
  destruct (bare_number_none Hn) as [H5 H6].
  repeat split; assumption.
Qed.

Lemma cell_number_needs_keyword_witness :
  1 <= 5 <= 24
  /\ interpret ("cell " ++ Num.toString 5) = Return (Some (goToCell (Int (5 - 1))))
  /\ interpret ("block " ++ Num.toString 5) = Return (Some (goToCell (Int (5 - 1))))
  /\ interpret ("go to cell " ++ Num.toString 5) = Return (Some (goToCell (Int (5 - 1))))
  /\ interpret ("go to block " ++ Num.toString 5) = Return (Some (goToCell (Int (5 - 1))))
  /\ parseCellNumber (Num.toString 5) = None
  /\ interpret (Num.toString 5) = Return None.
Proof. split; [lia | apply (@cell_number_needs_keyword 5); lia]. Defined.

(** ** Rule 6: [select sub cell(s) <list>] *)

(** C4. "select sub cells 4, 5 and 6" is interpreted as
    SelectSubCells([3,4,5]), but "select sub cell 6 5 4" is not: its words
    "cell 6" are a cell number for rule 5, which is tried before rule 6, so
    the utterance is interpreted as GoToCell(5). *)
Theorem select_sub_cell_read_as_cell :
  interpret "select sub cells 4, 5 and 6" = Return (Some (selectSubCells [Int 3; Int 4; Int 5]))
  /\ interpret "select sub cell 6 5 4" = Return (Some (goToCell (Int 5)))
  /\ interpret "select sub cell 6 5 4" <> Return (Some (selectSubCells [Int 3; Int 4; Int 5]))
  /\ interpret "select sub cell 4, 5 and 6" = Return (Some (goToCell (Int 3)))
  /\ parseSubCellList "6 5 4" = [Int 3; Int 4; Int 5].
Proof.
  repeat split; try (vm_compute; reflexivity).
  vm_compute. discriminate.
Qed.

(** ** Rule 7: the positional table *)

Lemma includes_here (key s : string) : prefix key s = true -> Str.includes key s = true.
Proof. intros H. destruct s; cbn [Str.includes]; rewrite H; reflexivity. Qed.

Lemma includes_later (key s : string) (c : ascii) :
  Str.includes key s = true -> Str.includes key (String c s) = true.
Proof.
  intros H. cbn [Str.includes].
  destruct (prefix key (String c s)); [reflexivity | exact H].
Qed.

Lemma prefix_includes_rest (a b : string) :
  forall s, prefix (a ++ b) s = true -> Str.includes b s = true.
Proof.
  induction a as [|c a IH]; intros s H.
  - apply includes_here. exact H.
  - destruct s as [|c' s]; simpl in H; [discriminate H|].
    destruct (ascii_dec c c'); [|discriminate H].
    apply includes_later. apply IH. exact H.
Qed.

(** A text that includes a phrase includes the end of the phrase. *)
Lemma includes_rest (a b : string) :
  forall s, Str.includes (a ++ b) s = true -> Str.includes b s = true.
Proof.
  induction s as [|c s IH]; cbn [Str.includes]; intros H.
  - destruct (prefix (a ++ b) EmptyString) eqn:Hp; [|discriminate H].
    exact (prefix_includes_rest a b _ Hp).
  - destruct (prefix (a ++ b) (String c s)) eqn:Hp.
    + exact (prefix_includes_rest a b _ Hp).
    + fold (Str.includes b (String c s)). apply includes_later. apply IH. exact H.
Qed.

(** C6. "select center" is SelectSub(4), "select top right" SelectSub(2),
    "select top left" SelectSub(0) and "select middle right" SelectSub(5);
    but the table order does not let every phrase of several words win:
    "center" stands before "bottom center", so "select bottom center" is
    interpreted as SelectSub(4) and not as SelectSub(7), and the scan of the
    table never returns the index 7 of "bottom center". *)
Theorem bottom_center_shadowed :
  interpret "select center" = Return (Some (selectSub (Int 4)))
  /\ interpret "select top right" = Return (Some (selectSub (Int 2)))
  /\ interpret "select top left" = Return (Some (selectSub (Int 0)))
  /\ interpret "select middle right" = Return (Some (selectSub (Int 5)))
  /\ In ("bottom center", Int 7) posMap
  /\ parseSubCellPosition "select bottom center" = Some (Int 4)
  /\ interpret "select bottom center" = Return (Some (selectSub (Int 4)))
  /\ (forall n : string, firstIncluded posMap n <> Some (Int 7)).
Proof.
  repeat split; try (vm_compute; reflexivity).
  - unfold posMap. simpl. tauto.
  - intros n. unfold posMap. cbn [firstIncluded].
    destruct (Str.includes "center" n) eqn:Hcenter.
    + repeat match goal with
             | |- (if ?b then _ else _) <> _ => destruct b
             end; discriminate.
    + assert (Hbottom : Str.includes "bottom center" n = false).
      { destruct (Str.includes "bottom center" n) eqn:Hb; [|reflexivity].
        apply (includes_rest "bottom " "center") in Hb. congruence. }
      rewrite Hbottom.
      repeat match goal with
             | |- (if ?b then _ else _) <> _ => destruct b
             end; discriminate.
Qed.

(** ** Every statement returns a well-formed command *)

Lemma inRange_weaken (lo hi lo' hi' : Z) (n : number) :
  lo' <= lo -> hi <= hi' -> inRange lo hi n = true -> inRange lo' hi' n = true.
Proof.
  intros Hlo Hhi. destruct n as [z|]; simpl; [|discriminate].
  rewrite !andb_true_iff, !Z.leb_le. lia.
Qed.

Lemma nextCellStmt_ok (n : string) : statementOk (nextCellStmt n).
Proof.
  unfold nextCellStmt.
  destruct (test nextCellPattern n || String.eqb n "next")%bool; simpl; auto.
Qed.

Lemma prevCellStmt_ok (n : string) : statementOk (prevCellStmt n).
Proof.
  unfold prevCellStmt.
  destruct (test prevCellPattern n || String.eqb n "previous" || String.eqb n "prev")%bool;
    simpl; auto.
Qed.

Lemma selectCellStmt_ok (n : string) : statementOk (selectCellStmt n).
Proof.
  unfold selectCellStmt.
  destruct (match_ selectCellPattern n) as [[start z]|] eqn:Hm; [|exact I].
  apply match_sound in Hm. unfold selectCellPattern in Hm. simpl index in Hm. simpl final in Hm.
  to_closing_group Hm.
  apply group_then_boundary with (start := start) in Hm.
  destruct Hm as (b & Hbody & ->).
  apply one_or_two_digits_text in Hbody. simpl parseIntOf.
  destruct (Num.parseInt _) as [requested|]; [|discriminate Hbody].
  simpl in Hbody. apply andb_true_iff in Hbody. destruct Hbody as [Hlo Hhi].
  unfold MAIN_COUNT, MAIN_COLS, MAIN_ROWS. simpl.
  destruct (Z.leb_spec 1 requested); destruct (Z.leb_spec requested 24); simpl;
    rewrite ?andb_true_iff, ?negb_true_iff, ?andb_false_iff, ?Z.leb_le, ?Z.leb_gt; lia.
Qed.

Lemma toggleSubCellStmt_ok (n : string) : statementOk (toggleSubCellStmt n).
Proof.
  unfold toggleSubCellStmt.
  destruct (match_ toggleSubCellPattern n) as [[start z]|] eqn:Hm; [|exact I].
  apply match_sound in Hm. unfold toggleSubCellPattern in Hm. simpl index in Hm. simpl final in Hm.
  to_closing_group Hm.
  apply group_then_boundary with (start := start) in Hm.
  destruct Hm as (b & Hbody & ->).
  apply digitOrWord_text in Hbody.
  match type of Hbody with In ?text _ => revert Hbody; generalize text end.
  apply Forall_forall. unfold digitTexts, nonzeroDigits, digitMap. cbn [List.map app fst].
  repeat (apply Forall_cons; [vm_compute; reflexivity|]). apply Forall_nil.
Qed.

Lemma cell_guard_in_range (num : number) :
  (Num.geb num (Int 1) && Num.leb num (Int MAIN_COUNT))%bool = true ->
  inRange 0 23 (Num.sub num (Int 1)) = true.
Proof.
  destruct num as [z|]; simpl; [|discriminate].
  unfold MAIN_COUNT, MAIN_COLS, MAIN_ROWS.
  rewrite !andb_true_iff, !Z.leb_le. lia.
Qed.

Lemma row_col_guard_in_range (row col : number) :
  (Num.geb row (Int 1) && Num.leb row (Int 2)
   && Num.geb col (Int 1) && Num.leb col (Int 12))%bool = true ->
  inRange 0 23 (Num.add (Num.mul (Num.sub row (Int 1)) (Int 12)) (Num.sub col (Int 1))) = true.
Proof.
  destruct row as [r|]; [|discriminate].
  destruct col as [c|]; simpl; [|rewrite !andb_false_r; discriminate].
  rewrite !andb_true_iff, !Z.leb_le. lia.
Qed.

Lemma parseCellNumber_in_range (text : string) (idx : number) :
  parseCellNumber text = Some idx -> inRange 0 23 idx = true.
Proof.
  unfold parseCellNumber. cbv zeta.
  set (n := normalize text).
  assert (Hrow : forall found,
             match match_ rowColPattern n with
             | Some rowColMatch =>
                 if (Num.geb (parseIntOf (group n 1 rowColMatch)) (Int 1)
                     && Num.leb (parseIntOf (group n 1 rowColMatch)) (Int 2)
                     && Num.geb (parseIntOf (group n 2 rowColMatch)) (Int 1)
                     && Num.leb (parseIntOf (group n 2 rowColMatch)) (Int 12))%bool
                 then Some (Num.add (Num.mul (Num.sub (parseIntOf (group n 1 rowColMatch)) (Int 1))
                                             (Int 12))
                                    (Num.sub (parseIntOf (group n 2 rowColMatch)) (Int 1)))
                 else None
             | None => None
             end = Some found -> inRange 0 23 found = true).
  { intros found H.
    destruct (match_ rowColPattern n) as [m|]; [|discriminate H].
    match type of H with (if ?g then _ else _) = _ => destruct g eqn:Hguard end;
      [|discriminate H].
    inversion H; subst. apply row_col_guard_in_range. exact Hguard. }
  destruct (match_ cellPattern n) as [m|].
  - destruct (Num.geb (parseIntOf (group n 1 m)) (Int 1)
              && Num.leb (parseIntOf (group n 1 m)) (Int MAIN_COUNT))%bool eqn:Hguard.
    + intros H. inversion H; subst. apply cell_guard_in_range. exact Hguard.
    + apply Hrow.
  - apply Hrow.
Qed.

Lemma goToCellStmt_ok (transcript : string) : statementOk (goToCellStmt transcript).
Proof.
  unfold goToCellStmt.
  destruct (parseCellNumber transcript) as [idx|] eqn:H; [|exact I].
  simpl. eapply parseCellNumber_in_range. exact H.
Qed.

(** *** The list of sub-cells *)

Lemma dedupeOnto_forallb (P : number -> bool) (xs : list number) :
  forall seen, forallb P xs = true -> forallb P (dedupeOnto seen xs) = true.
Proof.
  induction xs as [|x xs IH]; intros seen H; simpl in *; [reflexivity|].
  apply andb_true_iff in H. destruct H as [Hx Hxs].
  destruct (existsb (Num.sameValueZero x) seen).
  - apply IH. exact Hxs.
  - cbn [forallb]. rewrite Hx. simpl. apply IH. exact Hxs.
Qed.

Lemma insertSorted_forallb (P : number -> bool) (x : number) (sorted : list number) :
  P x = true -> forallb P sorted = true -> forallb P (insertSorted x sorted) = true.
Proof.
  intros Hx. induction sorted as [|y rest IH]; cbn [insertSorted forallb]; intros H.
  - rewrite Hx. reflexivity.
  - apply andb_true_iff in H. destruct H as [Hy Hrest].
    destruct (Num.ltb (Int 0) (compareFn y x)); cbn [forallb].
    + rewrite Hx, Hy. exact Hrest.
    + rewrite Hy. apply IH. exact Hrest.
Qed.

Lemma sort_forallb (P : number -> bool) (xs : list number) :
  forallb P xs = true -> forallb P (sort xs) = true.
Proof.
  unfold sort.
  assert (H : forall acc, forallb P acc = true -> forallb P xs = true ->
                          forallb P (fold_left (fun sorted x => insertSorted x sorted) xs acc)
                          = true).
  { induction xs as [|x xs IH]; intros acc Hacc Hxs; simpl in *; [exact Hacc|].
    apply andb_true_iff in Hxs. destruct Hxs as [Hx Hxs].
    apply IH; [apply insertSorted_forallb; assumption | exact Hxs]. }
  apply H. reflexivity.
Qed.

Lemma isolated_digit_text (s : string) (m : MatchResult) :
  Matches s isolatedDigitPattern (mkState (index m) []) (final m) ->
  exists c, In c nonzeroDigits /\ matched s m = String c EmptyString.
Proof.
  intros H. unfold isolatedDigitPattern in H.
  apply Matches_seq_inv in H. destruct H as (y & Hb & H).
  apply Matches_boundary_inv in Hb. subst y.
  apply Matches_seq_inv in H. destruct H as (y & Hd & Hb).
  apply Matches_boundary_inv in Hb.
  apply oneToNine_text in Hd. destruct Hd as (c & Hc & _ & Htext).
  exists c. split; [exact Hc|].
  unfold matched, lastOf. rewrite Hb. exact Htext.
Qed.

Lemma isolated_digits_in_range (s : string) (numbers : list string) :
  matchGlobal isolatedDigitPattern s = Some numbers ->
  forallb (inRange 0 8) (List.map (fun x => Num.sub (Num.parseInt x) (Int 1)) numbers) = true.
Proof.
  intros Hm. apply matchGlobal_sound in Hm.
  induction Hm as [|text texts (m & Hmatch & ->) _ IH]; simpl; [reflexivity|].
  rewrite IH, andb_true_r.
  apply isolated_digit_text in Hmatch. destruct Hmatch as (c & Hc & ->).
  pose proof (parseInt_oneToNine Hc) as Hrange.
  destruct (Num.parseInt (String c EmptyString)) as [z|]; [|discriminate Hrange].
  simpl in *. rewrite andb_true_iff, !Z.leb_le in *. lia.
Qed.

Lemma parseSubCellList_in_range (rest : string) :
  forallb (inRange 0 8) (parseSubCellList rest) = true.
Proof.
  unfold parseSubCellList. cbv zeta.
  destruct (matchGlobal isolatedDigitPattern _) as [numbers|] eqn:Hm; [|reflexivity].
  destruct (Nat.eqb (List.length numbers) 0); [reflexivity|].
  apply sort_forallb. apply dedupeOnto_forallb.
  eapply isolated_digits_in_range. exact Hm.
Qed.

Lemma sameValueZero_eq (a b : number) : Num.sameValueZero a b = true <-> a = b.
Proof.
  destruct a as [x|], b as [y|]; simpl; split; intros H;
    try discriminate H; try reflexivity.
  - apply Z.eqb_eq in H. subst. reflexivity.
  - inversion H. apply Z.eqb_refl.
Qed.

Lemma existsb_sameValueZero (x : number) (seen : list number) :
  existsb (Num.sameValueZero x) seen = true <-> In x seen.
Proof.
  rewrite existsb_exists. split.
  - intros (y & Hin & Heq). apply sameValueZero_eq in Heq. subst. exact Hin.
  - intros Hin. exists x. split; [exact Hin | apply sameValueZero_eq; reflexivity].
Qed.

Lemma dedupeOnto_NoDup (xs : list number) :
  forall seen,
    NoDup (dedupeOnto seen xs)
    /\ (forall x, In x (dedupeOnto seen xs) -> ~ In x seen).
Proof.
  induction xs as [|x xs IH]; intros seen; simpl.
  - split; [constructor | intros x []].
  - destruct (existsb (Num.sameValueZero x) seen) eqn:Hseen; [apply IH|].
    destruct (IH (x :: seen)) as [Hnodup Hfresh].
    split.
    + constructor; [|exact Hnodup].
      intros Hin. apply (Hfresh _ Hin). left. reflexivity.
    + intros y Hy Hold. destruct Hy as [<- | Hy].
      * apply existsb_sameValueZero in Hold. congruence.
      * apply (Hfresh _ Hy). right. exact Hold.
Qed.

Lemma In_insertSorted (x y : number) (sorted : list number) :
  In y (insertSorted x sorted) -> y = x \/ In y sorted.
Proof.
  induction sorted as [|z rest IH]; cbn [insertSorted].
  - intros [<- | []]. left. reflexivity.
  - destruct (Num.ltb (Int 0) (compareFn z x)); cbn [In].
    + intros [<- | H]; [left; reflexivity | right; exact H].
    + intros [<- | H]; [right; left; reflexivity|].
      destruct (IH H) as [-> | Hin]; [left; reflexivity | right; right; exact Hin].
Qed.

Lemma insertSorted_above (sorted : list number) :
  forall x y,
    ascending (y :: sorted) = true ->
    Num.ltb y x = true ->
    isInteger x = true -> forallb isInteger sorted = true ->
    ~ In x sorted ->
    ascending (y :: insertSorted x sorted) = true.
Proof.
  induction sorted as [|z rest IH]; intros x y Hasc Hyx Hx Hint Hfresh.
  - simpl. rewrite Hyx. reflexivity.
  - cbn [ascending] in Hasc. apply andb_true_iff in Hasc. destruct Hasc as [Hyz Hrest].
    cbn [forallb] in Hint. apply andb_true_iff in Hint. destruct Hint as [Hz Hint].
    cbn [insertSorted].
    destruct (Num.ltb (Int 0) (compareFn z x)) eqn:Hcmp.
    + cbn [ascending]. rewrite Hyx. cbn [andb].
      assert (Hxz : Num.ltb x z = true).
      { destruct x as [x|], z as [z|]; simpl in *; try discriminate.
        rewrite Z.ltb_lt in *. lia. }
      rewrite Hxz. exact Hrest.
    + assert (Hzx : Num.ltb z x = true).
      { destruct x as [x|], z as [z|]; simpl in *; try discriminate.
        rewrite Z.ltb_lt. rewrite Z.ltb_ge in Hcmp.
        assert (x <> z) by (intros ->; apply Hfresh; left; reflexivity). lia. }
      assert (Htail : ascending (z :: insertSorted x rest) = true).
      { apply IH; try assumption. intros Hin. apply Hfresh. right. exact Hin. }
      change (ascending (y :: z :: insertSorted x rest))
        with (Num.ltb y z && ascending (z :: insertSorted x rest))%bool.
      rewrite Hyz, Htail. reflexivity.
Qed.

Lemma insertSorted_ascending (sorted : list number) (x : number) :
  ascending sorted = true ->
  isInteger x = true -> forallb isInteger sorted = true ->
  ~ In x sorted ->
  ascending (insertSorted x sorted) = true.
Proof.
  destruct sorted as [|z rest]; intros Hasc Hx Hint Hfresh; [reflexivity|].
  cbn [insertSorted].
  destruct (Num.ltb (Int 0) (compareFn z x)) eqn:Hcmp.
  - assert (Hxz : Num.ltb x z = true).
    { destruct x as [x|], z as [z|]; simpl in *; try discriminate.
      rewrite Z.ltb_lt in *. lia. }
    change (ascending (x :: z :: rest)) with (Num.ltb x z && ascending (z :: rest))%bool.
    rewrite Hxz, Hasc. reflexivity.
  - cbn [forallb] in Hint. apply andb_true_iff in Hint. destruct Hint as [Hz Hint].
    apply insertSorted_above; try assumption.
    + destruct x as [x|], z as [z|]; simpl in *; try discriminate.
      rewrite Z.ltb_lt. rewrite Z.ltb_ge in Hcmp.
      assert (x <> z) by (intros ->; apply Hfresh; left; reflexivity). lia.
    + intros Hin. apply Hfresh. right. exact Hin.
Qed.

Lemma sort_ascending (xs : list number) :
  forallb isInteger xs = true -> NoDup xs -> ascending (sort xs) = true.
Proof.
  unfold sort.
  assert (H : forall acc,
             ascending acc = true -> forallb isInteger acc = true ->
             forallb isInteger xs = true -> NoDup xs ->
             (forall x, In x xs -> ~ In x acc) ->
             ascending (fold_left (fun sorted x => insertSorted x sorted) xs acc) = true).
  { induction xs as [|x xs IH]; intros acc Hasc Hacc Hint Hnodup Hfresh; simpl;
      [exact Hasc|].
    cbn [forallb] in Hint. apply andb_true_iff in Hint. destruct Hint as [Hx Hint].
    inversion Hnodup as [|? ? Hnotin Hnodup']; subst.
    apply IH; try assumption.
    - apply insertSorted_ascending; try assumption. apply Hfresh. left. reflexivity.
    - apply insertSorted_forallb; assumption.
    - intros x' Hin' Hin. apply In_insertSorted in Hin. destruct Hin as [-> | Hin].
      + contradiction.
      + apply (Hfresh x'); [right; exact Hin' | exact Hin]. }
  intros Hint Hnodup. apply H; try assumption; try reflexivity.
  intros x _ [].
Qed.

Lemma inRange_isInteger (lo hi : Z) (xs : list number) :
  forallb (inRange lo hi) xs = true -> forallb isInteger xs = true.
Proof.
  induction xs as [|x xs IH]; simpl; [reflexivity|].
  rewrite !andb_true_iff. intros [Hx Hxs]. split; [|apply IH; exact Hxs].
  destruct x; [reflexivity | discriminate Hx].
Qed.

(** The indices of a sub-cell list are strictly ascending. *)
Lemma parseSubCellList_ascending (rest : string) :
  ascending (parseSubCellList rest) = true.
Proof.
  unfold parseSubCellList. cbv zeta.
  destruct (matchGlobal isolatedDigitPattern _) as [numbers|] eqn:Hm; [|reflexivity].
  destruct (Nat.eqb (List.length numbers) 0); [reflexivity|].
  apply sort_ascending; [|apply dedupeOnto_NoDup].
  apply dedupeOnto_forallb. apply (inRange_isInteger 0 8).
  eapply isolated_digits_in_range. exact Hm.
Qed.

Lemma subCellsStmt_ok (n : string) : statementOk (subCellsStmt n).
Proof.
  unfold subCellsStmt.
  destruct (match_ subCellsPattern n) as [[start z]|] eqn:Hm; [|exact I].
  apply match_sound in Hm. unfold subCellsPattern in Hm. simpl index in Hm. simpl final in Hm.
  to_closing_group Hm.
  apply group_at_end with (start := start) in Hm. destruct Hm as (text & ->).
  cbv zeta.
  destruct (Nat.ltb 0 (List.length (parseSubCellList text))) eqn:Hlen; [|exact I].
  simpl. rewrite parseSubCellList_in_range, parseSubCellList_ascending, Hlen. reflexivity.
Qed.

(** *** One sub-cell *)

Lemma firstIncluded_posMap_in_range (n : string) (idx : number) :
  firstIncluded posMap n = Some idx -> inRange 0 8 idx = true.
Proof.
  unfold posMap. cbn [firstIncluded].
  repeat match goal with
         | |- (if ?b then _ else _) = _ -> _ => destruct b
         end;
    intros H; inversion H; reflexivity.
Qed.

Lemma parseSubCellPosition_in_range (text : string) (idx : number) :
  parseSubCellPosition text = Some idx -> inRange 0 8 idx = true.
Proof.
  unfold parseSubCellPosition. cbv zeta.
  set (n := normalize text).
  destruct (match_ numPattern n) as [[start z]|] eqn:Hm;
    [|apply firstIncluded_posMap_in_range].
  apply match_sound in Hm. unfold numPattern in Hm. simpl index in Hm. simpl final in Hm.
  to_closing_group Hm.
  apply group_then_boundary with (start := start) in Hm.
  destruct Hm as (b & Hbody & ->).
  apply oneToNine_text in Hbody. destruct Hbody as (c & Hc & _ & ->).
  pose proof (parseInt_oneToNine Hc) as Hrange.
  intros H. inversion H; subst; clear H. simpl parseIntOf.
  destruct (Num.parseInt (String c EmptyString)) as [v|]; [|discriminate Hrange].
  simpl in *. rewrite andb_true_iff, !Z.leb_le in *. lia.
Qed.

Lemma selectSubStmt_ok (transcript n : string) : statementOk (selectSubStmt transcript n).
Proof.
  unfold selectSubStmt.
  destruct (Str.includes "select" n); [|exact I].
  destruct (parseSubCellPosition transcript) as [idx|] eqn:H; [|exact I].
  simpl. eapply parseSubCellPosition_in_range. exact H.
Qed.

Lemma boxNumStmt_ok (n : string) : statementOk (boxNumStmt n).
Proof.
  unfold boxNumStmt.
  destruct (match_ boxNumPattern n) as [[start z]|] eqn:Hm; [|exact I].
  apply match_sound in Hm. unfold boxNumPattern in Hm. simpl index in Hm. simpl final in Hm.
  to_closing_group Hm.
  apply group_then_boundary with (start := start) in Hm.
  destruct Hm as (b & Hbody & ->).
  apply oneToNine_text in Hbody. destruct Hbody as (c & Hc & _ & ->).
  pose proof (parseInt_oneToNine Hc) as Hrange.
  cbv zeta. simpl parseIntOf.
  destruct (Num.parseInt (String c EmptyString)) as [v|]; [|discriminate Hrange].
  simpl in *. rewrite andb_true_iff, !Z.leb_le in *. lia.
Qed.

Lemma toggleAllStmt_ok (n : string) : statementOk (toggleAllStmt n).
Proof. unfold toggleAllStmt. destruct (test toggleAllPattern n); simpl; auto. Qed.

Lemma turnOnStmt_ok (n : string) : statementOk (turnOnStmt n).
Proof. unfold turnOnStmt. destruct (test turnOnPattern n); simpl; auto. Qed.

Lemma turnOffStmt_ok (n : string) : statementOk (turnOffStmt n).
Proof. unfold turnOffStmt. destruct (test turnOffPattern n); simpl; auto. Qed.

Lemma runStatements_ok (stmts : list statement) :
  Forall statementOk stmts ->
  exists result, runStatements stmts = Return result /\ wellFormedResult result = true.
Proof.
  induction 1 as [|s stmts Hs _ IH]; simpl.
  - exists None. auto.
  - destruct s as [[[cmd|]|]|]; simpl in Hs.
    + exists (Some cmd). auto.
    + exists None. auto.
    + contradiction.
    + exact IH.
Qed.

(** C7. The interpreter never throws: for every input, a string or not, it
    returns a command or None, and a command it returns carries indices in
    range only (GoToCell in 0..23; SelectSub, ApplyToSub and every element
    of SelectSubCells in 0..8); the number of a CellNotFound is an integer
    outside 1..24. *)
Theorem interpreter_total_and_in_range (transcript : value) :
  exists result : option VoiceCommand,
    parseVoiceCommand transcript = Return result /\ wellFormedResult result = true.
Proof.
  unfold parseVoiceCommand.
  destruct (falsy transcript || negb (typeofString transcript))%bool;
    [exists None; auto|].
  destruct transcript as [text| | | | |]; try (exists None; split; reflexivity).
  cbv zeta. apply runStatements_ok.
  repeat apply Forall_cons; try apply Forall_nil.
  - apply nextCellStmt_ok.
  - apply prevCellStmt_ok.
  - apply selectCellStmt_ok.
  - apply toggleSubCellStmt_ok.
  - apply goToCellStmt_ok.
  - apply subCellsStmt_ok.
  - apply selectSubStmt_ok.
  - apply boxNumStmt_ok.
  - apply toggleAllStmt_ok.
  - apply turnOnStmt_ok.
  - apply turnOffStmt_ok.
Qed.

(** ** Empty input *)

Lemma toLower_space (c : ascii) : Chars.isSpace c = true -> Chars.toLower c = c.
Proof. intros H. each_ascii c H; reflexivity. Qed.

Lemma toLowerCase_allSpace (s : string) : allSpace s = true -> Str.toLowerCase s = s.
Proof.
  induction s as [|c s IH]; simpl; intros H; [reflexivity|].
  apply andb_true_iff in H. destruct H as [Hc Hs].
  unfold Str.toLowerCase in *. simpl. rewrite (toLower_space _ Hc), (IH Hs). reflexivity.
Qed.

Lemma trimStart_allSpace (s : string) : allSpace s = true -> Str.trimStart s = EmptyString.
Proof.
  induction s as [|c s IH]; simpl; intros H; [reflexivity|].
  apply andb_true_iff in H. destruct H as [Hc Hs].
  rewrite Hc. apply IH. exact Hs.
Qed.

Lemma normalize_allSpace (s : string) : allSpace s = true -> normalize s = EmptyString.
Proof.
  intros H. unfold normalize, Str.trim.
  rewrite (toLowerCase_allSpace _ H), (trimStart_allSpace _ H). reflexivity.
Qed.

Lemma blank_is_none (s : string) :
  normalize s = EmptyString -> interpret s = Return None.
Proof.
  intros H. unfold interpret, parseVoiceCommand.
  destruct (falsy (VString s) || negb (typeofString (VString s)))%bool; [reflexivity|].
  cbv zeta. rewrite H.
  assert (Hcell : goToCellStmt s = None).
  { unfold goToCellStmt, parseCellNumber. cbv zeta. rewrite H. reflexivity. }
  rewrite Hcell. reflexivity.
Qed.

(** C8. The empty string, a string of white space only and any input that
    is not a string are interpreted as None; for an empty or non-string input
    the guard alone decides, whatever normalization would give; and the
    interpreter is a function of its input. *)
Theorem blank_or_non_string_is_none (transcript : value) :
  falsy transcript = true
  \/ typeofString transcript = false
  \/ (exists s, transcript = VString s /\ allSpace s = true) ->
  parseVoiceCommand transcript = Return None
  /\ interpret EmptyString = Return None
  /\ interpret "   " = Return None
  /\ (forall other : value, other = transcript ->
                            parseVoiceCommand other = parseVoiceCommand transcript).
Proof.
  intros H.
  split; [|split; [reflexivity|split; [vm_compute; reflexivity|intros other ->; reflexivity]]].
  destruct H as [H | [H | (s & -> & H)]].
  - unfold parseVoiceCommand. rewrite H. reflexivity.
  - unfold parseVoiceCommand. rewrite H, orb_true_r. reflexivity.
  - apply blank_is_none. apply normalize_allSpace. exact H.
Qed.

Lemma blank_or_non_string_is_none_witness :
  (falsy (VString "   ") = true
   \/ typeofString (VString "   ") = false
   \/ (exists s, VString "   " = VString s /\ allSpace s = true))
  /\ parseVoiceCommand (VString "   ") = Return None
  /\ interpret EmptyString = Return None
  /\ interpret "   " = Return None
  /\ (forall other : value, other = VString "   " ->
                            parseVoiceCommand other = parseVoiceCommand (VString "   ")).
Proof.
  split; [right; right; exists "   "; split; reflexivity|].
  apply (@blank_or_non_string_is_none (VString "   ")).
  right. right. exists "   ". split; reflexivity.
Defined.

(** ** The grid state reducer *)

Lemma setActiveCell_focus (index : number) (st : AppState) :
  focus (setActiveCell index st)
  = mkFocus (Num.max (Int 0) (Num.min (Int 23) index)) None [].
Proof. reflexivity. Qed.

Lemma triggerCommandFlash_focus (st : AppState) :
  focus (triggerCommandFlash st) = focus st.
Proof. reflexivity. Qed.

(** C9. After [setActiveCell] the active cell is max(0, min(23, index)),
    which lies in 0..23 for every integer index, and the focused sub-cell
    and the selection are cleared; so they are cleared after every NextCell,
    PrevCell and GoToCell command. *)
Theorem active_cell_move_resets_focus :
  (forall (index : number) (st : AppState),
      activeCellIndex (focus (setActiveCell index st))
      = Num.max (Int 0) (Num.min (Int 23) index)
      /\ focusedSubIndex (focus (setActiveCell index st)) = None
      /\ selectedSubIndices (focus (setActiveCell index st)) = [])
  /\ (forall (index : Z) (st : AppState),
         activeCellIndex (focus (setActiveCell (Int index) st))
         = Int (Z.max 0 (Z.min 23 index))
         /\ 0 <= Z.max 0 (Z.min 23 index) <= 23)
  /\ (forall (cmd : VoiceCommand) (transcript : string) (st : AppState),
         movesActiveCell cmd = true ->
         focusedSubIndex (focus (handleVoiceCommand (Some cmd) transcript st)) = None
         /\ selectedSubIndices (focus (handleVoiceCommand (Some cmd) transcript st)) = []).
Proof.
  split; [|split].
  - intros index st. rewrite setActiveCell_focus. simpl. auto.
  - intros index st. rewrite setActiveCell_focus. simpl. split; [reflexivity|lia].
  - intros cmd transcript st Hmove.
    destruct cmd; try discriminate Hmove;
      cbv beta iota delta [handleVoiceCommand];
      rewrite triggerCommandFlash_focus, setActiveCell_focus; split; reflexivity.
Qed.

Lemma active_cell_move_resets_focus_witness :
  movesActiveCell (goToCell (Int 30)) = true
  /\ focusedSubIndex
    (focus (handleVoiceCommand (Some (goToCell (Int 30))) "select cell 30"
              (mkApp createInitialGrid (mkFocus (Int 3) (Some (Int 2)) [Int 1]) false None None)))
  = None
  /\ selectedSubIndices
       (focus (handleVoiceCommand (Some (goToCell (Int 30))) "select cell 30"
                 (mkApp createInitialGrid (mkFocus (Int 3) (Some (Int 2)) [Int 1]) false None None)))
     = [].
Proof.
  split; [reflexivity|].
  apply (proj2 (proj2 active_cell_move_resets_focus)). reflexivity.
Defined.

(** ** The dispatcher *)

(** C10. An ApplyToSub command reaches no case of the dispatcher: the state
    (grid, focus, flash and both messages) is returned as it was.  Its type
    tag is not among those the VoiceCommand union declares, and the
    utterances "toggle cell 5" and "check box 3", which the parser turns
    into ApplyToSub commands, leave the state unchanged. *)
Theorem applyToSub_is_ignored :
  (forall (subIndex : number) (action : SubAction) (transcript : string) (st : AppState),
      handleVoiceCommand (Some (applyToSub subIndex action)) transcript st = st)
  /\ (forall (subIndex : number) (action : SubAction),
         ~ In (typeOf (applyToSub subIndex action)) declaredTypes)
  /\ interpret "toggle cell 5" = Return (Some (applyToSub (Int 4) actToggle))
  /\ interpret "check box 3" = Return (Some (applyToSub (Int 2) actTurnOn))
  /\ (forall st : AppState, onFinal "toggle cell 5" st = st)
  /\ (forall st : AppState, onFinal "check box 3" st = st).
Proof.
  split; [reflexivity|]. split.
  - intros subIndex action. unfold declaredTypes. simpl.
    intros H. repeat (destruct H as [H | H]; [discriminate H|]). exact H.
  - split; [vm_compute; reflexivity|]. split; [vm_compute; reflexivity|].
    split; intros st; unfold onFinal.
    + replace (interpret "toggle cell 5")
        with (Return (Some (applyToSub (Int 4) actToggle))) by (vm_compute; reflexivity).
      reflexivity.
    + replace (interpret "check box 3")
        with (Return (Some (applyToSub (Int 2) actTurnOn))) by (vm_compute; reflexivity).
      reflexivity.
Qed.

(** * Further properties *)

(** ** Lists mapped with their indices *)

Lemma mapIndexed_length (A B : Type) (f : A -> nat -> B) (xs : list A) :
  forall i, List.length (mapIndexed f i xs) = List.length xs.
Proof.
  induction xs as [|x xs IH]; intros i; simpl; [reflexivity|].
  rewrite IH. reflexivity.
Qed.

Lemma nth_error_mapIndexed (A B : Type) (f : A -> nat -> B) (xs : list A) :
  forall i k,
    nth_error (mapIndexed f i xs) k = option_map (fun x => f x (i + k)%nat) (nth_error xs k).
Proof.
  induction xs as [|x xs IH]; intros i k.
  - destruct k; reflexivity.
  - destruct k as [|k]; simpl.
    + rewrite Nat.add_0_r. reflexivity.
    + rewrite IH. replace (S i + k)%nat with (i + S k)%nat by lia. reflexivity.
Qed.

Lemma mapIndexed_ext (A B : Type) (f g : A -> nat -> B) (xs : list A) :
  forall i,
    (forall x k, In x xs -> (i <= k < i + List.length xs)%nat -> f x k = g x k) ->
    mapIndexed f i xs = mapIndexed g i xs.
Proof.
  induction xs as [|x xs IH]; intros i H; simpl; [reflexivity|].
  rewrite (H x i) by (simpl; auto; lia).
  rewrite (IH (S i)); [reflexivity|].
  intros y k Hin Hk. apply H; simpl; [right; exact Hin | lia].
Qed.

Lemma mapIndexed_id (A : Type) (xs : list A) :
  forall i, mapIndexed (fun x _ => x) i xs = xs.
Proof.
  induction xs as [|x xs IH]; intros i; simpl; [reflexivity|].
  rewrite IH. reflexivity.
Qed.

Lemma mapIndexed_compose (A B C : Type) (f : B -> nat -> C) (g : A -> nat -> B)
    (xs : list A) :
  forall i, mapIndexed f i (mapIndexed g i xs) = mapIndexed (fun x k => f (g x k) k) i xs.
Proof.
  induction xs as [|x xs IH]; intros i; simpl; [reflexivity|].
  rewrite IH. reflexivity.
Qed.

Lemma mapIndexed_unchanged (A : Type) (f : A -> nat -> A) (xs : list A) (i : nat) :
  (forall x k, In x xs -> (i <= k < i + List.length xs)%nat -> f x k = x) ->
  mapIndexed f i xs = xs.
Proof.
  intros H. rewrite <- (mapIndexed_id xs i) at 2.
  apply mapIndexed_ext. exact H.
Qed.

(** ** [toggleSub] *)

Lemma AppState_eta (st : AppState) :
  st = mkApp (grid st) (focus st) (lastCommandFlash st)
             (unrecognizedMessage st) (cellNotFoundMessage st).
Proof. destruct st; reflexivity. Qed.

Lemma toggleSub_grid (cellIndex subIndex : number) (value : option bool) (st : AppState) :
  toggleSub cellIndex subIndex value st
  = mkApp (toggledGrid cellIndex subIndex value (grid st)) (focus st) (lastCommandFlash st)
          (unrecognizedMessage st) (cellNotFoundMessage st).
Proof. reflexivity. Qed.

Lemma entry_toggledGrid (c s : number) (value : option bool) (g : GridState) (i j : nat) :
  entry (toggledGrid c s value g) i j
  = option_map (fun v => if (Num.isIndex i c && Num.isIndex j s)%bool
                         then orNegate value v else v)
               (entry g i j).
Proof.
  unfold entry, toggledGrid. rewrite nth_error_mapIndexed. simpl.
  destruct (nth_error g i) as [row|]; simpl; [|reflexivity].
  destruct (Num.isIndex i c); simpl.
  - unfold toggledRow. rewrite nth_error_mapIndexed. reflexivity.
  - destruct (nth_error row j); reflexivity.
Qed.

Lemma toggledGrid_shaped (c s : number) (value : option bool) (g : GridState) :
  shaped (toggledGrid c s value g) = shaped g.
Proof.
  unfold shaped, toggledGrid. rewrite mapIndexed_length. f_equal.
  assert (H : forall k,
             forallb (fun row : list SubCellState => Nat.eqb (List.length row) 9)
                     (mapIndexed (fun row i => if Num.isIndex i c
                                               then toggledRow s value row else row) k g)
             = forallb (fun row : list SubCellState => Nat.eqb (List.length row) 9) g).
  { induction g as [|row g IH]; intros k; simpl; [reflexivity|].
    rewrite IH. f_equal.
    destruct (Num.isIndex k c); [|reflexivity].
    unfold toggledRow. rewrite mapIndexed_length. reflexivity. }
  apply H.
Qed.

Lemma toggledRow_twice (s : number) (row : list SubCellState) :
  toggledRow s None (toggledRow s None row) = row.
Proof.
  unfold toggledRow. rewrite mapIndexed_compose.
  apply mapIndexed_unchanged. intros v k _ _.
  destruct (Num.isIndex k s); simpl; [apply negb_involutive | reflexivity].
Qed.

Lemma toggledRow_set_twice (s : number) (b : bool) (row : list SubCellState) :
  toggledRow s (Some b) (toggledRow s (Some b) row) = toggledRow s (Some b) row.
Proof.
  unfold toggledRow. rewrite mapIndexed_compose.
  apply mapIndexed_ext. intros v k _ _.
  destruct (Num.isIndex k s); reflexivity.
Qed.

Lemma toggledGrid_twice (c s : number) (g : GridState) :
  toggledGrid c s None (toggledGrid c s None g) = g.
Proof.
  unfold toggledGrid. rewrite mapIndexed_compose.
  apply mapIndexed_unchanged. intros row k _ _.
  destruct (Num.isIndex k c); [apply toggledRow_twice | reflexivity].
Qed.

Lemma toggledGrid_set_twice (c s : number) (b : bool) (g : GridState) :
  toggledGrid c s (Some b) (toggledGrid c s (Some b) g) = toggledGrid c s (Some b) g.
Proof.
  unfold toggledGrid. rewrite mapIndexed_compose.
  apply mapIndexed_ext. intros row k _ _.
  destruct (Num.isIndex k c); [apply toggledRow_set_twice | reflexivity].
Qed.

Lemma isIndex_out_of_range (n : number) (len k : nat) :
  inRange 0 (Z.of_nat len - 1) n = false -> (k < len)%nat -> Num.isIndex k n = false.
Proof.
  destruct n as [z|]; simpl; [|reflexivity].
  intros H Hk. apply Z.eqb_neq. intros <-.
  apply andb_false_iff in H. rewrite !Z.leb_gt in H. lia.
Qed.

(** X1. [toggleSub] writes one sub-cell at most: the sub-cell [subIndex] of
    the cell [cellIndex], if the grid has it, takes the given value, or its
    negation when no value is given; every other sub-cell keeps its value, no
    sub-cell is added or removed, and the focus, the flash and the messages
    stay. *)
Theorem toggleSub_writes_one_entry (cellIndex subIndex : number) (value : option bool)
    (st : AppState) :
  (forall i j,
      entry (grid (toggleSub cellIndex subIndex value st)) i j
      = option_map (fun v => if (Num.isIndex i cellIndex && Num.isIndex j subIndex)%bool
                             then orNegate value v else v)
                   (entry (grid st) i j))
  /\ shaped (grid (toggleSub cellIndex subIndex value st)) = shaped (grid st)
  /\ focus (toggleSub cellIndex subIndex value st) = focus st
  /\ lastCommandFlash (toggleSub cellIndex subIndex value st) = lastCommandFlash st
  /\ unrecognizedMessage (toggleSub cellIndex subIndex value st) = unrecognizedMessage st
  /\ cellNotFoundMessage (toggleSub cellIndex subIndex value st) = cellNotFoundMessage st.
Proof.
  rewrite toggleSub_grid. simpl.
  split; [intros i j; apply entry_toggledGrid|].
  split; [apply toggledGrid_shaped|]. auto.
Qed.

(** X2. [toggleSub] on a cell index that is no index of the grid (negative,
    too large or NaN), or on a sub-cell index that is no index of any row,
    changes nothing. *)
Theorem toggleSub_outside_is_noop (cellIndex subIndex : number) (value : option bool)
    (st : AppState) :
  inRange 0 (Z.of_nat (List.length (grid st)) - 1) cellIndex = false
  \/ Forall (fun row : list SubCellState =>
               inRange 0 (Z.of_nat (List.length row) - 1) subIndex = false) (grid st) ->
  toggleSub cellIndex subIndex value st = st.
Proof.
  intros H. rewrite toggleSub_grid, (AppState_eta st) at 1. simpl.
  rewrite (AppState_eta st) at 6. f_equal.
  unfold toggledGrid. apply mapIndexed_unchanged. intros row k Hrow Hk.
  destruct H as [H | H].
  - rewrite (@isIndex_out_of_range cellIndex _ k H) by exact (proj2 Hk). reflexivity.
  - destruct (Num.isIndex k cellIndex); [|reflexivity].
    unfold toggledRow. apply mapIndexed_unchanged. intros v j _ Hj.
    rewrite Forall_forall in H.
    rewrite (@isIndex_out_of_range subIndex _ j (H _ Hrow)) by exact (proj2 Hj).
    reflexivity.
Qed.

Lemma toggleSub_outside_is_noop_witness :
  (inRange 0 (Z.of_nat (List.length (grid initialState)) - 1) (Int 24) = false
   \/ Forall (fun row : list SubCellState =>
                inRange 0 (Z.of_nat (List.length row) - 1) (Int 3) = false)
             (grid initialState))
  /\ toggleSub (Int 24) (Int 3) None initialState = initialState.
Proof.
  split; [left; reflexivity|].
  apply (@toggleSub_outside_is_noop (Int 24) (Int 3) None initialState).
  left. reflexivity.
Defined.

(** X3. Toggling a sub-cell twice gives back the state, for any pair of
    indices; setting it twice to a value is the same as setting it once. *)
Theorem toggleSub_twice (cellIndex subIndex : number) (st : AppState) :
  toggleSub cellIndex subIndex None (toggleSub cellIndex subIndex None st) = st
  /\ (forall b : bool,
         toggleSub cellIndex subIndex (Some b) (toggleSub cellIndex subIndex (Some b) st)
         = toggleSub cellIndex subIndex (Some b) st).
Proof.
  split.
  - rewrite !toggleSub_grid. simpl. rewrite toggledGrid_twice.
    symmetry. apply AppState_eta.
  - intros b. rewrite !toggleSub_grid. simpl. rewrite toggledGrid_set_twice. reflexivity.
Qed.


(** ** [applyVoiceCommand] *)

Lemma isIndex_of_nat (j x : nat) : Num.isIndex j (Int (Z.of_nat x)) = Nat.eqb j x.
Proof.
  simpl. destruct (Nat.eqb_spec j x) as [-> | Hne].
  - apply Z.eqb_refl.
  - apply Z.eqb_neq. lia.
Qed.

Lemma fold_toggledRow (value : option bool) (js : list nat) :
  NoDup js ->
  forall row,
    fold_left (fun r x => toggledRow (Int (Z.of_nat x)) value r) js row
    = mapIndexed (fun v k => if existsb (Nat.eqb k) js then orNegate value v else v) 0 row.
Proof.
  induction 1 as [|x js Hx Hjs IH]; intros row; simpl.
  - symmetry. apply mapIndexed_id.
  - rewrite IH. unfold toggledRow. rewrite mapIndexed_compose.
    apply mapIndexed_ext. intros v k _ _.
    rewrite isIndex_of_nat.
    destruct (Nat.eqb_spec k x) as [-> | Hne]; simpl; [|reflexivity].
    destruct (existsb (Nat.eqb x) js) eqn:Hin; [|reflexivity].
    exfalso. apply Hx. apply existsb_exists in Hin.
    destruct Hin as (y & Hy & Heq). apply Nat.eqb_eq in Heq. subst. exact Hy.
Qed.

Lemma fold_toggledGrid (c : number) (value : option bool) (js : list nat) :
  forall g,
    fold_left (fun acc x => toggledGrid c (Int (Z.of_nat x)) value acc) js g
    = mapIndexed (fun row i =>
                    if Num.isIndex i c
                    then fold_left (fun r x => toggledRow (Int (Z.of_nat x)) value r) js row
                    else row) 0 g.
Proof.
  induction js as [|x js IH]; intros g; simpl.
  - symmetry. apply mapIndexed_unchanged. intros row i _ _.
    destruct (Num.isIndex i c); reflexivity.
  - rewrite IH. unfold toggledGrid. rewrite mapIndexed_compose.
    apply mapIndexed_ext. intros row i _ _.
    destruct (Num.isIndex i c); reflexivity.
Qed.

Lemma fold_toggleSub (c : number) (value : option bool) (js : list nat) :
  forall st,
    fold_left (fun acc x => toggleSub c (Int (Z.of_nat x)) value acc) js st
    = mkApp (fold_left (fun g x => toggledGrid c (Int (Z.of_nat x)) value g) js (grid st))
            (focus st) (lastCommandFlash st) (unrecognizedMessage st)
            (cellNotFoundMessage st).
Proof.
  induction js as [|x js IH]; intros st; simpl.
  - apply AppState_eta.
  - rewrite IH. reflexivity.
Qed.

Lemma under_nine (j : nat) : existsb (Nat.eqb j) (seq 0 9) = Nat.ltb j 9.
Proof. do 10 (destruct j as [|j]; [reflexivity|]). reflexivity. Qed.

(** The grid after [applyVoiceCommand]. *)
Lemma applyVoiceCommand_grid (c : number) (sub : option number) (type : SubAction)
    (st : AppState) :
  grid (applyVoiceCommand c sub type st)
  = mapIndexed (fun row i =>
                  if Num.isIndex i c
                  then mapIndexed (fun v k =>
                                     if match sub with
                                        | Some s => Num.isIndex k s
                                        | None => Nat.ltb k 9
                                        end
                                     then acted type v else v) 0 row
                  else row) 0 (grid st).
Proof.
  unfold applyVoiceCommand. destruct sub as [s|]; cbv zeta.
  - reflexivity.
  - change (Z.to_nat SUB_PER_CELL) with 9%nat.
    rewrite fold_toggleSub. unfold triggerCommandFlash. cbn [grid].
    rewrite fold_toggledGrid.
    apply mapIndexed_ext. intros row i _ _.
    destruct (Num.isIndex i c); [|reflexivity].
    rewrite fold_toggledRow by apply seq_NoDup.
    apply mapIndexed_ext. intros v k _ _.
    rewrite under_nine. reflexivity.
Qed.

Lemma applyVoiceCommand_rest (c : number) (sub : option number) (type : SubAction)
    (st : AppState) :
  focus (applyVoiceCommand c sub type st) = focus st
  /\ lastCommandFlash (applyVoiceCommand c sub type st) = true
  /\ unrecognizedMessage (applyVoiceCommand c sub type st) = unrecognizedMessage st
  /\ cellNotFoundMessage (applyVoiceCommand c sub type st) = cellNotFoundMessage st.
Proof.
  unfold applyVoiceCommand. destruct sub as [s|]; cbv zeta.
  - repeat split; reflexivity.
  - rewrite fold_toggleSub. repeat split; reflexivity.
Qed.

Lemma shaped_rows (f : list SubCellState -> nat -> list SubCellState) (g : GridState) :
  (forall row i, List.length (f row i) = List.length row) ->
  forall k, shaped (mapIndexed f k g) = shaped g.
Proof.
  intros Hf k. unfold shaped. rewrite mapIndexed_length. f_equal.
  revert k. induction g as [|row g IH]; intros k; simpl; [reflexivity|].
  rewrite IH, Hf. reflexivity.
Qed.

Lemma entry_rows (f : list SubCellState -> nat -> list SubCellState) (g : GridState)
    (i j : nat) :
  entry (mapIndexed f 0 g) i j
  = match nth_error g i with
    | Some row => nth_error (f row i) j
    | None => None
    end.
Proof.
  unfold entry. rewrite nth_error_mapIndexed.
  destruct (nth_error g i); reflexivity.
Qed.

(** X4. [applyVoiceCommand] with no focused sub-cell applies the action to
    the sub-cells 0..8 of the cell, and with a focused sub-cell to that one
    only: turn-on makes them true, turn-off false, toggle negates them.
    Every other sub-cell keeps its value, the grid keeps its shape, the
    focus and the messages stay, and the flash is raised. *)
Theorem applyVoiceCommand_effect (cellIndex : number) (subIndex : option number)
    (type : SubAction) (st : AppState) :
  (forall i j,
      entry (grid (applyVoiceCommand cellIndex subIndex type st)) i j
      = option_map (fun v => if (Num.isIndex i cellIndex
                                 && match subIndex with
                                    | Some s => Num.isIndex j s
                                    | None => Nat.ltb j 9
                                    end)%bool
                             then acted type v else v)
                   (entry (grid st) i j))
  /\ acted actTurnOn = (fun _ => true)
  /\ acted actTurnOff = (fun _ => false)
  /\ acted actToggle = negb
  /\ shaped (grid (applyVoiceCommand cellIndex subIndex type st)) = shaped (grid st)
  /\ focus (applyVoiceCommand cellIndex subIndex type st) = focus st
  /\ lastCommandFlash (applyVoiceCommand cellIndex subIndex type st) = true
  /\ unrecognizedMessage (applyVoiceCommand cellIndex subIndex type st)
     = unrecognizedMessage st
  /\ cellNotFoundMessage (applyVoiceCommand cellIndex subIndex type st)
     = cellNotFoundMessage st.
Proof.
  split.
  { intros i j. rewrite applyVoiceCommand_grid, entry_rows. unfold entry.
    destruct (nth_error (grid st) i) as [row|]; [|reflexivity].
    destruct (Num.isIndex i cellIndex); simpl.
    - rewrite nth_error_mapIndexed. reflexivity.
    - destruct (nth_error row j); reflexivity. }
  split; [reflexivity|]. split; [reflexivity|]. split; [reflexivity|].
  split.
  { rewrite applyVoiceCommand_grid. apply shaped_rows.
    intros row i. destruct (Num.isIndex i cellIndex); [|reflexivity].
    apply mapIndexed_length. }
  apply applyVoiceCommand_rest.
Qed.

(** X5. Applying toggle twice, to a whole cell or to a focused sub-cell,
    gives back the grid; turn-on and turn-off are idempotent, and the later
    of the two wins. *)
Theorem applyVoiceCommand_twice (cellIndex : number) (subIndex : option number)
    (st : AppState) :
  grid (applyVoiceCommand cellIndex subIndex actToggle
          (applyVoiceCommand cellIndex subIndex actToggle st)) = grid st
  /\ (forall first type,
         type <> actToggle ->
         grid (applyVoiceCommand cellIndex subIndex type
                 (applyVoiceCommand cellIndex subIndex first st))
         = grid (applyVoiceCommand cellIndex subIndex type st)).
Proof.
  split.
  - rewrite !applyVoiceCommand_grid. rewrite mapIndexed_compose.
    apply mapIndexed_unchanged. intros row i _ _.
    destruct (Num.isIndex i cellIndex); [|reflexivity].
    rewrite mapIndexed_compose. apply mapIndexed_unchanged. intros v k _ _.
    destruct (match subIndex with Some s => Num.isIndex k s | None => Nat.ltb k 9 end);
      [apply negb_involutive | reflexivity].
  - intros first type Htype. rewrite !applyVoiceCommand_grid. rewrite mapIndexed_compose.
    apply mapIndexed_ext. intros row i _ _.
    destruct (Num.isIndex i cellIndex); [|reflexivity].
    rewrite mapIndexed_compose. apply mapIndexed_ext. intros v k _ _.
    destruct (match subIndex with Some s => Num.isIndex k s | None => Nat.ltb k 9 end);
      [|reflexivity].
    destruct type; [contradiction | reflexivity | reflexivity].
Qed.

Lemma applyVoiceCommand_twice_witness :
  actTurnOff <> actToggle
  /\ grid (applyVoiceCommand (Int 2) None actTurnOff
             (applyVoiceCommand (Int 2) None actTurnOn initialState))
     = grid (applyVoiceCommand (Int 2) None actTurnOff initialState).
Proof.
  split; [discriminate|].
  apply (proj2 (@applyVoiceCommand_twice (Int 2) None initialState) actTurnOn actTurnOff).
  discriminate.
Defined.

(** ** The setters of the focus *)

Lemma filter_in_range (indices : list number) :
  forallb (inRange 0 8)
          (filter (fun i => (Num.geb i (Int 0) && Num.ltb i (Int SUB_PER_CELL))%bool) indices)
  = true.
Proof.
  induction indices as [|x xs IH]; cbn [filter]; [reflexivity|].
  destruct (Num.geb x (Int 0) && Num.ltb x (Int SUB_PER_CELL))%bool eqn:Hx; [|exact IH].
  cbn [forallb]. rewrite IH, andb_true_r.
  destruct x as [z|]; [|discriminate Hx].
  unfold SUB_PER_CELL in Hx. simpl in *.
  rewrite andb_true_iff, Z.leb_le, Z.ltb_lt in Hx.
  apply andb_true_iff. rewrite !Z.leb_le. lia.
Qed.

Lemma filter_keeps_valid (indices : list number) :
  forallb (inRange 0 8) indices = true ->
  filter (fun i => (Num.geb i (Int 0) && Num.ltb i (Int SUB_PER_CELL))%bool) indices = indices.
Proof.
  induction indices as [|x xs IH]; cbn [filter forallb]; [reflexivity|].
  rewrite andb_true_iff. intros [Hx Hxs].
  assert (Hkeep : (Num.geb x (Int 0) && Num.ltb x (Int SUB_PER_CELL))%bool = true).
  { destruct x as [z|]; [|discriminate Hx]. unfold SUB_PER_CELL. simpl in *.
    rewrite andb_true_iff, !Z.leb_le in Hx.
    apply andb_true_iff. rewrite Z.leb_le, Z.ltb_lt. lia. }
  rewrite Hkeep, (IH Hxs). reflexivity.
Qed.

Lemma setActiveCell_good (z : Z) (st : AppState) :
  goodFocus (focus (setActiveCell (Int z) st)) = true.
Proof.
  unfold goodFocus. simpl. rewrite !andb_true_r.
  apply andb_true_iff. rewrite !Z.leb_le. lia.
Qed.

Lemma setFocusedSub_good (subIndex : option number) (st : AppState) :
  match subIndex with Some i => isInteger i | None => true end = true ->
  goodFocus (focus st) = true ->
  goodFocus (focus (setFocusedSub subIndex st)) = true.
Proof.
  intros Hint Hgood. unfold setFocusedSub.
  destruct subIndex as [[z|]|]; try discriminate Hint.
  - simpl. unfold SUB_PER_CELL.
    destruct (Z.ltb_spec z 0); simpl; [exact Hgood|].
    destruct (Z.leb_spec 9 z); simpl; [exact Hgood|].
    unfold goodFocus in *. simpl.
    apply andb_true_iff in Hgood. destruct Hgood as [Hgood Hsel].
    apply andb_true_iff in Hgood. destruct Hgood as [Hact _].
    rewrite Hact, Hsel. simpl. rewrite andb_true_r.
    apply andb_true_iff. rewrite !Z.leb_le. lia.
  - unfold goodFocus in *. simpl.
    apply andb_true_iff in Hgood. destruct Hgood as [Hgood Hsel].
    apply andb_true_iff in Hgood. destruct Hgood as [Hact _].
    rewrite Hact, Hsel. reflexivity.
Qed.

Lemma setSelectedSubIndices_good (indices : list number) (st : AppState) :
  goodFocus (focus st) = true ->
  goodFocus (focus (setSelectedSubIndices indices st)) = true.
Proof.
  intros Hgood. unfold goodFocus in *. simpl.
  apply andb_true_iff in Hgood. destruct Hgood as [Hgood _].
  rewrite Hgood. simpl. apply filter_in_range.
Qed.

(** X6. The setters validate what they store.  [setActiveCell] stores a cell
    of 0..23 for every integer; [setFocusedSub] ignores an integer outside
    0..8 and stores one inside; [setSelectedSubIndices] drops every element
    that is not an integer of 0..8 and keeps a list of such integers as it
    is.  So a focus inside the grid stays inside, and none of them touches
    the grid. *)
Theorem setters_validate (z : Z) (indices : list number) (st : AppState) :
  goodFocus (focus st) = true ->
  goodFocus (focus (setActiveCell (Int z) st)) = true
  /\ goodFocus (focus (setFocusedSub (Some (Int z)) st)) = true
  /\ goodFocus (focus (setSelectedSubIndices indices st)) = true
  /\ (inRange 0 8 (Int z) = false -> setFocusedSub (Some (Int z)) st = st)
  /\ (inRange 0 8 (Int z) = true ->
      focusedSubIndex (focus (setFocusedSub (Some (Int z)) st)) = Some (Int z))
  /\ forallb (inRange 0 8) (selectedSubIndices (focus (setSelectedSubIndices indices st)))
     = true
  /\ (forallb (inRange 0 8) indices = true ->
      selectedSubIndices (focus (setSelectedSubIndices indices st)) = indices)
  /\ grid (setActiveCell (Int z) st) = grid st
  /\ grid (setFocusedSub (Some (Int z)) st) = grid st
  /\ grid (setSelectedSubIndices indices st) = grid st.
Proof.
  intros Hgood.
  split; [apply setActiveCell_good|].
  split; [apply setFocusedSub_good; [reflexivity | exact Hgood]|].
  split; [apply setSelectedSubIndices_good; exact Hgood|].
  split.
  { simpl. intros H. unfold setFocusedSub. simpl. unfold SUB_PER_CELL.
    apply andb_false_iff in H. rewrite !Z.leb_gt in H.
    destruct (Z.ltb_spec z 0); simpl; [reflexivity|].
    destruct (Z.leb_spec 9 z); simpl; [reflexivity|lia]. }
  split.
  { simpl. intros H. unfold setFocusedSub. simpl. unfold SUB_PER_CELL.
    apply andb_true_iff in H. rewrite !Z.leb_le in H.
    destruct (Z.ltb_spec z 0); simpl; [lia|].
    destruct (Z.leb_spec 9 z); simpl; [lia|reflexivity]. }
  split; [apply filter_in_range|].
  split; [intros H; simpl; apply filter_keeps_valid; exact H|].
  split; [reflexivity|].
  split; [|reflexivity].
  unfold setFocusedSub. simpl.
  destruct (Z.ltb z 0 || Z.leb SUB_PER_CELL z)%bool; reflexivity.
Qed.

Lemma setters_validate_witness :
  goodFocus (focus initialState) = true
  /\ goodFocus (focus (setActiveCell (Int 40) initialState)) = true
  /\ setFocusedSub (Some (Int 9)) initialState = initialState
  /\ selectedSubIndices
       (focus (setSelectedSubIndices [Int 2; Int 9; NaN; Int 0] initialState))
     = [Int 2; Int 0].
Proof.
  pose proof (@setters_validate 40 [] initialState eq_refl) as H40.
  pose proof (@setters_validate 9 [] initialState eq_refl) as H9.
  split; [reflexivity|]. split; [apply H40|].
  split; [apply H9; reflexivity | reflexivity].
Defined.

(** ** The dispatcher *)

Lemma setFocusedSub_rest (subIndex : option number) (st : AppState) :
  grid (setFocusedSub subIndex st) = grid st
  /\ lastCommandFlash (setFocusedSub subIndex st) = lastCommandFlash st
  /\ unrecognizedMessage (setFocusedSub subIndex st) = unrecognizedMessage st
  /\ cellNotFoundMessage (setFocusedSub subIndex st) = cellNotFoundMessage st.
Proof.
  unfold setFocusedSub. destruct subIndex as [i|]; [|repeat split; reflexivity].
  destruct (Num.ltb i (Int 0) || Num.geb i (Int SUB_PER_CELL))%bool;
    repeat split; reflexivity.
Qed.

(** X7. What the dispatcher leaves alone: only toggle, turn-on and turn-off
    write to the grid; only the navigation and selection commands write to
    the focus; only a CellNotFound writes its message; no command writes the
    not-understood message.  A null command writes nothing but the
    not-understood message, and that only when the transcript is not
    blank. *)
Theorem handleVoiceCommand_frame (cmd : VoiceCommand) (heard : string) (st : AppState) :
  (writesGrid cmd = false -> grid (handleVoiceCommand (Some cmd) heard st) = grid st)
  /\ (writesFocus cmd = false -> focus (handleVoiceCommand (Some cmd) heard st) = focus st)
  /\ match cmd with
     | cellNotFound _ => True
     | _ => cellNotFoundMessage (handleVoiceCommand (Some cmd) heard st)
            = cellNotFoundMessage st
     end
  /\ unrecognizedMessage (handleVoiceCommand (Some cmd) heard st) = unrecognizedMessage st
  /\ grid (handleVoiceCommand None heard st) = grid st
  /\ focus (handleVoiceCommand None heard st) = focus st
  /\ lastCommandFlash (handleVoiceCommand None heard st) = lastCommandFlash st
  /\ cellNotFoundMessage (handleVoiceCommand None heard st) = cellNotFoundMessage st
  /\ (Str.trim heard = EmptyString -> handleVoiceCommand None heard st = st)
  /\ (Str.trim heard <> EmptyString ->
      unrecognizedMessage (handleVoiceCommand None heard st) = Some notUnderstood).
Proof.
  assert (Hnull : forall A (a b : A),
             (if negb (String.eqb (Str.trim heard) EmptyString) then a else b)
             = if String.eqb (Str.trim heard) EmptyString then b else a).
  { intros. destruct (String.eqb (Str.trim heard) EmptyString); reflexivity. }
  split.
  { intros H; destruct cmd; try discriminate H; try reflexivity.
    cbv beta iota delta [handleVoiceCommand]. apply setFocusedSub_rest. }
  split.
  { intros H; destruct cmd; try discriminate H; try reflexivity;
      cbv beta iota delta [handleVoiceCommand]; apply applyVoiceCommand_rest. }
  split.
  { destruct cmd; try exact I; try reflexivity;
      cbv beta iota delta [handleVoiceCommand];
      try apply applyVoiceCommand_rest; apply setFocusedSub_rest. }
  split.
  { destruct cmd; try reflexivity;
      cbv beta iota delta [handleVoiceCommand];
      try apply applyVoiceCommand_rest; apply setFocusedSub_rest. }
  unfold handleVoiceCommand. rewrite !Hnull.
  destruct (String.eqb_spec (Str.trim heard) EmptyString) as [Hblank | Hsaid];
    repeat split; try reflexivity; intros H; congruence.
Qed.

Lemma handleVoiceCommand_frame_witness :
  writesGrid (goToCell (Int 3)) = false
  /\ grid (handleVoiceCommand (Some (goToCell (Int 3))) "cell 4" initialState)
     = grid initialState.
Proof.
  split; [reflexivity|].
  apply (proj1 (@handleVoiceCommand_frame (goToCell (Int 3)) "cell 4" initialState)).
  reflexivity.
Defined.

(** X8. Navigation saturates at the ends of the grid and does not wrap: from
    the active cell a of 0..23, NextCell goes to min(23, a+1) and PrevCell to
    max(0, a-1); two NextCell commands give the state of one GoToCell(a+2);
    PrevCell undoes NextCell except from the last cell. *)
Theorem navigation_saturates (a : Z) (heard : string) (st : AppState) :
  activeCellIndex (focus st) = Int a ->
  0 <= a <= 23 ->
  activeCellIndex (focus (handleVoiceCommand (Some nextCell) heard st))
  = Int (Z.min 23 (a + 1))
  /\ activeCellIndex (focus (handleVoiceCommand (Some prevCell) heard st))
     = Int (Z.max 0 (a - 1))
  /\ handleVoiceCommand (Some nextCell) heard (handleVoiceCommand (Some nextCell) heard st)
     = handleVoiceCommand (Some (goToCell (Int (a + 2)))) heard st
  /\ (a <= 22 ->
      activeCellIndex
        (focus (handleVoiceCommand (Some prevCell) heard
                  (handleVoiceCommand (Some nextCell) heard st))) = Int a)
  /\ (a = 23 ->
      activeCellIndex
        (focus (handleVoiceCommand (Some prevCell) heard
                  (handleVoiceCommand (Some nextCell) heard st))) = Int 22).
Proof.
  intros Hact Ha.
  unfold handleVoiceCommand, triggerCommandFlash, setActiveCell, setFocus. simpl.
  rewrite Hact. simpl.
  change MAIN_COUNT with 24.
  assert (Hint : forall x y : Z, x = y -> Int x = Int y) by (intros; subst; reflexivity).
  repeat split; try intros Hedge;
    try (apply Hint; lia).
  apply (f_equal (fun f => mkApp (grid st) f true (unrecognizedMessage st)
                                 (cellNotFoundMessage st))).
  apply (f_equal (fun n => mkFocus n None [])). apply Hint. lia.
Qed.

Lemma navigation_saturates_witness :
  activeCellIndex (focus initialState) = Int 0
  /\ 0 <= 0 <= 23
  /\ handleVoiceCommand (Some nextCell) "next cell"
       (handleVoiceCommand (Some nextCell) "next cell" initialState)
     = handleVoiceCommand (Some (goToCell (Int (0 + 2)))) "next cell" initialState.
Proof.
  split; [reflexivity|]. split; [lia|].
  apply (@navigation_saturates 0 "next cell" initialState); [reflexivity | lia].
Defined.

(** ** Feedback for a cell that does not exist *)

Lemma interpret_wellFormed (text : string) :
  exists result, interpret text = Return result /\ wellFormedResult result = true.
Proof.
  unfold interpret, parseVoiceCommand.
  destruct (falsy (VString text) || negb (typeofString (VString text)))%bool;
    [exists None; auto|].
  cbv zeta. apply runStatements_ok.
  repeat apply Forall_cons; try apply Forall_nil;
    auto using nextCellStmt_ok, prevCellStmt_ok, selectCellStmt_ok, toggleSubCellStmt_ok,
      goToCellStmt_ok, subCellsStmt_ok, selectSubStmt_ok, boxNumStmt_ok, toggleAllStmt_ok,
      turnOnStmt_ok, turnOffStmt_ok.
Qed.

Lemma select_cell_not_found_cases :
  Forall (fun n => interpret ("select cell " ++ Num.toString n)
                   = Return (Some (cellNotFound (Int n))))
         (0 :: spoken 25 75).
Proof.
  apply Forall_cons; [vm_compute; reflexivity|]. each_spoken.
Qed.

(** X9. Saying "select cell n" for n = 0 or n in 25..99 sets the message
    "Cell n not found. Cells are 1 to 24." and changes nothing else: the
    active cell, the focus, the grid and the flash stay. *)
Theorem missing_cell_is_reported (n : Z) (st : AppState) :
  n = 0 \/ 25 <= n <= 99 ->
  onFinal ("select cell " ++ Num.toString n) st
  = mkApp (grid st) (focus st) (lastCommandFlash st) (unrecognizedMessage st)
          (Some ("Cell " ++ Num.toString n ++ " not found. Cells are 1 to 24.")).
Proof.
  intros Hn.
  assert (Hparse : interpret ("select cell " ++ Num.toString n)
                   = Return (Some (cellNotFound (Int n)))).
  { pose proof select_cell_not_found_cases as Hall.
    inversion_clear Hall as [|? ? H0 Hrest].
    destruct Hn as [-> | Hn]; [exact H0|].
    apply (@spoken_all _ 25 75 Hrest). lia. }
  unfold onFinal. rewrite Hparse. reflexivity.
Qed.

Lemma missing_cell_is_reported_witness :
  (30 = 0 \/ 25 <= 30 <= 99)
  /\ onFinal ("select cell " ++ Num.toString 30) initialState
     = mkApp (grid initialState) (focus initialState) (lastCommandFlash initialState)
             (unrecognizedMessage initialState)
             (Some ("Cell " ++ Num.toString 30 ++ " not found. Cells are 1 to 24.")).
Proof.
  split; [right; lia|].
  apply (@missing_cell_is_reported 30 initialState). right. lia.
Defined.

(** ** The state stays inside the grid *)

Lemma goodState_iff (st : AppState) :
  goodState st = true <-> shaped (grid st) = true /\ goodFocus (focus st) = true.
Proof. unfold goodState. apply andb_true_iff. Qed.

Lemma goodFocus_active (f : GridFocus) :
  goodFocus f = true -> exists a, activeCellIndex f = Int a /\ 0 <= a <= 23.
Proof.
  unfold goodFocus. rewrite !andb_true_iff. intros [[Hact _] _].
  destruct (activeCellIndex f) as [a|]; [|discriminate Hact].
  exists a. split; [reflexivity|].
  simpl in Hact. rewrite andb_true_iff, !Z.leb_le in Hact. exact Hact.
Qed.

Lemma goodFocus_focused (f : GridFocus) (s : number) :
  goodFocus f = true -> focusedSubIndex f = Some s -> inRange 0 8 s = true.
Proof.
  unfold goodFocus. rewrite !andb_true_iff. intros [[_ Hsub] _] Hs.
  rewrite Hs in Hsub. exact Hsub.
Qed.

Lemma applyVoiceCommand_good (c : number) (sub : option number) (type : SubAction)
    (st : AppState) :
  goodState st = true -> goodState (applyVoiceCommand c sub type st) = true.
Proof.
  rewrite !goodState_iff. intros [Hshape Hfocus]. split.
  - rewrite applyVoiceCommand_grid, shaped_rows; [exact Hshape|].
    intros row i. destruct (Num.isIndex i c); [|reflexivity].
    apply mapIndexed_length.
  - destruct (applyVoiceCommand_rest c sub type st) as [-> _]. exact Hfocus.
Qed.

Lemma setActiveCell_goodState (z : Z) (st : AppState) :
  goodState st = true -> goodState (setActiveCell (Int z) st) = true.
Proof.
  rewrite !goodState_iff. intros [Hshape _].
  split; [exact Hshape | apply setActiveCell_good].
Qed.

Lemma setFocusedSub_goodState (s : number) (st : AppState) :
  isInteger s = true ->
  goodState st = true -> goodState (setFocusedSub (Some s) st) = true.
Proof.
  rewrite !goodState_iff. intros Hs [Hshape Hfocus]. split.
  - destruct (setFocusedSub_rest (Some s) st) as [-> _]. exact Hshape.
  - apply setFocusedSub_good; assumption.
Qed.

Lemma toggleSub_goodState (c s : number) (value : option bool) (st : AppState) :
  goodState st = true -> goodState (toggleSub c s value st) = true.
Proof.
  rewrite !goodState_iff, toggleSub_grid. simpl. rewrite toggledGrid_shaped. auto.
Qed.

Lemma inRange_integer (lo hi : Z) (n : number) :
  inRange lo hi n = true -> isInteger n = true.
Proof. destruct n; [reflexivity | discriminate]. Qed.

Lemma handleVoiceCommand_good (cmd : option VoiceCommand) (heard : string) (st : AppState) :
  wellFormedResult cmd = true ->
  goodState st = true ->
  goodState (handleVoiceCommand cmd heard st) = true.
Proof.
  intros Hcmd Hgood.
  destruct (goodFocus_active (focus st)) as (a & Hact & Ha);
    [apply goodState_iff in Hgood; apply Hgood|].
  destruct cmd as [cmd|].
  - destruct cmd as [ | | target | requested | target | indices | target action | | | ];
      cbv beta iota delta [handleVoiceCommand]; rewrite ?Hact;
      simpl in Hcmd; try exact Hgood.
    + apply (setActiveCell_goodState (a + 1) st Hgood).
    + apply (setActiveCell_goodState (a - 1) st Hgood).
    + destruct target as [z|]; [|discriminate Hcmd].
      apply (setActiveCell_goodState z st Hgood).
    + apply (setFocusedSub_goodState target st (inRange_integer _ _ _ Hcmd) Hgood).
    + apply goodState_iff in Hgood. destruct Hgood as [Hshape Hfocus].
      apply goodState_iff. split; [exact Hshape|].
      apply (setSelectedSubIndices_good indices st Hfocus).
    + apply (applyVoiceCommand_good (Int a) (focusedSubIndex (focus st)) actToggle st Hgood).
    + apply (applyVoiceCommand_good (Int a) (focusedSubIndex (focus st)) actTurnOn st Hgood).
    + apply (applyVoiceCommand_good (Int a) (focusedSubIndex (focus st)) actTurnOff st Hgood).
  - unfold handleVoiceCommand.
    destruct (negb (String.eqb (Str.trim heard) EmptyString)); exact Hgood.
Qed.

Lemma onFinal_good (final : string) (st : AppState) :
  goodState st = true -> goodState (onFinal final st) = true.
Proof.
  intros Hgood. unfold onFinal.
  destruct (String.eqb final EmptyString); [exact Hgood|].
  destruct (interpret_wellFormed final) as (result & -> & Hresult).
  apply handleVoiceCommand_good; assumption.
Qed.

Lemma keydownHandler_good (e : KeyboardEvent) (st : AppState) :
  goodState st = true -> goodState (keydownHandler e st) = true.
Proof.
  intros Hgood.
  destruct (goodFocus_active (focus st)) as (a & Hact & Ha);
    [apply goodState_iff in Hgood; apply Hgood|].
  unfold keydownHandler. cbv zeta. rewrite Hact.
  destruct (onControl e); [exact Hgood|].
  repeat match goal with
         | |- goodState (if ?b then _ else _) = true => destruct b
         end;
    try exact Hgood;
    try (apply (setActiveCell_goodState _ st Hgood)).
  destruct (focusedSubIndex (focus st)) as [s|]; [|exact Hgood].
  apply toggleSub_goodState. exact Hgood.
Qed.

Lemma nat_in_range (k bound : nat) (hi : Z) :
  Nat.ltb k bound = true -> Z.of_nat bound - 1 = hi ->
  inRange 0 hi (Int (Z.of_nat k)) = true.
Proof.
  intros Hk <-. apply Nat.ltb_lt in Hk. simpl.
  apply andb_true_iff. rewrite !Z.leb_le. lia.
Qed.

Lemma subCellOnClick_good (cell sub : nat) (st : AppState) :
  goodState st = true -> goodState (subCellOnClick cell sub st) = true.
Proof.
  intros Hgood. unfold subCellOnClick, onSubFocus, onSubClick.
  apply setFocusedSub_goodState; [reflexivity|].
  apply setFocusedSub_goodState; [reflexivity|].
  apply setActiveCell_goodState. exact Hgood.
Qed.

Lemma react_good (ev : Event) (st : AppState) :
  goodState st = true -> goodState (react st ev) = true.
Proof.
  intros Hgood. destruct ev as [final | e | cell | cell sub | cell sub]; simpl.
  - apply onFinal_good. exact Hgood.
  - apply keydownHandler_good. exact Hgood.
  - apply setActiveCell_goodState. exact Hgood.
  - unfold buttonClick, subCellOnToggle, onSubToggle.
    apply toggleSub_goodState. apply subCellOnClick_good. exact Hgood.
  - apply subCellOnClick_good. exact Hgood.
Qed.

(** X10. The state never leaves the grid.  The initial state has a grid of
    24 cells of 9 sub-cells, an active cell in 0..23, a focused sub-cell that
    is absent or in 0..8 and selected sub-cells in 0..8; and so has every
    state reached from such a state by utterances (whatever is said), key
    presses, and clicks on cells and sub-cell buttons, in any order. *)
Theorem state_stays_in_grid (events : list Event) (st : AppState) :
  goodState st = true ->
  goodState initialState = true
  /\ goodState (fold_left react events st) = true.
Proof.
  intros Hgood. split; [reflexivity|].
  revert st Hgood. induction events as [|ev events IH]; intros st Hgood; simpl.
  - exact Hgood.
  - apply IH. apply react_good. exact Hgood.
Qed.

Lemma state_stays_in_grid_witness :
  goodState initialState = true
  /\ goodState
       (fold_left react
          [Said "select cell 24"; Pressed (mkKey "ArrowDown" false); Said "select 9";
           Said "toggle cell nine"; ButtonClicked 30 12; Said "turn on"]
          initialState) = true.
Proof.
  split; [reflexivity|].
  apply (@state_stays_in_grid
           [Said "select cell 24"; Pressed (mkKey "ArrowDown" false); Said "select 9";
            Said "toggle cell nine"; ButtonClicked 30 12; Said "turn on"]
           initialState).
  reflexivity.
Defined.

(** ** Keyboard and mouse *)

(** X11. The arrow keys move the active cell by one cell or by one row of
    twelve and saturate at the ends of the grid, clearing the focused and the
    selected sub-cells and leaving the grid: from the active cell a of 0..23,
    right goes to min(23, a+1), left to max(0, a-1), down to min(23, a+12)
    and up to max(0, a-12); so down from the second row goes to the last
    cell and up from the first row to the first cell.  A key pressed on a
    button or an input changes nothing. *)
Theorem arrow_keys_saturate (a : Z) (st : AppState) :
  activeCellIndex (focus st) = Int a ->
  0 <= a <= 23 ->
  keydownHandler (mkKey "ArrowRight" false) st
  = mkApp (grid st) (mkFocus (Int (Z.min 23 (a + 1))) None []) (lastCommandFlash st)
          (unrecognizedMessage st) (cellNotFoundMessage st)
  /\ keydownHandler (mkKey "ArrowLeft" false) st
     = mkApp (grid st) (mkFocus (Int (Z.max 0 (a - 1))) None []) (lastCommandFlash st)
             (unrecognizedMessage st) (cellNotFoundMessage st)
  /\ keydownHandler (mkKey "ArrowDown" false) st
     = mkApp (grid st) (mkFocus (Int (Z.min 23 (a + 12))) None []) (lastCommandFlash st)
             (unrecognizedMessage st) (cellNotFoundMessage st)
  /\ keydownHandler (mkKey "ArrowUp" false) st
     = mkApp (grid st) (mkFocus (Int (Z.max 0 (a - 12))) None []) (lastCommandFlash st)
             (unrecognizedMessage st) (cellNotFoundMessage st)
  /\ (12 <= a -> Z.min 23 (a + 12) = 23)
  /\ (a <= 11 -> Z.max 0 (a - 12) = 0)
  /\ (forall pressed : string, keydownHandler (mkKey pressed true) st = st).
Proof.
  intros Hact Ha.
  assert (Hmove : forall x y : Z,
             x = y ->
             mkApp (grid st) (mkFocus (Int x) None []) (lastCommandFlash st)
                   (unrecognizedMessage st) (cellNotFoundMessage st)
             = mkApp (grid st) (mkFocus (Int y) None []) (lastCommandFlash st)
                     (unrecognizedMessage st) (cellNotFoundMessage st))
    by (intros; subst; reflexivity).
  unfold keydownHandler, setActiveCell, setFocus. simpl. rewrite Hact. simpl.
  change MAIN_COUNT with 24. change MAIN_COLS with 12.
  repeat split; try (apply Hmove; lia); intros; lia.
Qed.

Lemma arrow_keys_saturate_witness :
  activeCellIndex (focus initialState) = Int 0
  /\ 0 <= 0 <= 23
  /\ keydownHandler (mkKey "ArrowUp" false) initialState
     = mkApp (grid initialState) (mkFocus (Int (Z.max 0 (0 - 12))) None [])
             (lastCommandFlash initialState) (unrecognizedMessage initialState)
             (cellNotFoundMessage initialState).
Proof.
  split; [reflexivity|]. split; [lia|].
  apply (@arrow_keys_saturate 0 initialState); [reflexivity | lia].
Defined.

(** X12. Enter and Space negate the focused sub-cell of the active cell and
    nothing else; with no focused sub-cell they change nothing, and pressing
    the key twice gives back the state. *)
Theorem enter_toggles_focused (pressed : string) (st : AppState) :
  pressed = "Enter" \/ pressed = " " ->
  (focusedSubIndex (focus st) = None -> keydownHandler (mkKey pressed false) st = st)
  /\ (forall i j,
         entry (grid (keydownHandler (mkKey pressed false) st)) i j
         = option_map
             (fun v => if (Num.isIndex i (activeCellIndex (focus st))
                           && match focusedSubIndex (focus st) with
                              | Some s => Num.isIndex j s
                              | None => false
                              end)%bool
                       then negb v else v)
             (entry (grid st) i j))
  /\ focus (keydownHandler (mkKey pressed false) st) = focus st
  /\ keydownHandler (mkKey pressed false) (keydownHandler (mkKey pressed false) st) = st.
Proof.
  intros Hkey.
  assert (Hrun : keydownHandler (mkKey pressed false) st
                 = match focusedSubIndex (focus st) with
                   | Some s => toggleSub (activeCellIndex (focus st)) s None st
                   | None => st
                   end).
  { destruct Hkey as [-> | ->]; reflexivity. }
  assert (Hagain : forall st', keydownHandler (mkKey pressed false) st'
                               = match focusedSubIndex (focus st') with
                                 | Some s => toggleSub (activeCellIndex (focus st')) s None st'
                                 | None => st'
                                 end).
  { intros st'. destruct Hkey as [-> | ->]; reflexivity. }
  split; [intros Hnone; rewrite Hrun, Hnone; reflexivity|].
  split.
  { intros i j. rewrite Hrun.
    destruct (focusedSubIndex (focus st)) as [s|].
    - rewrite toggleSub_grid. simpl. apply entry_toggledGrid.
    - rewrite andb_false_r. destruct (entry (grid st) i j); reflexivity. }
  split.
  { rewrite Hrun. destruct (focusedSubIndex (focus st)); reflexivity. }
  rewrite Hagain, Hrun.
  destruct (focusedSubIndex (focus st)) as [s|] eqn:Hs.
  - rewrite toggleSub_grid at 1. simpl. rewrite Hs.
    rewrite !toggleSub_grid. simpl. rewrite toggledGrid_twice.
    symmetry. apply AppState_eta.
  - rewrite Hs. reflexivity.
Qed.

Lemma enter_toggles_focused_witness :
  ("Enter" = "Enter" \/ "Enter" = " ")
  /\ keydownHandler (mkKey "Enter" false)
       (keydownHandler (mkKey "Enter" false) (onFinal "select 5" initialState))
     = onFinal "select 5" initialState.
Proof.
  split; [left; reflexivity|].
  apply (@enter_toggles_focused "Enter" (onFinal "select 5" initialState)).
  left. reflexivity.
Defined.

(** X13. A click on the button of sub-cell [sub] of cell [cell], for a cell
    and a sub-cell the grid renders, makes the cell active, focuses the
    sub-cell, clears the selection and negates that one sub-cell; every other
    sub-cell keeps its value. *)
Theorem button_click_selects_and_toggles (cell sub : nat) (st : AppState) :
  (cell < 24)%nat -> (sub < 9)%nat ->
  focus (buttonClick cell sub st)
  = mkFocus (Int (Z.of_nat cell)) (Some (Int (Z.of_nat sub))) []
  /\ (forall i j,
         entry (grid (buttonClick cell sub st)) i j
         = option_map (fun v => if (Nat.eqb i cell && Nat.eqb j sub)%bool then negb v else v)
                      (entry (grid st) i j))
  /\ focus (buttonFocus cell sub st)
     = mkFocus (Int (Z.of_nat cell)) (Some (Int (Z.of_nat sub))) []
  /\ grid (buttonFocus cell sub st) = grid st.
Proof.
  intros Hcell Hsub.
  assert (Hclick : subCellOnClick cell sub st
                   = mkApp (grid st) (mkFocus (Int (Z.of_nat cell)) (Some (Int (Z.of_nat sub))) [])
                           (lastCommandFlash st) (unrecognizedMessage st)
                           (cellNotFoundMessage st)).
  { unfold subCellOnClick, onSubFocus, onSubClick, setFocusedSub, setActiveCell, setFocus.
    simpl. change MAIN_COUNT with 24. change SUB_PER_CELL with 9.
    destruct (Z.ltb_spec (Z.of_nat sub) 0); [lia|].
    destruct (Z.leb_spec 9 (Z.of_nat sub)); [lia|]. simpl.
    replace (Z.max 0 (Z.min 23 (Z.of_nat cell))) with (Z.of_nat cell) by lia.
    reflexivity. }
  unfold buttonClick, buttonFocus, subCellOnToggle, onSubToggle.
  rewrite Hclick, toggleSub_grid. simpl.
  split; [reflexivity|]. split; [|split; reflexivity].
  intros i j. rewrite entry_toggledGrid, !isIndex_of_nat. reflexivity.
Qed.

Lemma button_click_selects_and_toggles_witness :
  (3 < 24)%nat /\ (4 < 9)%nat
  /\ focus (buttonClick 3 4 initialState)
     = mkFocus (Int (Z.of_nat 3)) (Some (Int (Z.of_nat 4))) [].
Proof.
  split; [lia|]. split; [lia|].
  apply (@button_click_selects_and_toggles 3 4 initialState); lia.
Defined.

(** ** The speech hook *)

Lemma collect_interim (results : list SpeechResult) :
  forallb (fun r => negb (isFinal r)) results = true ->
  forall final interim,
    fst (collect results final interim) = final.
Proof.
  induction results as [|r results IH]; simpl; intros Hall final interim; [reflexivity|].
  apply andb_true_iff in Hall. destruct Hall as [Hr Hall].
  destruct (isFinal r); [discriminate Hr|].
  apply IH. exact Hall.
Qed.

(** X14. Interim results never reach the interpreter: when no entry of an
    event from [resultIndex] on is final, the application state is left as it
    is, and so are the last recognized text, the listening flag and the
    error; the transcript only grows. *)
Theorem interim_results_are_display_only (resultIndex : nat) (results : list SpeechResult)
    (v : VoiceState) (app : AppState) :
  forallb (fun r => negb (isFinal r)) (skipn resultIndex results) = true ->
  snd (onresult resultIndex results (v, app)) = app
  /\ lastRecognized (fst (onresult resultIndex results (v, app))) = lastRecognized v
  /\ isListening (fst (onresult resultIndex results (v, app))) = isListening v
  /\ error (fst (onresult resultIndex results (v, app))) = error v
  /\ prefix (transcript v) (transcript (fst (onresult resultIndex results (v, app)))) = true.
Proof.
  intros Hall. unfold onresult.
  pose proof (collect_interim _ Hall EmptyString EmptyString) as Hfinal.
  destruct (collect (skipn resultIndex results) EmptyString EmptyString) as [final interim].
  simpl in Hfinal. subst final. simpl.
  unfold appendInterim.
  assert (Hself : forall s, prefix s s = true).
  { intros s. apply (proj2 (prefix_correct s s)).
    induction s as [|c s IH]; simpl; [reflexivity|]. rewrite IH. reflexivity. }
  assert (Hgrow : forall s t, prefix s (s ++ t) = true).
  { induction s as [|c s IH]; intros t; simpl; [destruct t; reflexivity|].
    destruct (ascii_dec c c); [apply IH | contradiction]. }
  destruct (String.eqb interim EmptyString); simpl; repeat split; auto.
Qed.

Lemma interim_results_are_display_only_witness :
  forallb (fun r => negb (isFinal r))
          (skipn 1 [mkSpeech (Some "next cell") true; mkSpeech (Some "turn") false]) = true
  /\ snd (onresult 1 [mkSpeech (Some "next cell") true; mkSpeech (Some "turn") false]
            (mkVoice true "next cell " "next cell" None, initialState))
     = initialState.
Proof.
  split; [reflexivity|].
  apply (@interim_results_are_display_only 1
           [mkSpeech (Some "next cell") true; mkSpeech (Some "turn") false]
           (mkVoice true "next cell " "next cell" None) initialState).
  reflexivity.
Defined.

(** ** Families of utterances *)

Lemma actionEqb_eq (a b : SubAction) : actionEqb a b = true -> a = b.
Proof. destruct a, b; simpl; intros H; try discriminate H; reflexivity. Qed.

Lemma numbersEqb_eq (xs : list number) :
  forall ys, numbersEqb xs ys = true -> xs = ys.
Proof.
  induction xs as [|x xs IH]; intros [|y ys] H; simpl in H; try discriminate H;
    [reflexivity|].
  apply andb_true_iff in H. destruct H as [Hx Hxs].
  apply sameValueZero_eq in Hx. rewrite Hx, (IH _ Hxs). reflexivity.
Qed.

Lemma commandEqb_eq (a b : VoiceCommand) : commandEqb a b = true -> a = b.
Proof.
  destruct a, b; simpl; intros H; try discriminate H; try reflexivity.
  - apply sameValueZero_eq in H. congruence.
  - apply sameValueZero_eq in H. congruence.
  - apply sameValueZero_eq in H. congruence.
  - apply numbersEqb_eq in H. congruence.
  - apply andb_true_iff in H. destruct H as [Hx Hk].
    apply sameValueZero_eq in Hx. apply actionEqb_eq in Hk. congruence.
Qed.

Lemma resultEqb_eq (a b : completion (option VoiceCommand)) : resultEqb a b = true -> a = b.
Proof.
  destruct a as [[x|]|], b as [[y|]|]; simpl; intros H; try discriminate H;
    try reflexivity.
  apply commandEqb_eq in H. congruence.
Qed.

Lemma spoken_in (lo : Z) (count : nat) (n : Z) :
  lo <= n < lo + Z.of_nat count -> In n (spoken lo count).
Proof.
  intros Hn. unfold spoken. apply in_map_iff.
  exists (Z.to_nat (n - lo)). split; [lia|]. apply in_seq. lia.
Qed.

(** X15. "row r column c" and "row r col c" address the cell of row r and
    column c: for a one-digit r and c up to 99 the utterance is interpreted as
    GoToCell((r-1)*12 + (c-1)) when r is 1 or 2 and c is in 1..12, and as
    None otherwise; a row or column outside the grid is not clamped. *)
Theorem row_column_addressing (r c : Z) (word : string) :
  0 <= r <= 9 -> 0 <= c <= 99 -> In word columnWords ->
  interpret ("row " ++ Num.toString r ++ word ++ Num.toString c)
  = Return (rowColumnCell r c).
Proof.
  intros Hr Hc Hword.
  assert (Hall : forallb (fun r =>
                   forallb (fun c =>
                     forallb (fun word =>
                       resultEqb (interpret ("row " ++ Num.toString r ++ word
                                             ++ Num.toString c))
                                 (Return (rowColumnCell r c)))
                       columnWords)
                     (spoken 0 100))
                   (spoken 0 10) = true)
    by (vm_compute; reflexivity).
  rewrite forallb_forall in Hall.
  specialize (Hall r (@spoken_in 0 10 r ltac:(lia))).
  rewrite forallb_forall in Hall.
  specialize (Hall c (@spoken_in 0 100 c ltac:(lia))).
  rewrite forallb_forall in Hall.
  apply resultEqb_eq. apply Hall. exact Hword.
Qed.

Lemma row_column_addressing_witness :
  0 <= 2 <= 9 /\ 0 <= 3 <= 99 /\ In " column " columnWords
  /\ interpret ("row " ++ Num.toString 2 ++ " column " ++ Num.toString 3)
     = Return (rowColumnCell 2 3).
Proof.
  split; [lia|]. split; [lia|]. split; [left; reflexivity|].
  apply (@row_column_addressing 2 3 " column "); [lia | lia | left; reflexivity].
Defined.

(** X16. The box rule: for each of the words check, mark, uncheck, clear and
    toggle and each digit d of 1..9, "<word> box d" and "<word> box number d"
    are interpreted as ApplyToSub(d-1) with the action TurnOn for check and
    mark, TurnOff for uncheck and clear, and Toggle for toggle. *)
Theorem box_rule (word phrase : string) (action : SubAction) (d : Z) :
  In (word, action) boxWords -> In phrase boxPhrases -> 1 <= d <= 9 ->
  interpret (word ++ phrase ++ Num.toString d)
  = Return (Some (applyToSub (Int (d - 1)) action)).
Proof.
  intros Hword Hphrase Hd.
  assert (Hall : forallb (fun entry =>
                   forallb (fun phrase =>
                     forallb (fun d =>
                       resultEqb (interpret (fst entry ++ phrase ++ Num.toString d))
                                 (Return (Some (applyToSub (Int (d - 1)) (snd entry)))))
                       (spoken 1 9))
                     boxPhrases)
                   boxWords = true)
    by (vm_compute; reflexivity).
  rewrite forallb_forall in Hall. specialize (Hall _ Hword).
  rewrite forallb_forall in Hall. specialize (Hall _ Hphrase).
  rewrite forallb_forall in Hall.
  apply resultEqb_eq. apply (Hall d). apply spoken_in. lia.
Qed.

Lemma box_rule_witness :
  In ("uncheck", actTurnOff) boxWords /\ In " box number " boxPhrases /\ 1 <= 2 <= 9
  /\ interpret ("uncheck" ++ " box number " ++ Num.toString 2)
     = Return (Some (applyToSub (Int (2 - 1)) actTurnOff)).
Proof.
  split; [unfold boxWords; simpl; tauto|].
  split; [unfold boxPhrases; simpl; tauto|]. split; [lia|].
  apply (@box_rule "uncheck" " box number " actTurnOff 2);
    [unfold boxWords; simpl; tauto | unfold boxPhrases; simpl; tauto | lia].
Defined.

(** ** The list of sub-cell indices is canonical *)

Lemma In_dedupeOnto (xs : list number) :
  forall seen x, In x (dedupeOnto seen xs) <-> In x xs /\ ~ In x seen.
Proof.
  induction xs as [|y xs IH]; intros seen x; simpl.
  - tauto.
  - destruct (existsb (Num.sameValueZero y) seen) eqn:Hseen.
    + rewrite IH. apply existsb_sameValueZero in Hseen.
      split; [tauto|]. intros [[<- | Hin] Hfresh]; [contradiction | tauto].
    + assert (Hy : ~ In y seen).
      { intros Hin. apply existsb_sameValueZero in Hin. congruence. }
      simpl. rewrite IH. simpl.
      split.
      * intros [<- | [Hin Hfresh]]; [tauto|]. split; [tauto|]. tauto.
      * intros [[<- | Hin] Hfresh]; [tauto|].
        destruct (Num.sameValueZero y x) eqn:Heq.
        -- apply sameValueZero_eq in Heq. tauto.
        -- right. split; [exact Hin|]. intros [-> | Hold]; [|contradiction].
           rewrite (proj2 (sameValueZero_eq x x) eq_refl) in Heq. discriminate Heq.
Qed.

Lemma insertSorted_In (x y : number) (sorted : list number) :
  In y (insertSorted x sorted) <-> y = x \/ In y sorted.
Proof.
  split; [apply In_insertSorted|].
  induction sorted as [|z rest IH]; cbn [insertSorted].
  - intros [-> | []]. left. reflexivity.
  - destruct (Num.ltb (Int 0) (compareFn z x)); cbn [In].
    + intros [-> | [<- | H]]; auto.
    + intros [-> | [<- | H]]; auto.
Qed.

Lemma In_sort (xs : list number) (x : number) : In x (sort xs) <-> In x xs.
Proof.
  unfold sort.
  assert (H : forall acc,
             In x (fold_left (fun sorted y => insertSorted y sorted) xs acc)
             <-> In x xs \/ In x acc).
  { induction xs as [|y xs IH]; intros acc; simpl; [tauto|].
    rewrite IH, insertSorted_In. split; intros H; intuition (subst; auto). }
  rewrite H. simpl. tauto.
Qed.

Lemma ascending_above (x : number) (rest : list number) :
  ascending (x :: rest) = true -> forall y, In y rest -> Num.ltb x y = true.
Proof.
  revert x. induction rest as [|z rest IH]; intros x Hasc y Hin; [contradiction|].
  cbn [ascending] in Hasc. apply andb_true_iff in Hasc. destruct Hasc as [Hxz Hrest].
  destruct Hin as [<- | Hin]; [exact Hxz|].
  pose proof (IH _ Hrest _ Hin) as Hzy.
  destruct x as [x|], z as [z|], y as [y|]; simpl in *; try discriminate.
  rewrite Z.ltb_lt in *. lia.
Qed.

Lemma ascending_tail (x : number) (rest : list number) :
  ascending (x :: rest) = true -> ascending rest = true.
Proof.
  destruct rest as [|z rest]; [reflexivity|].
  cbn [ascending]. rewrite andb_true_iff. tauto.
Qed.

Lemma ltb_irreflexive (x y : number) : Num.ltb x y = true -> x <> y.
Proof.
  destruct x as [x|], y as [y|]; simpl; try discriminate.
  rewrite Z.ltb_lt. intros H Heq. inversion Heq. lia.
Qed.

Lemma ltb_asymmetric (x y : number) : Num.ltb x y = true -> Num.ltb y x = true -> False.
Proof.
  destruct x as [x|], y as [y|]; simpl; try discriminate.
  rewrite !Z.ltb_lt. lia.
Qed.

(** Two strictly ascending lists with the same members are equal. *)
Lemma ascending_unique (xs : list number) :
  forall ys,
    ascending xs = true -> ascending ys = true ->
    (forall x, In x xs <-> In x ys) ->
    xs = ys.
Proof.
  induction xs as [|x xs IH]; intros ys Hxs Hys Hsame.
  - destruct ys as [|y ys]; [reflexivity|].
    exfalso. apply (proj2 (Hsame y)). left. reflexivity.
  - destruct ys as [|y ys].
    + exfalso. apply (proj1 (Hsame x)). left. reflexivity.
    + assert (Hhead : x = y).
      { destruct (proj1 (Hsame x) (or_introl eq_refl)) as [Hyx | Hin]; [congruence|].
        destruct (proj2 (Hsame y) (or_introl eq_refl)) as [Hxy | Hin']; [congruence|].
        exfalso. apply (@ltb_asymmetric x y).
        - apply (@ascending_above x xs Hxs y Hin').
        - apply (@ascending_above y ys Hys x Hin). }
      subst y. f_equal.
      apply IH; [eapply ascending_tail; eassumption | eapply ascending_tail; eassumption|].
      intros z. split; intros Hz.
      * destruct (proj1 (Hsame z) (or_intror Hz)) as [<- | Hin]; [|exact Hin].
        exfalso. apply (ltb_irreflexive (@ascending_above x xs Hxs x Hz)). reflexivity.
      * destruct (proj2 (Hsame z) (or_intror Hz)) as [<- | Hin]; [|exact Hin].
        exfalso. apply (ltb_irreflexive (@ascending_above x ys Hys x Hz)). reflexivity.
Qed.

(** X17. The indices of a sub-cell list depend only on which numbers were
    spoken, not on their order or repetition: sorting the deduplicated list
    gives a strictly ascending list with exactly the members of the list,
    and two lists of integers with the same members give the same result. *)
Theorem sub_cell_indices_canonical (xs ys : list number) :
  forallb isInteger xs = true -> forallb isInteger ys = true ->
  (forall x, In x xs <-> In x ys) ->
  sort (dedupe xs) = sort (dedupe ys)
  /\ ascending (sort (dedupe xs)) = true
  /\ (forall x, In x (sort (dedupe xs)) <-> In x xs).
Proof.
  intros Hxs Hys Hsame.
  assert (Hmem : forall l x, In x (sort (dedupe l)) <-> In x l).
  { intros l x. rewrite In_sort. unfold dedupe. rewrite In_dedupeOnto. simpl. tauto. }
  assert (Hasc : forall l, forallb isInteger l = true -> ascending (sort (dedupe l)) = true).
  { intros l Hl. apply sort_ascending; [|apply dedupeOnto_NoDup].
    apply dedupeOnto_forallb. exact Hl. }
  split; [|split; [apply Hasc; exact Hxs | apply Hmem]].
  apply ascending_unique; [apply Hasc; exact Hxs | apply Hasc; exact Hys|].
  intros x. rewrite !Hmem. apply Hsame.
Qed.

Lemma sub_cell_indices_canonical_witness :
  forallb isInteger [Int 5; Int 3; Int 5; Int 4] = true
  /\ forallb isInteger [Int 3; Int 4; Int 4; Int 5] = true
  /\ sort (dedupe [Int 5; Int 3; Int 5; Int 4]) = sort (dedupe [Int 3; Int 4; Int 4; Int 5]).
Proof.
  split; [reflexivity|]. split; [reflexivity|].
  apply (@sub_cell_indices_canonical [Int 5; Int 3; Int 5; Int 4]
                                     [Int 3; Int 4; Int 4; Int 5]);
    try reflexivity.
  intros x. simpl. tauto.
Defined.

(** ** Case and surrounding white space *)

Lemma toLower_idempotent (c : ascii) : Chars.toLower (Chars.toLower c) = Chars.toLower c.
Proof. destruct c as [[] [] [] [] [] [] [] []]; reflexivity. Qed.

Lemma toLowerCase_idempotent (s : string) :
  Str.toLowerCase (Str.toLowerCase s) = Str.toLowerCase s.
Proof.
  unfold Str.toLowerCase. induction s as [|c s IH]; simpl; [reflexivity|].
  rewrite toLower_idempotent, IH. reflexivity.
Qed.

Lemma toLowerCase_app (a b : string) :
  Str.toLowerCase (a ++ b) = Str.toLowerCase a ++ Str.toLowerCase b.
Proof.
  unfold Str.toLowerCase. induction a as [|c a IH]; simpl; [reflexivity|].
  rewrite IH. reflexivity.
Qed.

Lemma trimStart_margin (pre s : string) :
  allSpace pre = true -> Str.trimStart (pre ++ s) = Str.trimStart s.
Proof.
  induction pre as [|c pre IH]; simpl; intros H; [reflexivity|].
  apply andb_true_iff in H. destruct H as [Hc Hpre].
  rewrite Hc. apply IH. exact Hpre.
Qed.

Lemma rev_acc_app (a b acc : string) :
  Str.rev_acc (a ++ b) acc = Str.rev_acc b (Str.rev_acc a acc).
Proof.
  revert acc. induction a as [|c a IH]; intros acc; simpl; [reflexivity|]. apply IH.
Qed.

Lemma trimStart_rev_acc_margin (post : string) :
  allSpace post = true ->
  forall z, Str.trimStart (Str.rev_acc post z) = Str.trimStart z.
Proof.
  induction post as [|c post IH]; simpl; intros H z; [reflexivity|].
  apply andb_true_iff in H. destruct H as [Hc Hpost].
  rewrite (IH Hpost). simpl. rewrite Hc. reflexivity.
Qed.

Lemma trimEnd_margin (s post : string) :
  allSpace post = true -> Str.trimEnd (s ++ post) = Str.trimEnd s.
Proof.
  intros H. unfold Str.trimEnd, Str.rev.
  rewrite rev_acc_app, (trimStart_rev_acc_margin _ H). reflexivity.
Qed.

Lemma trim_margin (s post : string) :
  allSpace post = true ->
  Str.trimEnd (Str.trimStart (s ++ post)) = Str.trimEnd (Str.trimStart s).
Proof.
  intros H. induction s as [|c s IH]; simpl.
  - rewrite (trimStart_allSpace _ H). reflexivity.
  - destruct (Chars.isSpace c); [exact IH|].
    apply (trimEnd_margin (String c s) post H).
Qed.

Lemma normalize_margins (pre s post : string) :
  allSpace pre = true -> allSpace post = true ->
  normalize (pre ++ s ++ post) = normalize s.
Proof.
  intros Hpre Hpost. unfold normalize, Str.trim.
  rewrite !toLowerCase_app, (toLowerCase_allSpace _ Hpre), (toLowerCase_allSpace _ Hpost).
  rewrite (trimStart_margin pre _ Hpre), (trim_margin _ post Hpost). reflexivity.
Qed.

Lemma normalize_lower (s : string) : normalize (Str.toLowerCase s) = normalize s.
Proof. unfold normalize. rewrite toLowerCase_idempotent. reflexivity. Qed.

(** Utterances with the same normal form are interpreted alike. *)
Lemma same_normal_form (a b : string) :
  normalize a = normalize b -> interpret a = interpret b.
Proof.
  intros H.
  assert (Hboth : forall x y,
             normalize x = normalize y ->
             runStatements
               [ nextCellStmt (normalize x); prevCellStmt (normalize x);
                 selectCellStmt (normalize x); toggleSubCellStmt (normalize x);
                 goToCellStmt x; subCellsStmt (normalize x);
                 selectSubStmt x (normalize x); boxNumStmt (normalize x);
                 toggleAllStmt (normalize x); turnOnStmt (normalize x);
                 turnOffStmt (normalize x) ]
             = runStatements
                 [ nextCellStmt (normalize y); prevCellStmt (normalize y);
                   selectCellStmt (normalize y); toggleSubCellStmt (normalize y);
                   goToCellStmt y; subCellsStmt (normalize y);
                   selectSubStmt y (normalize y); boxNumStmt (normalize y);
                   toggleAllStmt (normalize y); turnOnStmt (normalize y);
                   turnOffStmt (normalize y) ]).
  { intros x y Hxy.
    assert (Hcell : goToCellStmt x = goToCellStmt y).
    { unfold goToCellStmt, parseCellNumber. cbv zeta. rewrite Hxy. reflexivity. }
    assert (Hsub : forall n, selectSubStmt x n = selectSubStmt y n).
    { intros n. unfold selectSubStmt, parseSubCellPosition. cbv zeta.
      rewrite Hxy. reflexivity. }
    rewrite Hcell, Hsub, Hxy. reflexivity. }
  destruct a as [|ca a], b as [|cb b].
  - reflexivity.
  - symmetry. apply blank_is_none. rewrite <- H. reflexivity.
  - apply blank_is_none. rewrite H. reflexivity.
  - unfold interpret, parseVoiceCommand. simpl falsy. simpl typeofString.
    cbv zeta. cbn [orb negb]. apply Hboth. exact H.
Qed.

(** X18. The interpreter ignores case and surrounding white space:
    white space before and after an utterance, and lower-casing it, do not
    change how it is interpreted. *)
Theorem interpret_ignores_case_and_margins (pre s post : string) :
  allSpace pre = true -> allSpace post = true ->
  interpret (pre ++ s ++ post) = interpret s
  /\ interpret (Str.toLowerCase s) = interpret s
  /\ interpret (pre ++ Str.toLowerCase s ++ post) = interpret s.
Proof.
  intros Hpre Hpost.
  split; [apply same_normal_form, normalize_margins; assumption|].
  split; [apply same_normal_form, normalize_lower|].
  apply same_normal_form.
  rewrite (normalize_margins pre _ post Hpre Hpost). apply normalize_lower.
Qed.

Lemma interpret_ignores_case_and_margins_witness :
  allSpace "  " = true /\ allSpace " " = true
  /\ interpret ("  " ++ "Select CELL 7" ++ " ") = interpret "Select CELL 7".
Proof.
  split; [reflexivity|]. split; [reflexivity|].
  apply (@interpret_ignores_case_and_margins "  " "Select CELL 7" " "); reflexivity.
Defined.

(** ** The second version of the parser *)

Lemma runStatements_returns (P : VoiceCommand -> bool) (stmts : list statement) :
  Forall (statementReturns P) stmts ->
  match runStatements stmts with
  | Return (Some cmd) => P cmd = true
  | _ => True
  end.
Proof.
  induction 1 as [|s stmts Hs _ IH]; simpl; [exact I|].
  destruct s as [[[cmd|]|]|]; simpl in Hs; auto.
Qed.

Lemma superseded_parseCellNumber_in_range (text : string) (idx : number) :
  Superseded.parseCellNumber text = Some idx -> inRange 0 23 idx = true.
Proof.
  unfold Superseded.parseCellNumber. cbv zeta.
  set (n := normalize text).
  destruct (match_ Superseded.cellPattern n) as [m|].
  - destruct (Num.geb (parseIntOf (group n 1 m)) (Int 1)
              && Num.leb (parseIntOf (group n 1 m)) (Int MAIN_COUNT))%bool eqn:Hguard.
    + intros H. inversion H; subst. apply cell_guard_in_range. exact Hguard.
    + destruct (match_ rowColPattern n) as [m'|]; [|discriminate].
      match goal with |- (if ?g then _ else _) = _ -> _ => destruct g eqn:Hrc end;
        [|discriminate].
      intros H. inversion H; subst. apply row_col_guard_in_range. exact Hrc.
  - destruct (match_ rowColPattern n) as [m'|]; [|discriminate].
    match goal with |- (if ?g then _ else _) = _ -> _ => destruct g eqn:Hrc end;
      [|discriminate].
    intros H. inversion H; subst. apply row_col_guard_in_range. exact Hrc.
Qed.

Lemma superseded_selectCellStmt_ok (n : string) : statementOk (Superseded.selectCellStmt n).
Proof.
  unfold Superseded.selectCellStmt.
  destruct (match_ Superseded.selectCellPattern n) as [[start z]|] eqn:Hm; [|exact I].
  apply match_sound in Hm. unfold Superseded.selectCellPattern in Hm.
  simpl index in Hm. simpl final in Hm.
  to_closing_group Hm.
  apply group_then_boundary with (start := start) in Hm.
  destruct Hm as (b & Hbody & ->).
  apply one_or_two_digits_text in Hbody. simpl parseIntOf.
  destruct (Num.parseInt _) as [requested|]; [|discriminate Hbody].
  simpl in Hbody. apply andb_true_iff in Hbody. destruct Hbody as [Hlo Hhi].
  unfold MAIN_COUNT, MAIN_COLS, MAIN_ROWS. simpl.
  destruct (Z.leb_spec 1 requested); destruct (Z.leb_spec requested 24); simpl;
    rewrite ?andb_true_iff, ?negb_true_iff, ?andb_false_iff, ?Z.leb_le, ?Z.leb_gt; lia.
Qed.

Lemma superseded_goToCellStmt_ok (text : string) : statementOk (Superseded.goToCellStmt text).
Proof.
  unfold Superseded.goToCellStmt.
  destruct (Superseded.parseCellNumber text) as [idx|] eqn:H; [|exact I].
  simpl. eapply superseded_parseCellNumber_in_range. exact H.
Qed.

Lemma superseded_subCellsStmt_ok (n : string) : statementOk (Superseded.subCellsStmt n).
Proof.
  unfold Superseded.subCellsStmt.
  destruct (match_ Superseded.subCellsPattern n) as [[start z]|] eqn:Hm; [|exact I].
  apply match_sound in Hm. unfold Superseded.subCellsPattern in Hm.
  simpl index in Hm. simpl final in Hm.
  to_closing_group Hm.
  apply group_at_end with (start := start) in Hm. destruct Hm as (text & ->).
  cbv zeta.
  destruct (matchGlobal isolatedDigitPattern _) as [numbers|] eqn:Hnum; [|exact I].
  destruct (Nat.ltb 0 (List.length numbers)); [|exact I].
  match goal with
  | |- statementOk (if Nat.ltb 0 (List.length ?l) then _ else _) =>
      destruct (Nat.ltb 0 (List.length l)) eqn:Hlen; [|exact I]
  end.
  simpl. rewrite Hlen, andb_true_r. apply andb_true_iff. split.
  - apply sort_forallb, dedupeOnto_forallb.
    eapply isolated_digits_in_range. exact Hnum.
  - apply sort_ascending; [|apply dedupeOnto_NoDup].
    apply dedupeOnto_forallb, (inRange_isInteger 0 8).
    eapply isolated_digits_in_range. exact Hnum.
Qed.

Lemma superseded_toggleStmt_ok (n : string) : statementOk (Superseded.toggleStmt n).
Proof.
  unfold Superseded.toggleStmt. destruct (test Superseded.togglePattern n); simpl; auto.
Qed.

Lemma superseded_statements_declared (text : string) :
  Forall (statementReturns declared)
    [ nextCellStmt (normalize text); prevCellStmt (normalize text);
      Superseded.selectCellStmt (normalize text); Superseded.goToCellStmt text;
      Superseded.subCellsStmt (normalize text); selectSubStmt text (normalize text);
      Superseded.toggleStmt (normalize text); turnOnStmt (normalize text);
      turnOffStmt (normalize text) ].
Proof.
  repeat apply Forall_cons; try apply Forall_nil.
  - unfold nextCellStmt. destruct (_ || _)%bool; simpl; auto.
  - unfold prevCellStmt. destruct (_ || _)%bool; simpl; auto.
  - unfold Superseded.selectCellStmt.
    destruct (match_ _ _); [|exact I].
    destruct (_ && _)%bool; reflexivity.
  - unfold Superseded.goToCellStmt.
    destruct (Superseded.parseCellNumber text); [reflexivity | exact I].
  - unfold Superseded.subCellsStmt.
    destruct (match_ _ _); [|exact I].
    destruct (group _ _ _); [|exact I]. cbv zeta.
    destruct (matchGlobal _ _); [|exact I].
    destruct (Nat.ltb 0 _); [|exact I].
    destruct (Nat.ltb 0 _); [reflexivity | exact I].
  - unfold selectSubStmt.
    destruct (Str.includes _ _); [|exact I].
    destruct (parseSubCellPosition text); [reflexivity | exact I].
  - unfold Superseded.toggleStmt. destruct (test _ _); simpl; auto.
  - unfold turnOnStmt. destruct (test _ _); simpl; auto.
  - unfold turnOffStmt. destruct (test _ _); simpl; auto.
Qed.

(** X19. The second version of the parser never throws either: for every
    input it returns None or a command whose indices are in range (as for
    the first version), and every command it returns has a type tag that the
    VoiceCommand union declares; it never builds an ApplyToSub. *)
Theorem superseded_total_and_declared (input : value) :
  exists result : option VoiceCommand,
    Superseded.parseVoiceCommand input = Return result
    /\ wellFormedResult result = true
    /\ match result with
       | Some cmd => declared cmd = true /\ typeOf cmd <> "applyToSub"
       | None => True
       end.
Proof.
  assert (Htags : forall cmd, declared cmd = true -> typeOf cmd <> "applyToSub").
  { intros cmd. destruct cmd; simpl; intros H; try discriminate; discriminate H. }
  unfold Superseded.parseVoiceCommand.
  destruct (falsy input || negb (typeofString input))%bool;
    [exists None; auto|].
  destruct input as [text| | | | |]; try (exists None; repeat split; reflexivity).
  cbv zeta.
  pose proof (runStatements_returns (superseded_statements_declared text)) as Hdecl.
  destruct (@runStatements_ok
              [ nextCellStmt (normalize text); prevCellStmt (normalize text);
                Superseded.selectCellStmt (normalize text); Superseded.goToCellStmt text;
                Superseded.subCellsStmt (normalize text); selectSubStmt text (normalize text);
                Superseded.toggleStmt (normalize text); turnOnStmt (normalize text);
                turnOffStmt (normalize text) ]) as (result & Hrun & Hwf).
  { repeat apply Forall_cons; try apply Forall_nil;
      auto using nextCellStmt_ok, prevCellStmt_ok, superseded_selectCellStmt_ok,
        superseded_goToCellStmt_ok, superseded_subCellsStmt_ok, selectSubStmt_ok,
        superseded_toggleStmt_ok, turnOnStmt_ok, turnOffStmt_ok. }
  exists result. rewrite Hrun in *. split; [reflexivity|]. split; [exact Hwf|].
  destruct result as [cmd|]; [|exact I]. split; [exact Hdecl | apply Htags; exact Hdecl].
Qed.

(** X20. In the second version a bare number is a cell number: for n in
    1..24 the utterances "n" and "go to n" are interpreted as GoToCell(n-1).
    The first version requires the keyword, and there both are None. *)
Theorem superseded_bare_number (n : Z) :
  1 <= n <= 24 ->
  Superseded.interpret (Num.toString n) = Return (Some (goToCell (Int (n - 1))))
  /\ Superseded.interpret ("go to " ++ Num.toString n)
     = Return (Some (goToCell (Int (n - 1))))
  /\ interpret (Num.toString n) = Return None
  /\ interpret ("go to " ++ Num.toString n) = Return None.
Proof.
  intros Hn.
  assert (Hall : forallb (fun n =>
                   resultEqb (Superseded.interpret (Num.toString n))
                             (Return (Some (goToCell (Int (n - 1)))))
                   && resultEqb (Superseded.interpret ("go to " ++ Num.toString n))
                                (Return (Some (goToCell (Int (n - 1)))))
                   && resultEqb (interpret (Num.toString n)) (Return None)
                   && resultEqb (interpret ("go to " ++ Num.toString n)) (Return None))%bool
                   (spoken 1 24) = true)
    by (vm_compute; reflexivity).
  rewrite forallb_forall in Hall.
  specialize (Hall n (@spoken_in 1 24 n ltac:(lia))).
  rewrite !andb_true_iff in Hall. destruct Hall as [[[H1 H2] H3] H4].
  repeat split; apply resultEqb_eq; assumption.
Qed.

Lemma superseded_bare_number_witness :
  1 <= 12 <= 24
  /\ Superseded.interpret (Num.toString 12) = Return (Some (goToCell (Int (12 - 1)))).
Proof.
  split; [lia|]. apply (@superseded_bare_number 12). lia.
Defined.

(** X21. In the second version the bare-number rule shadows the rules after
    it: for each digit d of 1..9, "select d" and "check box d" are
    interpreted there as GoToCell(d-1), where the first version gives
    SelectSub(d-1) and ApplyToSub(d-1, TurnOn). *)
Theorem superseded_number_shadows (d : Z) :
  1 <= d <= 9 ->
  Superseded.interpret ("select " ++ Num.toString d) = Return (Some (goToCell (Int (d - 1))))
  /\ interpret ("select " ++ Num.toString d) = Return (Some (selectSub (Int (d - 1))))
  /\ Superseded.interpret ("check box " ++ Num.toString d)
     = Return (Some (goToCell (Int (d - 1))))
  /\ interpret ("check box " ++ Num.toString d)
     = Return (Some (applyToSub (Int (d - 1)) actTurnOn)).
Proof.
  intros Hd.
  assert (Hall : forallb (fun d =>
                   resultEqb (Superseded.interpret ("select " ++ Num.toString d))
                             (Return (Some (goToCell (Int (d - 1)))))
                   && resultEqb (interpret ("select " ++ Num.toString d))
                                (Return (Some (selectSub (Int (d - 1)))))
                   && resultEqb (Superseded.interpret ("check box " ++ Num.toString d))
                                (Return (Some (goToCell (Int (d - 1)))))
                   && resultEqb (interpret ("check box " ++ Num.toString d))
                                (Return (Some (applyToSub (Int (d - 1)) actTurnOn))))%bool
                   (spoken 1 9) = true)
    by (vm_compute; reflexivity).
  rewrite forallb_forall in Hall.
  specialize (Hall d (@spoken_in 1 9 d ltac:(lia))).
  rewrite !andb_true_iff in Hall. destruct Hall as [[[H1 H2] H3] H4].
  repeat split; apply resultEqb_eq; assumption.
Qed.

Lemma superseded_number_shadows_witness :
  1 <= 3 <= 9
  /\ Superseded.interpret ("select " ++ Num.toString 3) = Return (Some (goToCell (Int (3 - 1)))).
Proof.
  split; [lia|]. apply (@superseded_number_shadows 3). lia.
Defined.

Lemma superseded_patterns_flat : forallb flatGroups Superseded.patterns = true.
Proof. reflexivity. Qed.

(** ** The two resolvers *)

(** X22. The resolvers never return an index outside the grid: for every
    text the cell number that [parseCellNumber] returns, in either version
    of the parser, is an integer of 0..23, and the sub-cell position that
    [parseSubCellPosition] returns is an integer of 0..8. *)
Theorem resolvers_stay_in_range (text : string) :
  match parseCellNumber text with
  | Some idx => inRange 0 23 idx
  | None => true
  end = true
  /\ match Superseded.parseCellNumber text with
     | Some idx => inRange 0 23 idx
     | None => true
     end = true
  /\ match parseSubCellPosition text with
     | Some idx => inRange 0 8 idx
     | None => true
     end = true.
Proof.
  split; [|split].
  - destruct (parseCellNumber text) as [idx|] eqn:H; [|reflexivity].
    eapply parseCellNumber_in_range. exact H.
  - destruct (Superseded.parseCellNumber text) as [idx|] eqn:H; [|reflexivity].
    eapply superseded_parseCellNumber_in_range. exact H.
  - destruct (parseSubCellPosition text) as [idx|] eqn:H; [|reflexivity].
    eapply parseSubCellPosition_in_range. exact H.
Qed.

(** ** What [normalize] does to white space *)

Lemma get_none_ge (s : string) : forall i, get i s = None -> (length s <= i)%nat.
Proof.
  induction s as [|c s IH]; intros i H; simpl; [lia|].
  destruct i as [|i]; simpl in H; [discriminate H|].
  apply IH in H. lia.
Qed.

Section Collapse.

Variable input : string.

Lemma sliceFrom_step (j : nat) (c : ascii) :
  charAt input j = Some c ->
  Str.sliceFrom j input = String c (Str.sliceFrom (S j) input).
Proof.
  intros H. pose proof (get_some_lt _ _ H) as Hlt. unfold Str.sliceFrom.
  replace (length input - j)%nat with (S (length input - S j)) by lia.
  apply substring_step. exact H.
Qed.

Lemma sliceFrom_end (j : nat) :
  charAt input j = None -> Str.sliceFrom j input = EmptyString.
Proof.
  intros H. apply get_none_ge in H. unfold Str.sliceFrom.
  replace (length input - j)%nat with 0%nat by lia. apply substring_none.
Qed.

Lemma slice_step (i j : nat) (c : ascii) :
  charAt input i = Some c -> (S i <= j)%nat ->
  Str.slice i j input = String c (Str.slice (S i) j input).
Proof.
  intros H Hj. unfold Str.slice.
  replace (j - i)%nat with (S (j - S i)) by lia.
  apply substring_step. exact H.
Qed.

Lemma slice_empty (i : nat) : Str.slice i i input = EmptyString.
Proof. unfold Str.slice. rewrite Nat.sub_diag. apply substring_none. Qed.

Lemma isSpaceAt_lt (j : nat) : isSpaceAt input j = true -> (j < length input)%nat.
Proof.
  unfold isSpaceAt. destruct (charAt input j) eqn:H; [|discriminate].
  intros _. eapply get_some_lt. exact H.
Qed.

(** A run of white space ends somewhere. *)
Lemma run_exists (j : nat) :
  exists k, (forall t, (t < k)%nat -> isSpaceAt input (j + t) = true)
            /\ isSpaceAt input (j + k) = false.
Proof.
  remember (length input - j)%nat as n eqn:Hn. revert j Hn.
  induction n as [|n IH]; intros j Hn.
  - exists 0%nat. split; [intros t Ht; lia|].
    rewrite Nat.add_0_r.
    destruct (isSpaceAt input j) eqn:H; [|reflexivity].
    apply isSpaceAt_lt in H. lia.
  - destruct (isSpaceAt input j) eqn:H.
    + destruct (IH (S j) ltac:(lia)) as (k & Hrun & Hend).
      exists (S k). split.
      * intros [|t] Ht; [rewrite Nat.add_0_r; exact H|].
        replace (j + S t)%nat with (S j + t)%nat by lia. apply Hrun. lia.
      * replace (j + S k)%nat with (S j + k)%nat by lia. exact Hend.
    + exists 0%nat. split; [intros t Ht; lia|]. rewrite Nat.add_0_r. exact H.
Qed.

Lemma ws_step (x : MatchState) (d : Continuation) :
  compile input ws x d = if isSpaceAt input (endIndex x) then d (advance x) else None.
Proof.
  unfold ws, isSpaceAt. simpl.
  destruct (charAt input (endIndex x)) as [c|]; [|reflexivity].
  rewrite orb_false_r. reflexivity.
Qed.

(** The greedy star of [\s] stops at the end of the run. *)
Lemma star_run (k : nat) :
  forall x fuel,
    (forall t, (t < k)%nat -> isSpaceAt input (endIndex x + t) = true) ->
    isSpaceAt input (endIndex x + k) = false ->
    (k < fuel)%nat ->
    RepeatMatcher fuel (compile input ws) 0 None x (fun y => Some y)
    = Some (mkState (endIndex x + k) (captures x)).
Proof.
  induction k as [|k IH]; intros x fuel Hrun Hend Hfuel;
    (destruct fuel as [|fuel]; [lia|]);
    cbn [RepeatMatcher Nat.eqb Nat.pred option_map andb]; rewrite ws_step.
  - rewrite Nat.add_0_r in Hend. rewrite Hend. cbn [orElse].
    rewrite Nat.add_0_r. destruct x; reflexivity.
  - pose proof (Hrun 0%nat ltac:(lia)) as H0. rewrite Nat.add_0_r in H0.
    rewrite H0.
    replace (Nat.eqb (endIndex (advance x)) (endIndex x)) with false
      by (symmetry; apply Nat.eqb_neq; simpl; lia).
    rewrite (IH (advance x) fuel).
    + simpl. f_equal. f_equal. lia.
    + intros t Ht. simpl. replace (S (endIndex x + t))%nat with (endIndex x + S t)%nat by lia.
      apply Hrun. lia.
    + simpl. replace (S (endIndex x + k))%nat with (endIndex x + S k)%nat by lia. exact Hend.
    + lia.
Qed.

Lemma plus_step (fuel : nat) (m : Matcher) (x : MatchState) (c : Continuation) :
  RepeatMatcher (S fuel) m 1 None x c
  = m x (fun y => RepeatMatcher fuel m 0 None y c).
Proof. reflexivity. Qed.

Lemma spaces_matchAt (j k : nat) :
  (forall t, (t < k)%nat -> isSpaceAt input (j + t) = true) ->
  isSpaceAt input (j + k) = false ->
  matchAt input spacesPattern j
  = if Nat.eqb k 0 then None else Some (mkResult j (mkState (j + k) [])).
Proof.
  intros Hrun Hend. unfold matchAt, spacesPattern, plus.
  change (compile input (Rep 1 None ws) (mkState j []) (fun y => Some y))
    with (RepeatMatcher (S (1 + (length input - j))) (compile input ws) 1 None
                        (mkState j []) (fun y => Some y)).
  rewrite plus_step, ws_step. cbn [endIndex].
  destruct k as [|k].
  - rewrite Nat.add_0_r in Hend. rewrite Hend. reflexivity.
  - pose proof (Hrun 0%nat ltac:(lia)) as H0. rewrite Nat.add_0_r in H0. rewrite H0.
    assert (Hlast : (j + k < length input)%nat) by (apply isSpaceAt_lt, Hrun; lia).
    rewrite (@star_run k).
    + simpl. repeat f_equal. lia.
    + intros t Ht. simpl. replace (S (j + t))%nat with (j + S t)%nat by lia. apply Hrun. lia.
    + simpl. replace (S (j + k))%nat with (j + S k)%nat by lia. exact Hend.
    + lia.
Qed.

Lemma execFrom_unfold (r : regex) (i : nat) :
  (i <= length input)%nat ->
  execFrom input r i
  = match matchAt input r i with
    | Some m => Some m
    | None => execFrom input r (S i)
    end.
Proof.
  intros Hi. unfold execFrom.
  replace (S (length input) - i)%nat with (S (S (length input) - S i)) by lia.
  reflexivity.
Qed.

Lemma firstMatch_index (r : regex) (candidates : list nat) (m : MatchResult) :
  firstMatch input r candidates = Some m -> In (index m) candidates.
Proof.
  induction candidates as [|i rest IH]; cbn [firstMatch]; intros H; [discriminate H|].
  destruct (matchAt input r i) as [m'|] eqn:Hat.
  - inversion H; subst. left. symmetry. exact (proj1 (@matchAt_sound _ _ _ _ Hat)).
  - right. apply IH. exact H.
Qed.

Lemma execFrom_from (r : regex) (i : nat) (m : MatchResult) :
  execFrom input r i = Some m -> (i <= index m)%nat.
Proof.
  unfold execFrom. intros H. apply firstMatch_index in H.
  apply in_seq in H. lia.
Qed.

Lemma collapse_run (k : nat) :
  forall j,
    (forall t, (t < k)%nat -> isSpaceAt input (j + t) = true) ->
    isSpaceAt input (j + k) = false ->
    collapse (Str.sliceFrom j input) true = collapse (Str.sliceFrom (j + k) input) false.
Proof.
  induction k as [|k IH]; intros j Hrun Hend.
  - rewrite Nat.add_0_r in *. unfold isSpaceAt in Hend.
    destruct (charAt input j) as [c|] eqn:Hc.
    + rewrite (@sliceFrom_step _ _ Hc). simpl. rewrite Hend. reflexivity.
    + rewrite (@sliceFrom_end _ Hc). reflexivity.
  - pose proof (Hrun 0%nat ltac:(lia)) as H0. rewrite Nat.add_0_r in H0.
    unfold isSpaceAt in H0. destruct (charAt input j) as [c|] eqn:Hc; [|discriminate H0].
    rewrite (@sliceFrom_step _ _ Hc). simpl. rewrite H0.
    replace (j + S k)%nat with (S j + k)%nat by lia. apply IH.
    + intros t Ht. replace (S j + t)%nat with (j + S t)%nat by lia. apply Hrun. lia.
    + replace (S j + k)%nat with (j + S k)%nat by lia. exact Hend.
Qed.

Lemma replacePieces_step (ms : list MatchResult) (by_ : string) (i : nat) (c : ascii) :
  charAt input i = Some c ->
  match ms with
  | [] => True
  | m :: _ => (S i <= index m)%nat
  end ->
  replacePieces input ms by_ i = String c (replacePieces input ms by_ (S i)).
Proof.
  intros Hc Hhead. destruct ms as [|m ms]; cbn [replacePieces].
  - apply sliceFrom_step. exact Hc.
  - destruct (Nat.leb_spec i (index m)); [|lia].
    destruct (Nat.leb_spec (S i) (index m)); [|lia].
    rewrite (@slice_step _ (index m) _ Hc) by lia. reflexivity.
Qed.

(** Replacing the matches of [/\s+/g] by a space collapses the runs. *)
Lemma replace_collapses (n : nat) :
  forall i fuel,
    (length input - i <= n)%nat -> (i <= length input)%nat ->
    (execAllFuel input i <= fuel)%nat ->
    replacePieces input (execAllFrom input fuel spacesPattern i) " " i
    = collapse (Str.sliceFrom i input) false.
Proof.
  induction n as [n IH] using lt_wf_ind. intros i fuel Hn Hi Hfuel.
  destruct fuel as [|fuel]; [unfold execAllFuel in Hfuel; lia|].
  destruct (run_exists i) as (k & Hrun & Hend).
  cbn [execAllFrom]. rewrite (@execFrom_unfold spacesPattern _ Hi), (@spaces_matchAt _ _ Hrun Hend).
  destruct k as [|k]; cbn [Nat.eqb].
  - rewrite Nat.add_0_r in Hend. unfold isSpaceAt in Hend.
    destruct (charAt input i) as [c|] eqn:Hc.
    + pose proof (get_some_lt _ _ Hc) as Hlt.
      assert (Hsame : match execFrom input spacesPattern (S i) with
                      | Some m =>
                          m :: execAllFrom input fuel spacesPattern
                                 (if Nat.eqb (lastOf m) (index m) then S (lastOf m)
                                  else lastOf m)
                      | None => []
                      end = execAllFrom input (S fuel) spacesPattern (S i)) by reflexivity.
      rewrite Hsame.
      rewrite (@replacePieces_step _ _ _ _ Hc).
      * rewrite (@sliceFrom_step _ _ Hc). cbn [collapse]. rewrite Hend. f_equal.
        apply (IH (length input - S i)%nat); unfold execAllFuel in *; lia.
      * cbn [execAllFrom].
        destruct (execFrom input spacesPattern (S i)) as [m|] eqn:Hexec; [|exact I].
        apply execFrom_from in Hexec. exact Hexec.
    + assert (Hnone : execFrom input spacesPattern (S i) = None).
      { apply get_none_ge in Hc. unfold execFrom.
        replace (S (length input) - S i)%nat with 0%nat by lia. reflexivity. }
      rewrite Hnone. cbn [replacePieces]. rewrite (@sliceFrom_end _ Hc). reflexivity.
  - pose proof (Hrun 0%nat ltac:(lia)) as H0. rewrite Nat.add_0_r in H0.
    assert (Hlast : (i + k < length input)%nat) by (apply isSpaceAt_lt, Hrun; lia).
    unfold lastOf. cbn [final index endIndex].
    replace (Nat.eqb (i + S k) i) with false by (symmetry; apply Nat.eqb_neq; lia).
    cbn [replacePieces index]. rewrite Nat.leb_refl, slice_empty.
    unfold lastOf. cbn [final endIndex].
    rewrite (IH (length input - (i + S k))%nat) by (unfold execAllFuel in *; lia).
    unfold isSpaceAt in H0. destruct (charAt input i) as [c|] eqn:Hc; [|discriminate H0].
    rewrite (@sliceFrom_step _ _ Hc). cbn [collapse append]. rewrite H0. f_equal.
    symmetry. replace (i + S k)%nat with (S i + k)%nat by lia.
    apply collapse_run.
    + intros t Ht. replace (S i + t)%nat with (i + S t)%nat by lia. apply Hrun. lia.
    + replace (S i + k)%nat with (i + S k)%nat by lia. exact Hend.
Qed.

End Collapse.

Lemma sliceFrom_all (s : string) : Str.sliceFrom 0 s = s.
Proof.
  unfold Str.sliceFrom. rewrite Nat.sub_0_r.
  induction s as [|c s IH]; simpl; [reflexivity|].
  f_equal. destruct s; [reflexivity|]. exact IH.
Qed.

Lemma replaceGlobal_collapses (s : string) :
  replaceGlobal spacesPattern " " s = collapse s false.
Proof.
  unfold replaceGlobal, execAll.
  rewrite (@replace_collapses s (length s) 0 (S (S (length s))));
    [rewrite sliceFrom_all; reflexivity | lia | lia | unfold execAllFuel; lia].
Qed.

Lemma collapse_singleSpaced (s : string) :
  singleSpaced (collapse s true) true = true
  /\ singleSpaced (collapse s false) false = true.
Proof.
  induction s as [|c s [IH1 IH2]]; simpl; [auto|].
  destruct (Chars.isSpace c) eqn:Hc; simpl.
  - rewrite IH1. auto.
  - rewrite Hc, IH2. auto.
Qed.

Lemma replaceGlobal_normalize (s : string) :
  normalize s = collapse (Str.trim (Str.toLowerCase s)) false.
Proof. apply replaceGlobal_collapses. Qed.

Lemma str_app_assoc (a b c : string) : (a ++ b) ++ c = a ++ (b ++ c).
Proof. induction a as [|x a IH]; cbn [append]; [reflexivity|]. rewrite IH. reflexivity. Qed.

Lemma rev_acc_spec (s : string) : forall acc, Str.rev_acc s acc = Str.rev s ++ acc.
Proof.
  unfold Str.rev. induction s as [|c s IH]; intros acc; cbn [Str.rev_acc]; [reflexivity|].
  rewrite (IH (String c acc)), (IH (String c EmptyString)), str_app_assoc. reflexivity.
Qed.


Lemma allSpace_rev_acc (s : string) :
  forall acc, allSpace (Str.rev_acc s acc) = (allSpace s && allSpace acc)%bool.
Proof.
  induction s as [|c s IH]; intros acc; cbn [Str.rev_acc allSpace]; [reflexivity|].
  rewrite IH. cbn [allSpace].
  destruct (Chars.isSpace c), (allSpace s), (allSpace acc); reflexivity.
Qed.

Lemma allSpace_rev (s : string) : allSpace (Str.rev s) = allSpace s.
Proof. unfold Str.rev. rewrite allSpace_rev_acc. cbn [allSpace]. apply andb_true_r. Qed.

Lemma trimStart_app_keep (u v : string) :
  allSpace u = false -> Str.trimStart (u ++ v) = Str.trimStart u ++ v.
Proof.
  induction u as [|c u IH]; cbn [append allSpace Str.trimStart]; intros H; [discriminate H|].
  destruct (Chars.isSpace c); [apply IH; exact H | reflexivity].
Qed.

Lemma trimEnd_allSpace (s : string) : allSpace s = true -> Str.trimEnd s = EmptyString.
Proof.
  intros H. unfold Str.trimEnd.
  rewrite trimStart_allSpace by (rewrite allSpace_rev; exact H). reflexivity.
Qed.

(** [trimEnd] read from the left. *)
Lemma trimEnd_cons (c : ascii) (s : string) :
  Str.trimEnd (String c s)
  = if allSpace (String c s) then EmptyString else String c (Str.trimEnd s).
Proof.
  destruct (allSpace (String c s)) eqn:Hall; [apply trimEnd_allSpace; exact Hall|].
  unfold Str.trimEnd. unfold Str.rev at 2. cbn [Str.rev_acc].
  rewrite rev_acc_spec. cbn [allSpace] in Hall.
  destruct (allSpace s) eqn:Hs.
  - rewrite andb_true_r in Hall.
    rewrite (@trimStart_margin (Str.rev s) (String c EmptyString))
      by (rewrite allSpace_rev; exact Hs).
    rewrite (@trimStart_allSpace (Str.rev s)) by (rewrite allSpace_rev; exact Hs).
    cbn [Str.trimStart]. rewrite Hall. reflexivity.
  - rewrite trimStart_app_keep by (rewrite allSpace_rev; exact Hs).
    unfold Str.rev at 1. rewrite rev_acc_app. reflexivity.
Qed.





Lemma collapse_idempotent (t : string) :
  collapse (collapse t true) true = collapse t true
  /\ collapse (collapse t true) false = collapse t true
  /\ collapse (collapse t false) false = collapse t false.
Proof.
  induction t as [|c t (IH1 & IH2 & IH3)]; cbn [collapse]; [auto|].
  destruct (Chars.isSpace c) eqn:Hc; cbn [collapse].
  - replace (Chars.isSpace " ") with true by reflexivity.
    rewrite IH1, IH2. auto.
  - rewrite Hc, IH3. auto.
Qed.

Lemma collapse_keeps_text (t : string) (b : bool) :
  allSpace t = false -> allSpace (collapse (Str.trimEnd t) b) = false.
Proof.
  revert b. induction t as [|c t IH]; intros b H; [discriminate H|].
  rewrite trimEnd_cons, H. cbn [allSpace] in H. cbn [collapse].
  destruct (Chars.isSpace c) eqn:Hc.
  - cbn [andb] in H. destruct b; cbn [allSpace]; rewrite (IH _ H); [reflexivity|].
    apply andb_false_r.
  - cbn [allSpace]. rewrite Hc. reflexivity.
Qed.

Lemma trimEnd_collapse (t : string) :
  forall b, Str.trimEnd (collapse (Str.trimEnd t) b) = collapse (Str.trimEnd t) b.
Proof.
  induction t as [|c t IH]; intros b; [reflexivity|].
  rewrite trimEnd_cons. destruct (allSpace (String c t)) eqn:Hall; [reflexivity|].
  cbn [allSpace] in Hall. cbn [collapse]. destruct (Chars.isSpace c) eqn:Hc.
  - cbn [andb] in Hall. destruct b; [apply IH|].
    rewrite trimEnd_cons. cbn [allSpace]. rewrite (@collapse_keeps_text t true Hall).
    rewrite andb_false_r, IH. reflexivity.
  - rewrite trimEnd_cons. cbn [allSpace]. rewrite Hc. cbn [andb]. rewrite IH. reflexivity.
Qed.

Lemma trimStart_collapse (v : string) :
  Str.trimStart (collapse (Str.trimEnd (Str.trimStart v)) false)
  = collapse (Str.trimEnd (Str.trimStart v)) false.
Proof.
  induction v as [|c v IH]; [reflexivity|].
  cbn [Str.trimStart]. destruct (Chars.isSpace c) eqn:Hc; [exact IH|].
  rewrite trimEnd_cons. cbn [allSpace]. rewrite Hc. cbn [andb collapse]. rewrite Hc.
  cbn [Str.trimStart]. rewrite Hc. reflexivity.
Qed.

Lemma lower_cons (c : ascii) (t : string) :
  Str.toLowerCase (String c t) = String c t ->
  Chars.toLower c = c /\ Str.toLowerCase t = t.
Proof. unfold Str.toLowerCase. cbn [Str.map]. intros H. inversion H. rewrite !H1, !H2. auto. Qed.

Lemma lower_collapse (t : string) :
  Str.toLowerCase t = t -> forall b, Str.toLowerCase (collapse t b) = collapse t b.
Proof.
  induction t as [|c t IH]; intros H b; [reflexivity|].
  apply lower_cons in H. destruct H as [Hc Ht]. cbn [collapse].
  destruct (Chars.isSpace c), b; try (apply IH; exact Ht);
    unfold Str.toLowerCase; cbn [Str.map];
    fold (Str.toLowerCase (collapse t true)); fold (Str.toLowerCase (collapse t false));
    rewrite ?Hc, (IH Ht); reflexivity.
Qed.

Lemma lower_trimStart (t : string) :
  Str.toLowerCase t = t -> Str.toLowerCase (Str.trimStart t) = Str.trimStart t.
Proof.
  induction t as [|c t IH]; intros H; [reflexivity|].
  cbn [Str.trimStart]. destruct (Chars.isSpace c); [|exact H].
  apply IH. apply lower_cons in H. exact (proj2 H).
Qed.

Lemma lower_trimEnd (t : string) :
  Str.toLowerCase t = t -> Str.toLowerCase (Str.trimEnd t) = Str.trimEnd t.
Proof.
  induction t as [|c t IH]; intros H; [reflexivity|].
  rewrite trimEnd_cons. destruct (allSpace (String c t)); [reflexivity|].
  apply lower_cons in H. destruct H as [Hc Ht].
  unfold Str.toLowerCase. cbn [Str.map]. fold (Str.toLowerCase (Str.trimEnd t)).
  rewrite Hc, (IH Ht). reflexivity.
Qed.

Lemma normalize_lowered (s : string) : Str.toLowerCase (normalize s) = normalize s.
Proof.
  rewrite replaceGlobal_normalize. apply lower_collapse. unfold Str.trim.
  apply lower_trimEnd, lower_trimStart, toLowerCase_idempotent.
Qed.

Lemma normalize_trimmed (s : string) : Str.trim (normalize s) = normalize s.
Proof.
  rewrite replaceGlobal_normalize. unfold Str.trim.
  rewrite trimStart_collapse. apply trimEnd_collapse.
Qed.

Lemma normalize_fixed (s : string) : normalize (normalize s) = normalize s.
Proof.
  rewrite (replaceGlobal_normalize (normalize s)), normalize_lowered, normalize_trimmed.
  rewrite replaceGlobal_normalize. apply collapse_idempotent.
Qed.

(** X23. [normalize] replaces every maximal run of white space of the
    lower-cased, trimmed text by one space, so that the only white space of
    a normalised text is single spaces. *)
Theorem normalize_collapses_white_space (s : string) :
  normalize s = collapse (Str.trim (Str.toLowerCase s)) false
  /\ singleSpaced (normalize s) false = true.
Proof.
  split; [apply replaceGlobal_normalize|].
  rewrite replaceGlobal_normalize. apply collapse_singleSpaced.
Qed.



(** X25. [normalize] is idempotent: a normalised text is lower-cased and
    trimmed already, normalising it again changes nothing, and it is
    interpreted as the utterance it comes from. *)
Theorem normalize_idempotent (s : string) :
  normalize (normalize s) = normalize s
  /\ Str.trim (normalize s) = normalize s
  /\ Str.toLowerCase (normalize s) = normalize s
  /\ interpret (normalize s) = interpret s.
Proof.
  split; [apply normalize_fixed|]. split; [apply normalize_trimmed|].
  split; [apply normalize_lowered|].
  apply same_normal_form, normalize_fixed.
Qed.
